(** * Heart cloud: gesture classifier, scene animator and focus selector

    A shallow embedding of the TypeScript sources
      - [src/types.ts]: GestureState, HandLandmark;
      - [src/unnamed/part_001] (imported as [../utils/math]):
        randomInSphere, randomInHeart;
      - [src/unnamed/part_000] (the HeartParticles component): the
        particle targets and the particle tick;
      - [src/components/PhotoGallery.tsx]: PhotoFrame and PhotoGallery
        (photo tick, gallery tick, focus selection effect) and, further
        down the same file, the VisionController component
        (detectGesture, predictWebcam);
      - [src/App.tsx]: handleGestureChange, handleHandMove,
        handleFileUpload.

    Number model.  A JavaScript number is read as a real number: the finite
    doubles with rounding and overflow left out.  [Math.sqrt], [Math.sin],
    [Math.cos], [Math.acos] are the functions of the Reals library,
    [Math.pow d n] is [d ^ n] and [Math.cbrt] is the real cube root.
    Where the source itself tests for NaN (the scale guard of PhotoFrame)
    the numbers are extended with NaN and the two infinities, see
    [Module JSNum].

    The three.js methods the sources call ([Vector3.lerp],
    [MathUtils.lerp], [Vector3.applyMatrix4], [Vector3.distanceTo],
    [Matrix4.invert], [Object3D.worldToLocal], [Quaternion.invert]) are
    transcribed from the library in [Module THREE].  React hooks are
    modelled by explicit state passing: a component is a record of its
    state and refs, and a render, a [useFrame] callback or a [useEffect]
    run is a function on that record. *)

From Stdlib Require Import Reals Lra Lia List Bool Arith NArith String.
From stdpp Require Import base option list gmap.
Import ListNotations.

Open Scope R_scope.

(** ** Comparisons of JavaScript numbers, as booleans *)

Definition Rltb (a b : R) : bool := if Rlt_dec a b then true else false.
Definition Rgtb (a b : R) : bool := Rltb b a.

Infix "<?" := Rltb (at level 70, no associativity) : R_scope.
Infix ">?" := Rgtb (at level 70, no associativity) : R_scope.

(** ** src/types.ts *)

Inductive GestureState : Type :=
| DISPERSED
| FORMED
| ROTATING
| FOCUSED
| LOADING.

Definition GestureState_eqb (a b : GestureState) : bool :=
  match a, b with
  | DISPERSED, DISPERSED | FORMED, FORMED | ROTATING, ROTATING
  | FOCUSED, FOCUSED | LOADING, LOADING => true
  | _, _ => false
  end.

Record HandLandmark : Type := mkLandmark { lx : R; ly : R; lz : R }.

(** The [images: string[]] array of the controller.  React compares hook
    dependencies with [Object.is], so an array counts by its identity
    [ref], not by its contents. *)
Record Images : Type := mkImages { ref : nat; urls : list string }.

(** A JavaScript call either returns a value or throws.  The only exception
    the modelled code can raise is the [TypeError] of a property read on
    [undefined]. *)
Inductive result (A : Type) : Type :=
| Ok (a : A)
| TypeError.
Arguments Ok {A} a.
Arguments TypeError {A}.

Definition bind {A B : Type} (r : result A) (k : A -> result B) : result B :=
  match r with
  | Ok a => k a
  | TypeError => TypeError
  end.

Notation "'let*' x ':=' r 'in' k" := (bind r (fun x => k))
  (at level 10, x name, r at level 100, k at level 200).

(** ** src/components/PhotoGallery.tsx, VisionController: detectGesture *)

Module Vision.

(** One detected hand: the array of its landmarks.  [hand[i]] is
    [undefined] (here [None]) past the end of the array. *)
Definition Hand : Type := list HandLandmark.

Definition at_index (hand : Hand) (i : nat) : option HandLandmark :=
  nth_error hand i.

(** [const dist = (p1, p2) => Math.sqrt(Math.pow(p1.x - p2.x, 2)
                                      + Math.pow(p1.y - p2.y, 2))]:
    reading [.x] of an [undefined] landmark throws. *)
Definition dist (p1 p2 : option HandLandmark) : result R :=
  match p1, p2 with
  | Some a, Some b => Ok (sqrt ((lx a - lx b) ^ 2 + (ly a - ly b) ^ 2))
  | _, _ => TypeError
  end.

(** [landmarks] is the detector's array of hands; [None] stands for a
    null or undefined argument ([!landmarks]). *)
Definition detectGesture (landmarks : option (list Hand))
  : result GestureState :=
  match landmarks with
  | None => Ok DISPERSED
  | Some [] => Ok DISPERSED
  | Some (hand :: _) =>
      let wrist := at_index hand 0 in
      let thumbTip := at_index hand 4 in
      let indexTip := at_index hand 8 in
      let middleTip := at_index hand 12 in
      let ringTip := at_index hand 16 in
      let pinkyTip := at_index hand 20 in
      let* pinchDist := dist thumbTip indexTip in
      let* indexDist := dist indexTip wrist in
      let* middleDist := dist middleTip wrist in
      let* ringDist := dist ringTip wrist in
      let* pinkyDist := dist pinkyTip wrist in
      if (pinchDist <? 0.06) && ((middleDist >? 0.2) || (ringDist >? 0.2))
      then Ok FOCUSED
      else
        if (indexDist >? 0.35) && (middleDist >? 0.35)
           && (ringDist <? 0.25) && (pinkyDist <? 0.25)
           && (pinchDist >? 0.1)
        then Ok ROTATING
        else
          let avgTipToWrist :=
            (indexDist + middleDist + ringDist + pinkyDist) / 4 in
          if avgTipToWrist <? 0.25 then Ok FORMED else Ok DISPERSED
  end.

End Vision.

(** ** three.js: the vector, matrix and quaternion methods the sources call *)

Module THREE.

Record Vector3 : Type := mkVector3 { vx : R; vy : R; vz : R }.

Record Euler : Type := mkEuler { ex : R; ey : R; ez : R }.

Record Quaternion : Type := mkQuaternion { qx : R; qy : R; qz : R; qw : R }.

(** A 4x4 matrix; [nij] is row [i], column [j], as in the locals of
    [Matrix4.invert] ([elements] is column-major: [te[0] = n11],
    [te[1] = n21], ..., [te[12] = n14], ..., [te[15] = n44]). *)
Record Matrix4 : Type := mkMatrix4 {
  n11 : R; n12 : R; n13 : R; n14 : R;
  n21 : R; n22 : R; n23 : R; n24 : R;
  n31 : R; n32 : R; n33 : R; n34 : R;
  n41 : R; n42 : R; n43 : R; n44 : R
}.

Definition identity : Matrix4 :=
  mkMatrix4 1 0 0 0
            0 1 0 0
            0 0 1 0
            0 0 0 1.

(** [MathUtils.lerp(x, y, t) = (1 - t) * x + t * y]. *)
Definition lerp (x y t : R) : R := (1 - t) * x + t * y.

(** [Vector3.lerp(v, alpha)]: [this.x += (v.x - this.x) * alpha], ... *)
Definition Vector3_lerp (this v : Vector3) (alpha : R) : Vector3 :=
  mkVector3 (vx this + (vx v - vx this) * alpha)
            (vy this + (vy v - vy this) * alpha)
            (vz this + (vz v - vz this) * alpha).

(** [Vector3.multiplyScalar(s)]. *)
Definition multiplyScalar (this : Vector3) (s : R) : Vector3 :=
  mkVector3 (vx this * s) (vy this * s) (vz this * s).

(** [Vector3.length()]. *)
Definition Vector3_length (this : Vector3) : R :=
  sqrt (vx this * vx this + vy this * vy this + vz this * vz this).

(** [Vector3.distanceTo(v) = Math.sqrt(this.distanceToSquared(v))]. *)
Definition distanceToSquared (this v : Vector3) : R :=
  let dx := vx this - vx v in
  let dy := vy this - vy v in
  let dz := vz this - vz v in
  dx * dx + dy * dy + dz * dz.

Definition distanceTo (this v : Vector3) : R :=
  sqrt (distanceToSquared this v).

(** [Vector3.applyMatrix4(m)], with its perspective divide. *)
Definition applyMatrix4 (this : Vector3) (m : Matrix4) : Vector3 :=
  let x := vx this in
  let y := vy this in
  let z := vz this in
  let w := 1 / (n41 m * x + n42 m * y + n43 m * z + n44 m) in
  mkVector3 ((n11 m * x + n12 m * y + n13 m * z + n14 m) * w)
            ((n21 m * x + n22 m * y + n23 m * z + n24 m) * w)
            ((n31 m * x + n32 m * y + n33 m * z + n34 m) * w).

(** The determinant computed by [Matrix4.invert]
    ([det = n11 * t11 + n21 * t12 + n31 * t13 + n41 * t14]). *)
Definition t11 (m : Matrix4) : R :=
  n23 m * n34 m * n42 m - n24 m * n33 m * n42 m + n24 m * n32 m * n43 m
  - n22 m * n34 m * n43 m - n23 m * n32 m * n44 m + n22 m * n33 m * n44 m.
Definition t12 (m : Matrix4) : R :=
  n14 m * n33 m * n42 m - n13 m * n34 m * n42 m - n14 m * n32 m * n43 m
  + n12 m * n34 m * n43 m + n13 m * n32 m * n44 m - n12 m * n33 m * n44 m.
Definition t13 (m : Matrix4) : R :=
  n13 m * n24 m * n42 m - n14 m * n23 m * n42 m + n14 m * n22 m * n43 m
  - n12 m * n24 m * n43 m - n13 m * n22 m * n44 m + n12 m * n23 m * n44 m.
Definition t14 (m : Matrix4) : R :=
  n14 m * n23 m * n32 m - n13 m * n24 m * n32 m - n14 m * n22 m * n33 m
  + n12 m * n24 m * n33 m + n13 m * n22 m * n34 m - n12 m * n23 m * n34 m.

Definition det (m : Matrix4) : R :=
  n11 m * t11 m + n21 m * t12 m + n31 m * t13 m + n41 m * t14 m.

Definition zero : Matrix4 :=
  mkMatrix4 0 0 0 0 0 0 0 0 0 0 0 0 0 0 0 0.

(** [Matrix4.invert()]: the cofactor formula; a singular matrix
    ([det === 0]) becomes the zero matrix. *)
Definition invert (m : Matrix4) : Matrix4 :=
  if Req_dec_T (det m) 0 then zero
  else
    let detInv := 1 / det m in
    let a11 := n11 m in let a12 := n12 m in
    let a13 := n13 m in let a14 := n14 m in
    let a21 := n21 m in let a22 := n22 m in
    let a23 := n23 m in let a24 := n24 m in
    let a31 := n31 m in let a32 := n32 m in
    let a33 := n33 m in let a34 := n34 m in
    let a41 := n41 m in let a42 := n42 m in
    let a43 := n43 m in let a44 := n44 m in
    {| (* te[0], te[4], te[8], te[12] *)
       n11 := t11 m * detInv;
       n12 := t12 m * detInv;
       n13 := t13 m * detInv;
       n14 := t14 m * detInv;
       (* te[1], te[5], te[9], te[13] *)
       n21 := (a24 * a33 * a41 - a23 * a34 * a41 - a24 * a31 * a43
               + a21 * a34 * a43 + a23 * a31 * a44 - a21 * a33 * a44)
              * detInv;
       n22 := (a13 * a34 * a41 - a14 * a33 * a41 + a14 * a31 * a43
               - a11 * a34 * a43 - a13 * a31 * a44 + a11 * a33 * a44)
              * detInv;
       n23 := (a14 * a23 * a41 - a13 * a24 * a41 - a14 * a21 * a43
               + a11 * a24 * a43 + a13 * a21 * a44 - a11 * a23 * a44)
              * detInv;
       n24 := (a13 * a24 * a31 - a14 * a23 * a31 + a14 * a21 * a33
               - a11 * a24 * a33 - a13 * a21 * a34 + a11 * a23 * a34)
              * detInv;
       (* te[2], te[6], te[10], te[14] *)
       n31 := (a22 * a34 * a41 - a24 * a32 * a41 + a24 * a31 * a42
               - a21 * a34 * a42 - a22 * a31 * a44 + a21 * a32 * a44)
              * detInv;
       n32 := (a14 * a32 * a41 - a12 * a34 * a41 - a14 * a31 * a42
               + a11 * a34 * a42 + a12 * a31 * a44 - a11 * a32 * a44)
              * detInv;
       n33 := (a12 * a24 * a41 - a14 * a22 * a41 + a14 * a21 * a42
               - a11 * a24 * a42 - a12 * a21 * a44 + a11 * a22 * a44)
              * detInv;
       n34 := (a14 * a22 * a31 - a12 * a24 * a31 - a14 * a21 * a32
               + a11 * a24 * a32 + a12 * a21 * a34 - a11 * a22 * a34)
              * detInv;
       (* te[3], te[7], te[11], te[15] *)
       n41 := (a23 * a32 * a41 - a22 * a33 * a41 - a23 * a31 * a42
               + a21 * a33 * a42 + a22 * a31 * a43 - a21 * a32 * a43)
              * detInv;
       n42 := (a12 * a33 * a41 - a13 * a32 * a41 + a13 * a31 * a42
               - a11 * a33 * a42 - a12 * a31 * a43 + a11 * a32 * a43)
              * detInv;
       n43 := (a13 * a22 * a41 - a12 * a23 * a41 - a13 * a21 * a42
               + a11 * a23 * a42 + a12 * a21 * a43 - a11 * a22 * a43)
              * detInv;
       n44 := (a12 * a23 * a31 - a13 * a22 * a31 + a13 * a21 * a32
               - a11 * a23 * a32 - a12 * a21 * a33 + a11 * a22 * a33)
              * detInv |}.

(** [Quaternion.invert()]: "quaternion is assumed to have unit length",
    so the inverse is the conjugate. *)
Definition Quaternion_invert (q : Quaternion) : Quaternion :=
  mkQuaternion (- qx q) (- qy q) (- qz q) (qw q).

(** [Quaternion.multiplyQuaternions(a, b)]. *)
Definition multiplyQuaternions (a b : Quaternion) : Quaternion :=
  mkQuaternion
    (qx a * qw b + qw a * qx b + qy a * qz b - qz a * qy b)
    (qy a * qw b + qw a * qy b + qz a * qx b - qx a * qz b)
    (qz a * qw b + qw a * qz b + qx a * qy b - qy a * qx b)
    (qw a * qw b - qx a * qx b - qy a * qy b - qz a * qz b).

Definition Quaternion_identity : Quaternion := mkQuaternion 0 0 0 1.

(** The local transform of a group, as the ticks write it:
    [group.position] and [group.rotation]. *)
Record Transform : Type := mkTransform {
  position : Vector3;
  rotation : Euler
}.

(** The world frame of an object of the scene graph, as the sources read
    it: [matrixWorld] once it is up to date ([updateMatrixWorld],
    [updateWorldMatrix]) and the rotation [getWorldQuaternion] extracts
    from it. *)
Record Object3D : Type := mkObject3D {
  matrixWorld : Matrix4;
  worldQuaternion : Quaternion
}.

(** [Object3D.worldToLocal(vector)]:
    [vector.applyMatrix4(_m1.copy(this.matrixWorld).invert())]. *)
Definition worldToLocal (this : Object3D) (vector : Vector3) : Vector3 :=
  applyMatrix4 vector (invert (matrixWorld this)).

(** [Object3D.localToWorld(vector)]:
    [vector.applyMatrix4(this.matrixWorld)]. *)
Definition localToWorld (this : Object3D) (vector : Vector3) : Vector3 :=
  applyMatrix4 vector (matrixWorld this).

End THREE.

(** ** src/unnamed/part_001 (utils/math): randomInSphere, randomInHeart *)

Module Sampler.
Import THREE.

(** [Math.random()]: the run of the program fixes the sequence of draws;
    each call returns the next one. *)
Record RNG : Type := mkRNG { draws : nat -> R; cursor : nat }.

Definition random (g : RNG) : R * RNG :=
  (draws g (cursor g), mkRNG (draws g) (S (cursor g))).

(** Every draw of [Math.random()] lies in [0, 1). *)
Definition uniform01 (g : RNG) : Prop :=
  forall n : nat, 0 <= draws g n < 1.

(** [Math.cbrt]: the real cube root. *)
Definition cbrt (x : R) : R :=
  if Rlt_dec 0 x then exp (ln x / 3)
  else if Rlt_dec x 0 then - exp (ln (- x) / 3)
  else 0.

Definition randomInSphere (radius : R) (g : RNG) : Vector3 * RNG :=
  let (u, g1) := random g in
  let (v, g2) := random g1 in
  let theta := 2 * PI * u in
  let phi := acos (2 * v - 1) in
  let (w, g3) := random g2 in
  let r := cbrt w * radius in
  let sinPhi := sin phi in
  (mkVector3 (r * sinPhi * cos theta)
             (r * sinPhi * sin theta)
             (r * cos phi),
   g3).

Definition randomInHeart (scale : R) (g : RNG) : Vector3 * RNG :=
  let (d1, g1) := random g in
  let t := d1 * PI * 2 in
  let x := 16 * sin t ^ 3 in
  let y := 13 * cos t - 5 * cos (2 * t) - 2 * cos (3 * t) - cos (4 * t) in
  let (d2, g2) := random g1 in
  let z := (d2 - 0.5) * 8 in
  let vec := mkVector3 x y z in
  let (d3, g3) := random g2 in
  let r := cbrt d3 in
  (multiplyScalar (multiplyScalar vec r) scale, g3).

End Sampler.

(** ** src/App.tsx: the shared hand anchor *)

Module App.
Import THREE.

(** The part of the controller's state the callbacks write:
    [gestureState] (React state) and [handPosRef.current]. *)
Record State : Type := mkState {
  gestureState : GestureState;
  images : Images;
  handPos : Vector3
}.

(** [useState(GestureState.DISPERSED)], [useState<string[]>([])],
    [useRef(new Vector3(0, 0, 0))]. *)
Definition initial : State :=
  mkState DISPERSED (mkImages 0 []) (mkVector3 0 0 0).

Definition handleGestureChange (state : GestureState) (st : State) : State :=
  mkState state (images st) (handPos st).

(** [setImages(prev => [...prev, ...loadedImages])]: a new array. *)
Definition appendImages (loadedImages : list string) (prev : Images)
  : Images :=
  mkImages (S (ref prev)) (urls prev ++ loadedImages).

(** [handleFileUpload], once the files are read; nothing happens when
    no file was chosen. *)
Definition handleFileUpload (files : list string) (st : State) : State :=
  match files with
  | [] => st
  | _ => mkState (gestureState st) (appendImages files (images st))
                 (handPos st)
  end.

Definition handleHandMove (x y : R) (st : State) : State :=
  let sensitivityX := 25 in
  let sensitivityY := 15 in
  let targetX := (0.5 - x) * sensitivityX * 2 in
  let targetY := (0.5 - y) * sensitivityY * 2 in
  mkState (gestureState st) (images st) (mkVector3 targetX targetY 0).

End App.

(** ** src/App.tsx: the heart-formation cycles and the gallery gate *)

Module Cycle.

(** [cycleCount] (React state) and [prevGestureRef.current]. *)
Record State : Type := mkState {
  cycleCount : nat;
  prevGesture : GestureState
}.

(** [useState(0)], [useRef(GestureState.DISPERSED)]. *)
Definition initial : State := mkState 0 DISPERSED.

Definition active (g : GestureState) : bool :=
  GestureState_eqb g FORMED || GestureState_eqb g ROTATING.

(** One run of the effect "3. Track Heart Formation Cycles", for the
    gesture state of the render it follows. *)
Definition useEffect (gestureState : GestureState) (st : State) : State :=
  let isActive := active gestureState in
  let wasActive := active (prevGesture st) in
  mkState (if isActive && negb wasActive
           then (cycleCount st + 1)%nat
           else cycleCount st)
          gestureState.

(** [const showPhotos = cycleCount >= 2]. *)
Definition showPhotos (st : State) : bool := (2 <=? cycleCount st)%nat.

End Cycle.

(** ** src/components/PhotoGallery.tsx, VisionController: predictWebcam *)

Module Controller.
Import Vision.

(** The two props of the controller, as the calls it makes on them. *)
Inductive Callback : Type :=
| onGestureChange (state : GestureState)
| onHandMove (x y : R).

(** One detection cycle.  [refsReady] says that the landmarker, the video
    and the canvas refs are all set; [detected] is [result.landmarks] of
    [detectForVideo].  The result lists the callbacks invoked, in order
    (the debug overlay and the next [requestAnimationFrame] are left
    out). *)
Definition predictWebcam (refsReady : bool) (videoWidth videoHeight : nat)
           (detected : option (list Hand)) : result (list Callback) :=
  if negb refsReady then Ok []
  else if (0 <? videoWidth)%nat && (0 <? videoHeight)%nat then
    match detected with
    | Some (landmarks :: rest) =>
        let* newState := detectGesture (Some (landmarks :: rest)) in
        match at_index landmarks 0 with
        | Some wrist =>
            Ok [onGestureChange newState; onHandMove (lx wrist) (ly wrist)]
        | None => TypeError
        end
    | _ => Ok [onGestureChange DISPERSED; onHandMove 0.5 0.5]
    end
  else Ok [].

(** The controller is mounted with [onGestureChange={handleGestureChange}]
    and [onHandMove={handleHandMove}]. *)
Definition deliver (st : App.State) (c : Callback) : App.State :=
  match c with
  | onGestureChange s => App.handleGestureChange s st
  | onHandMove x y => App.handleHandMove x y st
  end.

Definition deliverAll (st : App.State) (cs : list Callback) : App.State :=
  fold_left deliver cs st.

End Controller.

(** ** JavaScript numbers with their special values

    Used where the source guards against NaN.  Finite values are exact
    reals; the special values follow IEEE 754 (signed zeros are not
    told apart). *)

Module JSNum.

Inductive num : Type :=
| NaN
| PInf
| NInf
| Fin (r : R).

Definition isNaN (a : num) : bool :=
  match a with NaN => true | _ => false end.

Definition neg (a : num) : num :=
  match a with
  | NaN => NaN
  | PInf => NInf
  | NInf => PInf
  | Fin r => Fin (- r)
  end.

Definition add (a b : num) : num :=
  match a, b with
  | NaN, _ | _, NaN => NaN
  | PInf, NInf | NInf, PInf => NaN
  | PInf, _ | _, PInf => PInf
  | NInf, _ | _, NInf => NInf
  | Fin x, Fin y => Fin (x + y)
  end.

Definition sub (a b : num) : num := add a (neg b).

(** An infinity of the given sign times a finite [r]. *)
Definition mul_inf (positive : bool) (r : R) : num :=
  if Rlt_dec 0 r then (if positive then PInf else NInf)
  else if Rlt_dec r 0 then (if positive then NInf else PInf)
  else NaN.

Definition mul (a b : num) : num :=
  match a, b with
  | NaN, _ | _, NaN => NaN
  | PInf, PInf | NInf, NInf => PInf
  | PInf, NInf | NInf, PInf => NInf
  | PInf, Fin r | Fin r, PInf => mul_inf true r
  | NInf, Fin r | Fin r, NInf => mul_inf false r
  | Fin x, Fin y => Fin (x * y)
  end.

(** [a / b]: a finite non-zero number over zero is an infinity with the
    sign of the numerator, and [0 / 0] is NaN. *)
Definition div (a b : num) : num :=
  match a, b with
  | NaN, _ | _, NaN => NaN
  | PInf, Fin y => if Rlt_dec y 0 then NInf else PInf
  | NInf, Fin y => if Rlt_dec y 0 then PInf else NInf
  | Fin _, PInf | Fin _, NInf => Fin 0
  | Fin x, Fin y =>
      if Req_dec_T y 0
      then (if Rlt_dec 0 x then PInf
            else if Rlt_dec x 0 then NInf else NaN)
      else Fin (x / y)
  | _, _ => NaN
  end.

(** [a > b]; false as soon as one side is NaN. *)
Definition gtb (a b : num) : bool :=
  match a, b with
  | NaN, _ | _, NaN => false
  | PInf, PInf => false
  | PInf, _ => true
  | _, PInf => false
  | NInf, _ => false
  | Fin _, NInf => true
  | Fin x, Fin y => x >? y
  end.

(** [THREE.MathUtils.lerp(x, y, t) = (1 - t) * x + t * y]. *)
Definition lerp (x y t : num) : num :=
  add (mul (sub (Fin 1) t) x) (mul t y).

(** "A finite positive number". *)
Definition finite_positive (a : num) : Prop :=
  exists r : R, a = Fin r /\ 0 < r.

End JSNum.

(** ** src/unnamed/part_000: HeartParticles *)

Module Particles.
Import THREE Sampler.

Definition COUNT : nat := 5000.
Definition DAMPING : R := 0.05.

(** Typed arrays are objects: they live in a store and the component
    holds references to them.  A write through one reference is seen
    through every alias of it. *)
Record Store : Type := mkStore {
  cells : gmap nat (list R);
  fresh : nat
}.

(** [new Float32Array(n)] and [new Float32Array(typedArray)] both
    allocate a new array (zero-filled, respectively a copy).  A write
    past the end of a typed array is ignored. *)
Definition alloc (a : list R) (s : Store) : nat * Store :=
  (fresh s, mkStore (<[fresh s := a]> (cells s)) (S (fresh s))).

Definition contents (s : Store) (ref : nat) : list R :=
  default [] (cells s !! ref).

Definition read (s : Store) (ref : nat) (i : nat) : R :=
  nth i (contents s ref) 0.

Definition write (s : Store) (ref : nat) (i : nat) (v : R) : Store :=
  mkStore (alter (fun a : list R => <[i := v]> a) ref (cells s)) (fresh s).

Record Refs : Type := mkRefs {
  heartPositions : nat;
  dispersedPositions : nat;
  colors : nat;
  randomPhases : nat;
  currentPositions : nat
}.

(** [colorObj.setHex(hex)]: the three channels of [0xRRGGBB]
    (colour-space conversion left out). *)
Definition channel (hex : N) (shift : N) : R :=
  INR (N.to_nat ((hex / shift) mod 256)) / 255.

Definition pickHex (r : R) : N :=
  if r >? 0.9 then 0xffffff%N
  else if r >? 0.6 then 0x38bdf8%N
  else if r >? 0.3 then 0x0ea5e9%N
  else 0x0284c7%N.

(** The body of [for (let i = 0; i < COUNT; i++)] in the [useMemo]. *)
Definition fillOne (hPos dPos cols phases : nat) (i : nat)
           (sg : Store * RNG) : Store * RNG :=
  let (s, g) := sg in
  let (h, g1) := randomInHeart 0.6 g in
  let s := write s hPos (i * 3) (vx h) in
  let s := write s hPos (i * 3 + 1) (vy h) in
  let s := write s hPos (i * 3 + 2) (vz h) in
  let (d, g2) := randomInSphere 40 g1 in
  let s := write s dPos (i * 3) (vx d) in
  let s := write s dPos (i * 3 + 1) (vy d) in
  let s := write s dPos (i * 3 + 2) (vz d) in
  let (r, g3) := random g2 in
  let hex := pickHex r in
  let s := write s cols (i * 3) (channel hex 65536) in
  let s := write s cols (i * 3 + 1) (channel hex 256) in
  let s := write s cols (i * 3 + 2) (channel hex 1) in
  let (ph, g4) := random g3 in
  let s := write s phases i (ph * PI * 2) in
  (s, g4).

(** The [useMemo(() => ..., [])] of the component, followed by
    [useRef(new Float32Array(dispersedPositions))]: run once, at the
    first render.  [count] is [COUNT] in the program. *)
Definition mount (count : nat) (s : Store) (g : RNG) : Refs * Store * RNG :=
  let (hPos, s) := alloc (repeat 0 (count * 3)) s in
  let (dPos, s) := alloc (repeat 0 (count * 3)) s in
  let (cols, s) := alloc (repeat 0 (count * 3)) s in
  let (phases, s) := alloc (repeat 0 count) s in
  let (s, g) :=
    fold_left (fun sg i => fillOne hPos dPos cols phases i sg)
              (seq 0 count) (s, g) in
  let (cur, s) := alloc (contents s dPos) s in
  (mkRefs hPos dPos cols phases cur, s, g).

(** What the tick animates besides the particle positions. *)
Record Scene : Type := mkScene {
  group : Transform;           (* groupRef.current *)
  meshRotationY : R;           (* meshRef.current.rotation.y *)
  opacity : R                  (* material.opacity *)
}.

Definition isFormed (gestureState : GestureState) : bool :=
  GestureState_eqb gestureState FORMED
  || GestureState_eqb gestureState ROTATING.

(** 1. GLOBAL MOVEMENT & PARALLAX TILT *)
Definition moveGroup (gestureState : GestureState) (handPos : Vector3)
           (g : Transform) : Transform :=
  let targetPos :=
    if isFormed gestureState then mkVector3 0 0 0 else handPos in
  let position' := Vector3_lerp (position g) targetPos 0.1 in
  let targetRotX := - vy handPos * 0.05 in
  let targetRotY := vx handPos * 0.05 in
  mkTransform position'
              (mkEuler (lerp (ex (rotation g)) targetRotX 0.05)
                       (lerp (ey (rotation g)) targetRotY 0.05)
                       (ez (rotation g))).

(** 2. PARTICLE LERPING: the body of the loop over [i]. *)
Definition lerpParticle (targetBuffer cur : nat) (scale time : R)
           (s : Store) (i : nat) : Store :=
  let idx := (i * 3)%nat in
  let tx := read s targetBuffer idx * scale in
  let ty := read s targetBuffer (idx + 1) * scale in
  let tz := read s targetBuffer (idx + 2) * scale in
  let noise := sin (time * 2 + INR i) * 0.1 in
  let s := write s cur idx
                 (read s cur idx + (tx - read s cur idx) * DAMPING) in
  let s := write s cur (idx + 1)
                 (read s cur (idx + 1)
                  + (ty + noise - read s cur (idx + 1)) * DAMPING) in
  let s := write s cur (idx + 2)
                 (read s cur (idx + 2)
                  + (tz - read s cur (idx + 2)) * DAMPING) in
  s.

(** One [useFrame] callback.  [refsReady] says that [meshRef] and
    [groupRef] are set.  The instance matrices written for the renderer
    are left out. *)
Definition useFrame (count : nat) (refs : Refs)
           (gestureState : GestureState) (handPos : Vector3)
           (time delta : R) (refsReady : bool)
           (st : Scene * Store) : Scene * Store :=
  if negb refsReady then st
  else
    let (sc, s) := st in
    let group' := moveGroup gestureState handPos (group sc) in
    let targetBuffer :=
      if isFormed gestureState || GestureState_eqb gestureState FOCUSED
      then heartPositions refs
      else dispersedPositions refs in
    let scale := 1 in
    let s' :=
      fold_left (lerpParticle targetBuffer (currentPositions refs)
                              scale time)
                (seq 0 count) s in
    let opacity' :=
      if GestureState_eqb gestureState FOCUSED
      then lerp (opacity sc) 0.2 0.1
      else lerp (opacity sc) 1 0.1 in
    let rotY' :=
      if GestureState_eqb gestureState ROTATING
      then meshRotationY sc + delta * 2
      else if GestureState_eqb gestureState FORMED
           then lerp (meshRotationY sc) (sin (time * 0.5) * 0.2) 0.05
           else meshRotationY sc + delta * 0.1 in
    (mkScene group' rotY' opacity', s').

End Particles.

(** ** src/components/PhotoGallery.tsx: PhotoFrame *)

Module PhotoFrame.
Import THREE JSNum.

Record Props : Type := mkProps {
  targetPos : Vector3;
  isFocused : bool;
  gestureState : GestureState;
  parentGroup : option Object3D;      (* parentGroupRef.current *)
  visible : bool
}.

(** The orientation of the mesh.  three.js keeps [mesh.rotation] and
    [mesh.quaternion] in sync through conversions that the sources do
    not depend on; an orientation is recorded by the writes that made
    it. *)
Inductive Orientation : Type :=
| Quat (q : Quaternion)
    (* [mesh.quaternion] holds [q] *)
| Lerped (from : Orientation) (targetRot : Euler) (damping : R)
    (* [rotation.x/y/z] lerped toward [targetRot] *)
| LookAt (from : Orientation) (target : Vector3).
    (* [mesh.lookAt(target)] *)

Record Mesh : Type := mkMesh {
  position : Vector3;
  scale : num * num * num;
  orientation : Orientation;
  opacity : R;
  renderOrder : nat
}.

Record State : Type := mkState {
  current : Vector3;                  (* position.current *)
  aspect : num;
  meshRef : option Mesh
}.

(** A three.js mesh starts with scale (1, 1, 1) and no rotation; the
    JSX sets [position={position.current}] and [opacity={0}]. *)
Definition initialMesh (start : Vector3) : Mesh :=
  mkMesh start (Fin 1, Fin 1, Fin 1) (Quat Quaternion_identity) 0 0.

Definition initial (start : Vector3) : State :=
  mkState start (Fin 1) (Some (initialMesh start)).

Definition damping : R := 0.08.

Definition isFormed (g : GestureState) : bool :=
  GestureState_eqb g FORMED || GestureState_eqb g ROTATING.

(** "Calculate Destination": [dest], [targetScale], [targetRot]. *)
Definition destination (p : Props) (time : R) (st : State)
  : Vector3 * R * Euler :=
  let dest := targetPos p in
  match isFocused p, parentGroup p with
  | true, Some parent =>
      let targetWorldPos := mkVector3 0 0 20 in
      let localDest := worldToLocal parent targetWorldPos in
      (localDest, 8, mkEuler 0 0 0)
  | _, _ =>
      if GestureState_eqb (gestureState p) FOCUSED then
        (mkVector3 (vx dest) (vy dest) (vz dest - 40), 0.5, mkEuler 0 0 0)
      else if isFormed (gestureState p) then
        (dest, 1.2, mkEuler 0 (time * 0.2) 0)
      else
        (mkVector3 (vx dest)
                   (vy dest + sin (time + vx (current st)) * 2)
                   (vz dest),
         3,
         mkEuler (sin (time * 0.1)) (cos (time * 0.1)) 0)
  end.

(** "Apply Scale". *)
Definition applyScale (aspect : num) (targetScale : R)
           (scale : num * num * num) : num * num * num :=
  let currentScale := snd (fst scale) in
  let nextScale := lerp currentScale (Fin targetScale) (Fin damping) in
  if negb (isNaN nextScale) && gtb nextScale (Fin 0.001)
  then (mul nextScale aspect, nextScale, Fin 1)
  else scale.

(** "Apply Rotation". *)
Definition applyRotation (p : Props) (targetRot : Euler)
           (camera : Vector3) (o : Orientation) : Orientation :=
  match isFocused p, parentGroup p with
  | true, Some parent =>
      let parentWorldQuat := worldQuaternion parent in
      Quat (Quaternion_invert parentWorldQuat)
  | _, _ =>
      let o' := Lerped o targetRot damping in
      if GestureState_eqb (gestureState p) DISPERSED
      then LookAt o' camera
      else o'
  end.

(** One [useFrame] callback; [camera] is [state.camera.position]. *)
Definition useFrame (p : Props) (time : R) (camera : Vector3)
           (st : State) : State :=
  match meshRef st with
  | None => st
  | Some mesh =>
      let '(dest, targetScale, targetRot) := destination p time st in
      let current' := Vector3_lerp (current st) dest damping in
      let scale' := applyScale (aspect st) targetScale (scale mesh) in
      let orientation' :=
        applyRotation p targetRot camera (orientation mesh) in
      let targetOpacity :=
        if negb (visible p) then 0
        else if GestureState_eqb (gestureState p) FOCUSED
                && negb (isFocused p)
             then 0.1
             else 0.9 in
      let opacity' := THREE.lerp (opacity mesh) targetOpacity damping in
      let renderOrder' := if isFocused p then 999%nat else 1%nat in
      mkState current' (aspect st)
              (Some (mkMesh current' scale' orientation' opacity'
                            renderOrder'))
  end.

(** The texture loader's callback: [setAspect(width / height)]. *)
Definition setAspect (a : num) (st : State) : State :=
  mkState (current st) a (meshRef st).

End PhotoFrame.

(** ** src/components/PhotoGallery.tsx: PhotoGallery *)

Module Gallery.
Import THREE Sampler.

Record Targets : Type := mkTargets {
  dispersed : Vector3;
  formed : Vector3
}.

(** [images.map(() => ({ dispersed: randomInSphere(30),
                         formed: randomInHeart(0.6) }))]. *)
Fixpoint generate (urls : list string) (g : RNG) : list Targets * RNG :=
  match urls with
  | [] => ([], g)
  | _ :: rest =>
      let (d, g1) := randomInSphere 30 g in
      let (f, g2) := randomInHeart 0.6 g1 in
      let (ps, g3) := generate rest g2 in
      (mkTargets d f :: ps, g3)
  end.

(** The cell of [useMemo(..., [images])]: the dependency it was computed
    for and the value. *)
Record Memo : Type := mkMemo { deps : nat; value : list Targets }.

Definition useMemo (cell : option Memo) (images : Images) (g : RNG)
  : Memo * RNG :=
  let recompute :=
    let (ps, g') := generate (urls images) g in
    (mkMemo (ref images) ps, g') in
  match cell with
  | None => recompute
  | Some m => if Nat.eqb (deps m) (ref images) then (m, g) else recompute
  end.

Record State : Type := mkState {
  positions : option Memo;
  activeIndex : nat;
  viewCounts : gmap nat nat;
  previousState : GestureState;       (* previousState.current *)
  outerGroup : option Transform;      (* outerGroupRef.current *)
  innerGroup : option Transform       (* innerGroupRef.current *)
}.

Definition positionsOf (st : State) : list Targets :=
  match positions st with
  | Some m => value m
  | None => []
  end.

(** The hooks of the first render:
    [useState(0)], [useState({})], [useRef(gestureState)]. *)
Definition initial (gestureState : GestureState) : State :=
  mkState None 0 ∅ gestureState None None.

(** One render: the [useMemo] is the only hook that computes. *)
Definition render (images : Images) (g : RNG) (st : State) : State * RNG :=
  let (m, g') := useMemo (positions st) images g in
  (mkState (Some m) (activeIndex st) (viewCounts st) (previousState st)
           (outerGroup st) (innerGroup st),
   g').

(** The refs are attached when the two groups are first committed: a
    three.js group starts at the origin, unrotated. *)
Definition attach (st : State) : State :=
  let fresh := mkTransform (mkVector3 0 0 0) (mkEuler 0 0 0) in
  mkState (positions st) (activeIndex st) (viewCounts st)
          (previousState st) (Some fresh) (Some fresh).

Definition isFormed (g : GestureState) : bool :=
  GestureState_eqb g FORMED || GestureState_eqb g ROTATING.

(** The props the render passes to the [i]-th [PhotoFrame]. *)
Definition frameProps (gestureState : GestureState) (visible : bool)
           (parent : option Object3D) (st : State) (i : nat)
  : option PhotoFrame.Props :=
  match nth_error (positionsOf st) i with
  | None => None
  | Some p =>
      Some (PhotoFrame.mkProps
              (if isFormed gestureState then formed p else dispersed p)
              (GestureState_eqb gestureState FOCUSED
               && Nat.eqb i (activeIndex st))
              gestureState parent visible)
  end.

(** 1. OUTER GROUP: Position & Tilt (Parallax) *)
Definition moveOuter (gestureState : GestureState) (handPos : Vector3)
           (g : Transform) : Transform :=
  let targetPos :=
    if isFormed gestureState then mkVector3 0 0 0 else handPos in
  let position' := Vector3_lerp (position g) targetPos 0.1 in
  let targetRotX := - vy handPos * 0.05 in
  let targetRotY := vx handPos * 0.05 in
  mkTransform position'
              (mkEuler (lerp (ex (rotation g)) targetRotX 0.05)
                       (lerp (ey (rotation g)) targetRotY 0.05)
                       (ez (rotation g))).

(** 2. INNER GROUP: Continuous Rotation (V-Sign) *)
Definition spinInner (gestureState : GestureState) (time delta : R)
           (g : Transform) : Transform :=
  let y := ey (rotation g) in
  let y' :=
    if GestureState_eqb gestureState ROTATING then y + delta * 2.0
    else if GestureState_eqb gestureState FORMED
         then lerp y (sin (time * 0.5) * 0.2) 0.05
         else y + delta * 0.1 in
  mkTransform (position g) (mkEuler (ex (rotation g)) y' (ez (rotation g))).

(** One [useFrame] callback of the gallery. *)
Definition useFrame (gestureState : GestureState) (handPos : Vector3)
           (time delta : R) (st : State) : State :=
  mkState (positions st) (activeIndex st) (viewCounts st)
          (previousState st)
          (option_map (moveOuter gestureState handPos) (outerGroup st))
          (option_map (spinInner gestureState time delta) (innerGroup st)).

(** *** Nearest Photo Calculation *)

Definition cameraPos : Vector3 := mkVector3 0 0 30.

(** [score = distance + count * 500] of the photo at [idx]. *)
Definition score (world : Matrix4) (viewCounts : gmap nat nat)
           (localPos : Vector3) (idx : nat) : R :=
  let worldPos := applyMatrix4 localPos world in
  let distance := distanceTo worldPos cameraPos in
  let count := default 0%nat (viewCounts !! idx) in
  distance + INR count * 500.

(** The callback of [sourceLocalPositions.forEach]; the accumulator is
    [(bestIndex, minScore)], with [None] for [Infinity]. *)
Definition visit (world : Matrix4) (viewCounts : gmap nat nat)
           (acc : nat * option R) (entry : nat * Vector3)
  : nat * option R :=
  let (idx, localPos) := entry in
  let s := score world viewCounts localPos idx in
  match snd acc with
  | None => (idx, Some s)
  | Some minScore => if s <? minScore then (idx, Some s) else acc
  end.

Definition nearest (world : Matrix4) (viewCounts : gmap nat nat)
           (sourceLocalPositions : list Vector3) : nat :=
  fst (fold_left (visit world viewCounts)
                 (combine (seq 0 (List.length sourceLocalPositions))
                          sourceLocalPositions)
                 (0%nat, None)).

(** [{ ...prev, [bestIndex]: (prev[bestIndex] || 0) + 1 }]. *)
Definition incrementView (bestIndex : nat) (prev : gmap nat nat)
  : gmap nat nat :=
  <[bestIndex := (default 0 (prev !! bestIndex) + 1)%nat]> prev.

(** One run of the [useEffect].  [world] is the value of
    [innerGroupRef.current.matrixWorld] after [updateMatrixWorld()]. *)
Definition useEffect (gestureState : GestureState) (images : Images)
           (world : Matrix4) (st : State) : State :=
  let st' :=
    if GestureState_eqb gestureState FOCUSED
       && negb (GestureState_eqb (previousState st) FOCUSED)
    then
      if (0 <? List.length (urls images))%nat
         && bool_decide (is_Some (innerGroup st))
      then
        let sourceLocalPositions :=
          if isFormed (previousState st)
          then map formed (positionsOf st)
          else map dispersed (positionsOf st) in
        let bestIndex :=
          nearest world (viewCounts st) sourceLocalPositions in
        mkState (positions st) bestIndex
                (incrementView bestIndex (viewCounts st))
                (previousState st) (outerGroup st) (innerGroup st)
      else st
    else st in
  mkState (positions st') (activeIndex st') (viewCounts st')
          gestureState (outerGroup st') (innerGroup st').

End Gallery.

(** * The vocabulary of the specification, and sample inputs *)

(** ** Gesture classification (specification section 4.2) *)

Section ClassifierSpec.
Import Vision.

(** The landmark of a hand pose by anatomical index. *)
Definition landmark (hand : Hand) (i : nat) : HandLandmark :=
  nth i hand (mkLandmark 0 0 0).

(** The Euclidean distance of two landmarks in the (x, y) plane. *)
Definition distance2D (a b : HandLandmark) : R :=
  sqrt ((lx a - lx b)² + (ly a - ly b)²).

Definition pinch (hand : Hand) : R :=
  distance2D (landmark hand 4) (landmark hand 8).
Definition extension (hand : Hand) (tip : nat) : R :=
  distance2D (landmark hand tip) (landmark hand 0).

Definition focusedCond (hand : Hand) : Prop :=
  pinch hand < 0.06
  /\ (extension hand 12 > 0.2 \/ extension hand 16 > 0.2).

Definition rotatingCond (hand : Hand) : Prop :=
  extension hand 8 > 0.35 /\ extension hand 12 > 0.35
  /\ extension hand 16 < 0.25 /\ extension hand 20 < 0.25
  /\ pinch hand > 0.1.

Definition formedCond (hand : Hand) : Prop :=
  (extension hand 8 + extension hand 12
   + extension hand 16 + extension hand 20) / 4 < 0.25.

(** The cascade of the specification, first match wins. *)
Inductive classifies (hand : Hand) : GestureState -> Prop :=
| classifies_focused :
    focusedCond hand -> classifies hand FOCUSED
| classifies_rotating :
    ~ focusedCond hand -> rotatingCond hand -> classifies hand ROTATING
| classifies_formed :
    ~ focusedCond hand -> ~ rotatingCond hand -> formedCond hand ->
    classifies hand FORMED
| classifies_dispersed :
    ~ focusedCond hand -> ~ rotatingCond hand -> ~ formedCond hand ->
    classifies hand DISPERSED.

(** Two poses that agree on the x and y of every landmark. *)
Definition same_xy (h1 h2 : Hand) : Prop :=
  map (fun l => (lx l, ly l)) h1 = map (fun l => (lx l, ly l)) h2.

(** A pinching hand: thumb tip 0.04 from the index tip, middle finger
    extended by 0.3, the other tips 0.1 from the wrist. *)
Definition pinchPose : Hand :=
  let o := mkLandmark 0 0 0.5 in
  [ mkLandmark 0 0 0; o; o; o;
    mkLandmark 0.14 0 0.1; o; o; o;
    mkLandmark 0.1 0 0.2; o; o; o;
    mkLandmark 0.3 0 0.3; o; o; o;
    mkLandmark 0.1 0 0.4; o; o; o;
    mkLandmark 0.1 0 0.5 ].

(** A hand with the wrist at the origin and the five tips on the x axis,
    at the given abscissas. *)
Definition poseOnAxis (thumb index middle ring pinky : R) : Hand :=
  let o := mkLandmark 0 0 0 in
  [ o; o; o; o;
    mkLandmark thumb 0 0; o; o; o;
    mkLandmark index 0 0; o; o; o;
    mkLandmark middle 0 0; o; o; o;
    mkLandmark ring 0 0; o; o; o;
    mkLandmark pinky 0 0 ].

End ClassifierSpec.

(** ** The geometry samplers *)

Section SamplersSpec.
Import THREE Sampler.

(** The direction [randomInSphere] draws: polar angle [acos (2 v - 1)],
    azimuth [2 PI u]. *)
Definition direction (u v : R) : Vector3 :=
  let theta := 2 * PI * u in
  let phi := acos (2 * v - 1) in
  mkVector3 (sin phi * cos theta) (sin phi * sin theta) (cos phi).

(** A run in which [Math.random()] always returns [c]. *)
Definition constantRNG (c : R) : RNG := mkRNG (fun _ => c) 0.

(** The set of points [randomInHeart scale] can return. *)
Definition heartSupport (scale : R) (p : Vector3) : Prop :=
  exists g : RNG, uniform01 g /\ fst (randomInHeart scale g) = p.

End SamplersSpec.

(** ** Losing the hand *)

Section HandAnchorSpec.
Import Vision THREE Controller.

(** The controller while a hand is tracked away from the centre. *)
Definition trackedState : App.State :=
  App.mkState FORMED (mkImages 0 []) (mkVector3 12 (-7) 0).

End HandAnchorSpec.

(** ** Group placement and parallax tilt *)

Section PlacementSpec.
Import THREE.

(** One step of damped convergence, [x += (target - x) * k]. *)
Definition approach (x target k : R) : R := x + (target - x) * k.

Definition approach3 (p target : Vector3) (k : R) : Vector3 :=
  mkVector3 (approach (vx p) (vx target) k)
            (approach (vy p) (vy target) k)
            (approach (vz p) (vz target) k).

(** The placement the specification asks of a group on one tick. *)
Definition placed (gestureState : GestureState) (anchor : Vector3)
           (g g' : Transform) : Prop :=
  (gestureState = FORMED \/ gestureState = ROTATING ->
   position g' = approach3 (position g) (mkVector3 0 0 0) 0.1)
  /\ (gestureState <> FORMED -> gestureState <> ROTATING ->
      position g' = approach3 (position g) anchor 0.1)
  /\ ex (rotation g') = approach (ex (rotation g)) (- vy anchor * 0.05) 0.05
  /\ ey (rotation g') = approach (ey (rotation g)) (vx anchor * 0.05) 0.05
  /\ ez (rotation g') = ez (rotation g).

(** The gallery once its groups are committed, at rest at the origin. *)
Definition galleryAtRest : Gallery.State :=
  Gallery.attach (Gallery.initial DISPERSED).

End PlacementSpec.

(** ** The focused photo *)

Section FocusedPhotoSpec.
Import THREE.

(** A world matrix built from translations, rotations and scales has
    last row (0, 0, 0, 1). *)
Definition affine (m : Matrix4) : Prop :=
  n41 m = 0 /\ n42 m = 0 /\ n43 m = 0 /\ n44 m = 1.

Definition unit_quaternion (q : Quaternion) : Prop :=
  qx q * qx q + qy q * qy q + qz q * qz q + qw q * qw q = 1.

(** A gallery of one photo whose inner group sits 5 units toward the
    camera. *)
Definition onePhoto : Gallery.State :=
  Gallery.mkState
    (Some (Gallery.mkMemo 0 [Gallery.mkTargets (mkVector3 1 2 3)
                                               (mkVector3 0 1 0)]))
    0 ∅ DISPERSED
    (Some (mkTransform (mkVector3 0 0 0) (mkEuler 0 0 0)))
    (Some (mkTransform (mkVector3 0 0 0) (mkEuler 0 0 0))).

Definition shiftedParent : Object3D :=
  mkObject3D (mkMatrix4 1 0 0 0
                        0 1 0 0
                        0 0 1 5
                        0 0 0 1)
             Quaternion_identity.

Definition focusedProps : PhotoFrame.Props :=
  PhotoFrame.mkProps (mkVector3 1 2 3) true FOCUSED (Some shiftedParent) true.

Definition restingFrame : PhotoFrame.State :=
  PhotoFrame.initial (mkVector3 4 4 4).

End FocusedPhotoSpec.

(** ** Focus selection *)

Section FocusSelectionSpec.
Import THREE Gallery.

(** The pre-focus target of a photo. *)
Definition preFocusTarget (prev : GestureState) (t : Targets) : Vector3 :=
  match prev with
  | FORMED | ROTATING => formed t
  | _ => dispersed t
  end.

(** How many times a photo has been selected so far. *)
Definition viewCount (counts : gmap nat nat) (idx : nat) : nat :=
  default 0%nat (counts !! idx).

(** The score of the specification: world distance of the pre-focus
    target to the camera anchor (0, 0, 30), plus 500 per earlier view. *)
Definition focusScore (world : Matrix4) (counts : gmap nat nat)
           (prev : GestureState) (ps : list Targets) (idx : nat) : R :=
  match nth_error ps idx with
  | Some t =>
      distanceTo (applyMatrix4 (preFocusTarget prev t) world)
                 (mkVector3 0 0 30)
      + 500 * INR (viewCount counts idx)
  | None => 0
  end.

(** [b] is the least-score index of [0 .. n-1], the lowest one among
    equals. *)
Definition first_argmin (f : nat -> R) (n b : nat) : Prop :=
  (b < n)%nat
  /\ (forall j : nat, (j < n)%nat -> f b <= f j)
  /\ (forall j : nat, (j < b)%nat -> f b < f j).

(** The invariant of the [forEach] loop after [k] entries. *)
Definition scanned (f : nat -> R) (k : nat) (acc : nat * option R) : Prop :=
  match snd acc with
  | None => k = 0%nat /\ fst acc = 0%nat
  | Some m => m = f (fst acc) /\ first_argmin f k (fst acc)
  end.

(** Three photos on the camera axis, at world distances 10, 5 and 20
    from the camera anchor; the second one has been viewed once. *)
Definition threeImages : Images := mkImages 1 ["a"; "b"; "c"]%string.

Definition threePhotos (counts : gmap nat nat) : State :=
  mkState
    (Some (mkMemo 1 [mkTargets (mkVector3 0 0 20) (mkVector3 0 1 0);
                     mkTargets (mkVector3 0 0 25) (mkVector3 1 0 0);
                     mkTargets (mkVector3 0 0 10) (mkVector3 0 0 1)]))
    0 counts DISPERSED
    (Some (mkTransform (mkVector3 0 0 0) (mkEuler 0 0 0)))
    (Some (mkTransform (mkVector3 0 0 0) (mkEuler 0 0 0))).

End FocusSelectionSpec.

(** ** Edge-triggered selection *)

Section EdgeTriggerSpec.
Import THREE Gallery.

(** The number of selections recorded so far: the sum of all view
    counts. *)
Definition totalViews (counts : gmap nat nat) : nat :=
  map_fold (fun (_ : nat) (v acc : nat) => (v + acc)%nat) 0%nat counts.

(** What one run of the effect sees. *)
Record EffectInput : Type := mkEffectInput {
  inGesture : GestureState;
  inImages : Images;
  inWorld : Matrix4
}.

Definition runEffect (st : State) (i : EffectInput) : State :=
  useEffect (inGesture i) (inImages i) (inWorld i) st.

Definition runEffects (st : State) (inputs : list EffectInput) : State :=
  fold_left runEffect inputs st.

(** The transitions from a non-FOCUSED state into FOCUSED, with a
    non-empty gallery, along a sequence of effect runs that starts with
    previous state [prev]. *)
Fixpoint risingEdges (prev : GestureState) (inputs : list EffectInput)
  : nat :=
  match inputs with
  | [] => 0
  | i :: rest =>
      (if GestureState_eqb (inGesture i) FOCUSED
          && negb (GestureState_eqb prev FOCUSED)
          && (0 <? List.length (urls (inImages i)))%nat
       then 1 else 0)
      + risingEdges (inGesture i) rest
  end.

(** Pinch, hold the pinch, open the hand, pinch again. *)
Definition pinchTwice : list EffectInput :=
  [ mkEffectInput FOCUSED threeImages identity;
    mkEffectInput FOCUSED threeImages identity;
    mkEffectInput DISPERSED threeImages identity;
    mkEffectInput FOCUSED threeImages identity ].

End EdgeTriggerSpec.

(** ** The scale guard *)

Section ScaleGuardSpec.
Import THREE JSNum.

(** "Non-positive": zero, a negative number or minus infinity. *)
Definition nonpositive (a : num) : Prop :=
  match a with
  | NInf => True
  | Fin r => r <= 0
  | NaN | PInf => False
  end.

(** The y scale of a mesh: the interpolated scale of the photo. *)
Definition scaleY (mesh : PhotoFrame.Mesh) : num :=
  snd (fst (PhotoFrame.scale mesh)).
Definition scaleX (mesh : PhotoFrame.Mesh) : num :=
  fst (fst (PhotoFrame.scale mesh)).

(** The value [nextScale] of a tick. *)
Definition nextScale (p : PhotoFrame.Props) (time : R)
           (st : PhotoFrame.State) (mesh : PhotoFrame.Mesh) : num :=
  lerp (scaleY mesh)
       (Fin (snd (fst (PhotoFrame.destination p time st))))
       (Fin PhotoFrame.damping).

(** The states a photo frame goes through: mounted, then any sequence of
    ticks and texture loads. *)
Inductive reachable : PhotoFrame.State -> Prop :=
| reachable_initial (start : Vector3) :
    reachable (PhotoFrame.initial start)
| reachable_tick (p : PhotoFrame.Props) (time : R) (camera : Vector3)
                 (st : PhotoFrame.State) :
    reachable st -> reachable (PhotoFrame.useFrame p time camera st)
| reachable_aspect (a : num) (st : PhotoFrame.State) :
    reachable st -> reachable (PhotoFrame.setAspect a st).

(** The texture loader's callback on an image of the given size:
    [setAspect(tex.image.width / tex.image.height)]. *)
Definition loadImage (width height : nat) (st : PhotoFrame.State)
  : PhotoFrame.State :=
  PhotoFrame.setAspect (div (Fin (INR width)) (Fin (INR height))) st.

(** A mounted photo whose image has loaded with no width and no
    height. *)
Definition zeroSizeImage : PhotoFrame.State := loadImage 0 0 restingFrame.

End ScaleGuardSpec.

(** ** Target positions *)

Section TargetsSpec.
Import THREE Sampler.

(** What one tick of the particles sees. *)
Record TickInput : Type := mkTickInput {
  tickGesture : GestureState;
  tickAnchor : Vector3;
  tickTime : R;
  tickDelta : R;
  tickRefsReady : bool
}.

Definition runTick (count : nat) (refs : Particles.Refs)
           (st : Particles.Scene * Particles.Store) (i : TickInput)
  : Particles.Scene * Particles.Store :=
  Particles.useFrame count refs (tickGesture i) (tickAnchor i)
                     (tickTime i) (tickDelta i) (tickRefsReady i) st.

Definition runTicks (count : nat) (refs : Particles.Refs)
           (st : Particles.Scene * Particles.Store)
           (inputs : list TickInput)
  : Particles.Scene * Particles.Store :=
  fold_left (runTick count refs) inputs st.

(** The targets of the photo at index [i], as last rendered. *)
Definition photoTargets (st : Gallery.State) (i : nat)
  : option Gallery.Targets :=
  nth_error (Gallery.positionsOf st) i.

(** The gallery rendered for the first time with [images], then again
    after [files] were uploaded; the draws of [Math.random] continue
    from [g]. *)
Definition firstRender (images : Images) (g : RNG) : Gallery.State * RNG :=
  Gallery.render images g (Gallery.initial DISPERSED).

Definition renderAfterUpload (files : list string) (images : Images)
           (g : RNG) : Gallery.State * RNG :=
  let (st1, g1) := firstRender images g in
  Gallery.render (App.appendImages files images) g1 st1.

(** One photo; the draws on hand when photos are rendered. *)
Definition oneImage : Images := mkImages 0 ["a"%string].

Definition uploadDraws : RNG :=
  mkRNG (fun n : nat =>
           match n with
           | 1%nat | 4%nat | 7%nat | 10%nat | 13%nat | 16%nat => 1 / 2
           | 8%nat | 14%nat => 1 / 8
           | _ => 0
           end)
        0.

End TargetsSpec.

(** ** Poses up to a motion of the image plane *)

Section PoseInvarianceSpec.
Import Vision.

(** A map of landmarks that keeps the distance of any two of them in the
    (x, y) plane: a translation, a rotation or a mirror image of the
    hand, with any change of depth. *)
Definition planar_isometry (f : HandLandmark -> HandLandmark) : Prop :=
  forall a b : HandLandmark,
    (lx (f a) - lx (f b)) ^ 2 + (ly (f a) - ly (f b)) ^ 2
    = (lx a - lx b) ^ 2 + (ly a - ly b) ^ 2.

(** The mirror image of a landmark in normalized camera space (the
    preview is shown mirrored), moved by [(dx, dy)]. *)
Definition mirrorShift (dx dy : R) (l : HandLandmark) : HandLandmark :=
  mkLandmark (1 - lx l + dx) (ly l + dy) (- lz l).

End PoseInvarianceSpec.

(** ** Detection cycles and heart-formation cycles *)

Section TrackingSpec.
Import Vision Controller THREE.

(** The gesture states the controller receives over time, run through
    the cycle-tracking effect. *)
Definition runCycle (st : Cycle.State) (gestures : list GestureState)
  : Cycle.State :=
  fold_left (fun s g => Cycle.useEffect g s) gestures st.

(** The entries into FORMED or ROTATING from a state that is neither,
    along a sequence of gesture states that follows [prev]. *)
Fixpoint activations (prev : GestureState) (gestures : list GestureState)
  : nat :=
  match gestures with
  | [] => 0
  | g :: rest =>
      (if Cycle.active g && negb (Cycle.active prev) then 1 else 0)
      + activations g rest
  end.

End TrackingSpec.

(** ** The supports of the samplers and the stream of draws *)

Section SamplerGeometrySpec.
Import THREE Sampler.

(** The box the heart sampler stays in, at a given scale. *)
Definition inHeartBox (scale : R) (p : Vector3) : Prop :=
  Rabs (vx p) <= 16 * scale
  /\ -17 * scale <= vy p <= 13 * scale
  /\ Rabs (vz p) <= 4 * scale.

(** The draws on hand after [k] more calls of [Math.random()]. *)
Definition skip (k : nat) (g : RNG) : RNG := mkRNG (draws g) (cursor g + k).

End SamplerGeometrySpec.

(** ** Damped motion over several frames *)

Section DynamicsSpec.
Import THREE.

(** Where [n] damped steps of factor [k] toward [target] lead from
    [start]: [target + (1 - k)^n (start - target)]. *)
Definition settle (k : R) (n : nat) (start target : R) : R :=
  target + (1 - k) ^ n * (start - target).

Definition settle3 (k : R) (n : nat) (start target : Vector3) : Vector3 :=
  mkVector3 (settle k n (vx start) (vx target))
            (settle k n (vy start) (vy target))
            (settle k n (vz start) (vz target)).

(** The frames of an animation: the elapsed time and the [delta] each
    [useFrame] callback is given. *)
Definition Frame : Type := (R * R)%type.

Definition elapsed (frames : list Frame) : R :=
  fold_right (fun f acc => snd f + acc) 0 frames.

(** The gallery, respectively the particles, animated over [frames]
    while the gesture state and the hand anchor stay the same. *)
Definition galleryTicks (gs : GestureState) (anchor : Vector3)
           (frames : list Frame) (st : Gallery.State) : Gallery.State :=
  fold_left (fun s f => Gallery.useFrame gs anchor (fst f) (snd f) s)
            frames st.

Definition particleTicks (count : nat) (refs : Particles.Refs)
           (gs : GestureState) (anchor : Vector3) (frames : list Frame)
           (st : Particles.Scene * Particles.Store)
  : Particles.Scene * Particles.Store :=
  fold_left (fun s f => Particles.useFrame count refs gs anchor
                                           (fst f) (snd f) true s)
            frames st.

(** The point a group is drawn to in a gesture state. *)
Definition groupTarget (gs : GestureState) (anchor : Vector3) : Vector3 :=
  match gs with
  | FORMED | ROTATING => mkVector3 0 0 0
  | _ => anchor
  end.

(** The angular rate of the inner spin, per unit of [delta]. *)
Definition spinRate (gs : GestureState) : R :=
  match gs with
  | ROTATING => 2
  | _ => 0.1
  end.

(** A group after [n] placements. *)
Definition placedAfter (gs : GestureState) (anchor : Vector3) (n : nat)
           (g g' : Transform) : Prop :=
  position g' = settle3 0.1 n (position g) (groupTarget gs anchor)
  /\ ex (rotation g')
     = settle 0.05 n (ex (rotation g)) (- vy anchor * 0.05)
  /\ ey (rotation g')
     = settle 0.05 n (ey (rotation g)) (vx anchor * 0.05)
  /\ ez (rotation g') = ez (rotation g).

End DynamicsSpec.

(** ** A photo and the particle material over several frames *)

Section PhotoDynamicsSpec.
Import THREE JSNum.

(** What one frame of a photo sees: the props of the latest render, with
    [parentGroupRef.current] as it is read in that frame, the elapsed time
    and the position of the camera. *)
Record PhotoTick : Type := mkPhotoTick {
  photoProps : PhotoFrame.Props;
  photoTime : R;
  photoCamera : Vector3
}.

(** A photo animated over a sequence of frames. *)
Definition photoTicks (frames : list PhotoTick) (st : PhotoFrame.State)
  : PhotoFrame.State :=
  fold_left (fun s f => PhotoFrame.useFrame (photoProps f) (photoTime f)
                                            (photoCamera f) s)
            frames st.

(** The point a photo is drawn to in a frame, where the elapsed time
    plays no part in it: for the focused photo the local image of
    (0, 0, 20) under the parent as read in that frame, for the other
    photos during a focus their target moved back by 40, in the formed
    and rotating heart their target.  A floating photo has none: its
    destination bobs with time. *)
Definition restingPlace (p : PhotoFrame.Props) : option Vector3 :=
  let target := PhotoFrame.targetPos p in
  match PhotoFrame.isFocused p, PhotoFrame.parentGroup p with
  | true, Some parent => Some (worldToLocal parent (mkVector3 0 0 20))
  | _, _ =>
      match PhotoFrame.gestureState p with
      | FOCUSED => Some (mkVector3 (vx target) (vy target) (vz target - 40))
      | FORMED | ROTATING => Some target
      | _ => None
      end
  end.

(** The opacity a photo fades to. *)
Definition opacityGoal (p : PhotoFrame.Props) : R :=
  if PhotoFrame.visible p
  then match PhotoFrame.gestureState p, PhotoFrame.isFocused p with
       | FOCUSED, false => 0.1
       | _, _ => 0.9
       end
  else 0.

(** Three frames of a photo of the heart that is not the focused one:
    formed, then rotating, while its parent group and the camera move. *)
Definition heartFrames : list PhotoTick :=
  [ mkPhotoTick (PhotoFrame.mkProps (mkVector3 1 2 3) false FORMED
                                    (Some shiftedParent) true)
                0 (mkVector3 0 0 30);
    mkPhotoTick (PhotoFrame.mkProps (mkVector3 1 2 3) false FORMED
                                    None true)
                0.016 (mkVector3 0 0 30);
    mkPhotoTick (PhotoFrame.mkProps (mkVector3 1 2 3) false ROTATING
                                    (Some shiftedParent) true)
                0.032 (mkVector3 1 0 30) ].

(** The particle scene as first rendered: group and mesh unrotated at
    the origin, the material opaque ([opacity={1}]). *)
Definition sceneAtMount : Particles.Scene :=
  Particles.mkScene (mkTransform (mkVector3 0 0 0) (mkEuler 0 0 0)) 0 1.

(** The particle scenes an animation goes through. *)
Inductive animated : Particles.Scene -> Prop :=
| animated_mount : animated sceneAtMount
| animated_tick (count : nat) (refs : Particles.Refs) (gs : GestureState)
                (anchor : Vector3) (time delta : R) (ready : bool)
                (sc : Particles.Scene) (s : Particles.Store) :
    animated sc ->
    animated (fst (Particles.useFrame count refs gs anchor time delta ready
                                      (sc, s))).

End PhotoDynamicsSpec.

(** ** The particle loop *)

Section ParticleLoopSpec.
Import THREE Sampler.

(** The buffer the particles are drawn to in a gesture state. *)
Definition targetBufferOf (refs : Particles.Refs) (gs : GestureState)
  : nat :=
  match gs with
  | FORMED | ROTATING | FOCUSED => Particles.heartPositions refs
  | _ => Particles.dispersedPositions refs
  end.

(** One particle at the origin whose heart target is (3, 6, 9). *)
Definition oneParticleRefs : Particles.Refs := Particles.mkRefs 0 1 2 3 4.

Definition oneParticleStore : Particles.Store :=
  Particles.mkStore
    (<[4%nat := [0; 0; 0]]>
       (<[1%nat := [7; 7; 7]]> (<[0%nat := [3; 6; 9]]> ∅)))
    5.

Definition sceneAtOrigin : Particles.Scene :=
  Particles.mkScene (mkTransform (mkVector3 0 0 0) (mkEuler 0 0 0)) 0 0.

End ParticleLoopSpec.

(** ** The buffers at mount *)

Section MountSpec.
Import THREE Sampler.

(** The three consecutive entries of a buffer that hold particle [i]. *)
Definition triple (s : Particles.Store) (ref i : nat) : Vector3 :=
  mkVector3 (Particles.read s ref (i * 3))
            (Particles.read s ref (i * 3 + 1))
            (Particles.read s ref (i * 3 + 2)).

End MountSpec.

(** ** Fair selection *)

Section FairnessSpec.
Import THREE Gallery.

(** The world distance of photo [idx]'s pre-focus target to the camera
    anchor. *)
Definition focusDistance (world : Matrix4) (prev : GestureState)
           (ps : list Targets) (idx : nat) : R :=
  match nth_error ps idx with
  | Some t =>
      distanceTo (applyMatrix4 (preFocusTarget prev t) world)
                 (mkVector3 0 0 30)
  | None => 0
  end.

(** No photo of the first [n] has been viewed two times more than
    another. *)
Definition balanced (counts : gmap nat nat) (n : nat) : Prop :=
  forall i j : nat,
    (i < n)%nat -> (j < n)%nat ->
    (viewCount counts i <= viewCount counts j + 1)%nat.

End FairnessSpec.

(** * Properties *)

(** ** Shared lemmas *)

Lemma Rltb_spec (a b : R) : reflect (a < b) (a <? b).
Proof. unfold Rltb. destruct (Rlt_dec a b); constructor; assumption. Qed.

Lemma Rgtb_spec (a b : R) : reflect (a > b) (a >? b).
Proof. unfold Rgtb. apply Rltb_spec. Qed.

Lemma Rltb_true (a b : R) : a < b -> (a <? b) = true.
Proof. intros H. destruct (Rltb_spec a b); [reflexivity | contradiction]. Qed.

Lemma Rltb_false (a b : R) : ~ a < b -> (a <? b) = false.
Proof. intros H. destruct (Rltb_spec a b); [contradiction | reflexivity]. Qed.

Lemma GestureState_eqb_eq (a b : GestureState) :
  GestureState_eqb a b = true <-> a = b.
Proof. destruct a, b; simpl; split; congruence. Qed.

(** ** The gesture classifier *)

Section Classifier.
Import Vision.

Lemma dist_distance2D (a b : HandLandmark) :
  dist (Some a) (Some b) = Ok (distance2D a b).
Proof. unfold dist, distance2D. now rewrite !Rsqr_pow2. Qed.

Lemma at_index_landmark (hand : Hand) (i : nat) :
  (i < List.length hand)%nat -> at_index hand i = Some (landmark hand i).
Proof.
  intros H. unfold at_index, landmark.
  now apply nth_error_nth'.
Qed.

Lemma detectGesture_present (hand : Hand) (rest : list Hand) :
  List.length hand = 21%nat ->
  exists g, detectGesture (Some (hand :: rest)) = Ok g
            /\ classifies hand g.
Proof.
  intros Hlen. unfold detectGesture.
  rewrite !at_index_landmark by (rewrite Hlen; lia).
  rewrite !dist_distance2D. cbn [bind].
  fold (pinch hand) (extension hand 8) (extension hand 12)
       (extension hand 16) (extension hand 20).
  destruct (Rltb_spec (pinch hand) 0.06) as [Hp | Hp];
    destruct (Rgtb_spec (extension hand 12) 0.2) as [Hm | Hm];
    destruct (Rgtb_spec (extension hand 16) 0.2) as [Hr | Hr]; cbn [andb orb];
    try (eexists; split; [reflexivity | apply classifies_focused;
                          unfold focusedCond; tauto]).
  all: assert (Hnf : ~ focusedCond hand) by (unfold focusedCond; tauto).
  all: destruct (Rgtb_spec (extension hand 8) 0.35);
    destruct (Rgtb_spec (extension hand 12) 0.35);
    destruct (Rltb_spec (extension hand 16) 0.25);
    destruct (Rltb_spec (extension hand 20) 0.25);
    destruct (Rgtb_spec (pinch hand) 0.1); cbn [andb];
    try (eexists; split; [reflexivity | apply classifies_rotating;
                          [assumption | unfold rotatingCond; tauto]]).
  all: assert (Hnr : ~ rotatingCond hand) by (unfold rotatingCond; tauto).
  all: match goal with
       | |- context [?a <? ?b] => destruct (Rltb_spec a b)
       end;
    eexists; (split; [reflexivity |]);
    [apply classifies_formed | apply classifies_dispersed];
    unfold formedCond; assumption.
Qed.

Lemma detectGesture_not_loading (landmarks : option (list Hand)) :
  detectGesture landmarks <> Ok LOADING.
Proof.
  destruct landmarks as [[| hand rest] |]; cbn; try discriminate.
  destruct (dist _ _); cbn; [| discriminate].
  destruct (dist _ _); cbn; [| discriminate].
  destruct (dist _ _); cbn; [| discriminate].
  destruct (dist _ _); cbn; [| discriminate].
  destruct (dist _ _); cbn; [| discriminate].
  repeat match goal with
         | |- context [if ?c then _ else _] => destruct c
         end; discriminate.
Qed.

Lemma classifies_functional (hand : Hand) (g1 g2 : GestureState) :
  classifies hand g1 -> classifies hand g2 -> g1 = g2.
Proof. intros H1 H2. destruct H1; destruct H2; tauto. Qed.

Lemma dist_xy (p1 p2 q1 q2 : option HandLandmark) :
  option_map (fun l => (lx l, ly l)) p1
  = option_map (fun l => (lx l, ly l)) q1 ->
  option_map (fun l => (lx l, ly l)) p2
  = option_map (fun l => (lx l, ly l)) q2 ->
  dist p1 p2 = dist q1 q2.
Proof.
  destruct p1 as [[] |], q1 as [[] |], p2 as [[] |], q2 as [[] |];
    cbn; intros E1 E2; try discriminate; try reflexivity.
  injection E1 as -> ->. injection E2 as -> ->. reflexivity.
Qed.

Lemma at_index_same_xy (h1 h2 : Hand) (i : nat) :
  same_xy h1 h2 ->
  option_map (fun l => (lx l, ly l)) (at_index h1 i)
  = option_map (fun l => (lx l, ly l)) (at_index h2 i).
Proof.
  unfold same_xy, at_index. intros E.
  rewrite <- !nth_error_map. now rewrite E.
Qed.

Lemma detectGesture_same_xy (h1 h2 : Hand) (r1 r2 : list Hand) :
  same_xy h1 h2 ->
  detectGesture (Some (h1 :: r1)) = detectGesture (Some (h2 :: r2)).
Proof.
  intros E. unfold detectGesture.
  rewrite (dist_xy (at_index h1 4) (at_index h1 8)
                   (at_index h2 4) (at_index h2 8))
    by now apply at_index_same_xy.
  rewrite (dist_xy (at_index h1 8) (at_index h1 0)
                   (at_index h2 8) (at_index h2 0))
    by now apply at_index_same_xy.
  rewrite (dist_xy (at_index h1 12) (at_index h1 0)
                   (at_index h2 12) (at_index h2 0))
    by now apply at_index_same_xy.
  rewrite (dist_xy (at_index h1 16) (at_index h1 0)
                   (at_index h2 16) (at_index h2 0))
    by now apply at_index_same_xy.
  rewrite (dist_xy (at_index h1 20) (at_index h1 0)
                   (at_index h2 20) (at_index h2 0))
    by now apply at_index_same_xy.
  reflexivity.
Qed.

(** C1.  For a present hand pose (21 landmarks) the classifier returns,
    without error, exactly the state the first-match-wins cascade FOCUSED,
    ROTATING, FORMED, DISPERSED of the specification selects from the
    2D pinch and extension distances; an absent ([null]) or empty list of
    hands gives DISPERSED; poses that agree on every x and y classify
    alike, whatever their z; and LOADING is returned for no input. *)
Theorem detectGesture_cascade (hand : Hand) (rest : list Hand)
        (Hpose : List.length hand = 21%nat) :
  (forall g : GestureState,
      detectGesture (Some (hand :: rest)) = Ok g <-> classifies hand g)
  /\ (exists g : GestureState, detectGesture (Some (hand :: rest)) = Ok g)
  /\ detectGesture None = Ok DISPERSED
  /\ detectGesture (Some []) = Ok DISPERSED
  /\ (forall (hand' : Hand) (rest' : list Hand),
        same_xy hand hand' ->
        detectGesture (Some (hand' :: rest'))
        = detectGesture (Some (hand :: rest)))
  /\ (forall landmarks : option (list Hand),
        detectGesture landmarks <> Ok LOADING).
Proof.
  destruct (detectGesture_present hand rest Hpose) as (g0 & Hg0 & Hc0).
  repeat split.
  - intros H. rewrite Hg0 in H. injection H as <-. exact Hc0.
  - intros H. rewrite Hg0. f_equal.
    exact (classifies_functional hand g0 g Hc0 H).
  - exists g0. exact Hg0.
  - intros hand' rest' E. symmetry. now apply detectGesture_same_xy.
  - apply detectGesture_not_loading.
Qed.

Lemma distance2D_along_x (a b : HandLandmark) :
  ly a = ly b -> lx b <= lx a -> distance2D a b = lx a - lx b.
Proof.
  intros Ey Hx. unfold distance2D. rewrite Ey.
  replace ((lx a - lx b)² + (ly b - ly b)²) with ((lx a - lx b)²)
    by (unfold Rsqr; ring).
  apply sqrt_Rsqr. lra.
Qed.

Lemma detectGesture_cascade_witness :
  detectGesture (Some [pinchPose]) = Ok FOCUSED.
Proof.
  apply (detectGesture_cascade pinchPose [] eq_refl).
  apply classifies_focused. unfold focusedCond, pinch, extension.
  rewrite !distance2D_along_x by (cbn; lra).
  cbn. lra.
Defined.

Lemma poseOnAxis_measures (thumb index middle ring pinky : R) :
  index <= thumb -> 0 <= index -> 0 <= middle -> 0 <= ring -> 0 <= pinky ->
  let hand := poseOnAxis thumb index middle ring pinky in
  pinch hand = thumb - index
  /\ extension hand 8 = index /\ extension hand 12 = middle
  /\ extension hand 16 = ring /\ extension hand 20 = pinky.
Proof.
  intros. cbn zeta. unfold pinch, extension.
  rewrite !distance2D_along_x by (cbn; lra).
  cbn. repeat split; lra.
Qed.

Lemma detectGesture_classifies (hand : Hand) (rest : list Hand)
      (g : GestureState) :
  List.length hand = 21%nat -> classifies hand g ->
  detectGesture (Some (hand :: rest)) = Ok g.
Proof.
  intros Hlen Hc.
  destruct (detectGesture_present hand rest Hlen) as (g0 & Hg0 & Hc0).
  rewrite Hg0. f_equal. exact (classifies_functional hand g0 g Hc0 Hc).
Qed.

Ltac measure_pose :=
  match goal with
  | |- context [poseOnAxis ?t ?i ?m ?r ?p] =>
      destruct (poseOnAxis_measures t i m r p) as (Hp & Hi & Hm & Hr & Hk);
      try lra;
      unfold focusedCond, rotatingCond, formedCond;
      cbn zeta in Hp, Hi, Hm, Hr, Hk;
      rewrite ?Hp, ?Hi, ?Hm, ?Hr, ?Hk
  end.

(** The sample poses of the specification's section 8. *)
Example detectGesture_vsign :
  detectGesture (Some [poseOnAxis 0.55 0.4 0.4 0.1 0.1]) = Ok ROTATING.
Proof.
  apply (detectGesture_classifies (poseOnAxis 0.55 0.4 0.4 0.1 0.1) [] _ eq_refl).
  apply classifies_rotating; measure_pose; lra.
Qed.

Example detectGesture_fist :
  detectGesture (Some [poseOnAxis 0.17 0.15 0.15 0.15 0.15]) = Ok FORMED.
Proof.
  apply (detectGesture_classifies (poseOnAxis 0.17 0.15 0.15 0.15 0.15) [] _ eq_refl).
  apply classifies_formed; measure_pose; lra.
Qed.

Example detectGesture_open :
  detectGesture (Some [poseOnAxis 0.8 0.5 0.5 0.5 0.5]) = Ok DISPERSED.
Proof.
  apply (detectGesture_classifies (poseOnAxis 0.8 0.5 0.5 0.5 0.5) [] _ eq_refl).
  apply classifies_dispersed; measure_pose; lra.
Qed.

(** A hand entry without its 21 landmarks is not a present pose: reading
    a coordinate of a missing landmark throws. *)
Example detectGesture_short_hand :
  detectGesture (Some [[]]) = TypeError.
Proof. reflexivity. Qed.

End Classifier.

(** ** The geometry samplers *)

Section Samplers.
Import THREE Sampler.

Lemma cbrt_pos (x : R) : 0 < x -> 0 < cbrt x.
Proof.
  intros H. unfold cbrt. destruct (Rlt_dec 0 x); [apply exp_pos | lra].
Qed.

Lemma cbrt_0 : cbrt 0 = 0.
Proof.
  unfold cbrt. destruct (Rlt_dec 0 0); [lra | reflexivity].
Qed.

Lemma cbrt_nonneg (x : R) : 0 <= x -> 0 <= cbrt x.
Proof.
  intros [H | <-]; [left; now apply cbrt_pos | rewrite cbrt_0; lra].
Qed.

Lemma cbrt_lt_1 (x : R) : 0 <= x < 1 -> cbrt x < 1.
Proof.
  intros [H0 H1]. unfold cbrt.
  destruct (Rlt_dec 0 x) as [Hp | Hn];
    [| destruct (Rlt_dec x 0); lra].
  rewrite <- exp_0. apply exp_increasing.
  assert (ln x < 0) by (rewrite <- ln_1; now apply ln_increasing).
  lra.
Qed.

(** [cbrt] is the cube root. *)
Lemma cbrt_cube (x : R) : cbrt x * cbrt x * cbrt x = x.
Proof.
  unfold cbrt.
  destruct (Rlt_dec 0 x) as [Hp | Hnp].
  - rewrite <- !exp_plus.
    replace (ln x / 3 + ln x / 3 + ln x / 3) with (ln x) by field.
    now apply exp_ln.
  - destruct (Rlt_dec x 0) as [Hn | Hnn]; [| lra].
    replace (- exp (ln (- x) / 3) * - exp (ln (- x) / 3)
             * - exp (ln (- x) / 3))
      with (- (exp (ln (- x) / 3) * exp (ln (- x) / 3)
               * exp (ln (- x) / 3))) by ring.
    rewrite <- !exp_plus.
    replace (ln (- x) / 3 + ln (- x) / 3 + ln (- x) / 3)
      with (ln (- x)) by field.
    rewrite exp_ln; lra.
Qed.

Lemma unit_direction (phi theta : R) :
  sin phi * cos theta * (sin phi * cos theta)
  + sin phi * sin theta * (sin phi * sin theta)
  + cos phi * cos phi = 1.
Proof.
  pose proof (sin2_cos2 phi) as Hp. pose proof (sin2_cos2 theta) as Ht.
  unfold Rsqr in Hp, Ht. nra.
Qed.

(** C8.  For a radius >= 0 and draws in [0, 1), the point returned by
    [randomInSphere] is the unit direction of the first two draws scaled
    by [radius * cbrt w], [w] the third (radial) draw; its Euclidean norm
    is [radius * cbrt w] and so at most [radius]. *)
Theorem randomInSphere_norm (radius : R) (g : RNG)
        (Hradius : 0 <= radius) (Hdraws : uniform01 g) :
  let p := fst (randomInSphere radius g) in
  let u := draws g (cursor g) in
  let v := draws g (S (cursor g)) in
  let w := draws g (S (S (cursor g))) in
  Vector3_length (direction u v) = 1
  /\ p = multiplyScalar (direction u v) (radius * cbrt w)
  /\ Vector3_length p = radius * cbrt w
  /\ Vector3_length p <= radius.
Proof.
  cbn zeta.
  set (w := draws g (S (S (cursor g)))).
  assert (Hw : 0 <= cbrt w < 1).
  { split; [apply cbrt_nonneg | apply cbrt_lt_1]; apply Hdraws. }
  assert (Hlen : Vector3_length (fst (randomInSphere radius g))
                 = radius * cbrt w).
  { unfold randomInSphere, random, Vector3_length. cbn.
    fold w.
    set (phi := acos _). set (theta := 2 * PI * _).
    pose proof (unit_direction phi theta) as Hu.
    replace (cbrt w * radius * sin phi * cos theta
             * (cbrt w * radius * sin phi * cos theta)
             + cbrt w * radius * sin phi * sin theta
               * (cbrt w * radius * sin phi * sin theta)
             + cbrt w * radius * cos phi * (cbrt w * radius * cos phi))
      with ((radius * cbrt w) * (radius * cbrt w)
            * (sin phi * cos theta * (sin phi * cos theta)
               + sin phi * sin theta * (sin phi * sin theta)
               + cos phi * cos phi)) by ring.
    rewrite Hu, Rmult_1_r. apply sqrt_square.
    apply Rmult_le_pos; lra. }
  repeat split.
  - unfold Vector3_length, direction. cbn.
    rewrite unit_direction. apply sqrt_1.
  - unfold randomInSphere, random, multiplyScalar, direction. cbn.
    fold w. f_equal; ring.
  - exact Hlen.
  - rewrite Hlen. nra.
Qed.

Lemma randomInSphere_norm_witness :
  Vector3_length (fst (randomInSphere 30 (constantRNG (1 / 8)))) <= 30.
Proof.
  apply (randomInSphere_norm 30 (constantRNG (1 / 8))).
  - lra.
  - intros n. cbn. lra.
Defined.

Lemma randomInHeart_scale (s k : R) (g : RNG) :
  fst (randomInHeart (k * s) g) = multiplyScalar (fst (randomInHeart s g)) k.
Proof.
  unfold randomInHeart, random, multiplyScalar. cbn. f_equal; ring.
Qed.

(** C9.  [randomInHeart] is homogeneous in its scale: for the same draws,
    every coordinate of [randomInHeart s] is [s] times that of
    [randomInHeart 1] (and the same draws are consumed); so the points
    reachable at scale [2 s] are exactly the doubles of those reachable
    at scale [s]. *)
Theorem randomInHeart_homogeneous (s : R) (g : RNG) :
  let p := fst (randomInHeart s g) in
  let p1 := fst (randomInHeart 1 g) in
  vx p = s * vx p1 /\ vy p = s * vy p1 /\ vz p = s * vz p1
  /\ snd (randomInHeart s g) = snd (randomInHeart 1 g)
  /\ (forall q : Vector3,
        heartSupport (2 * s) q
        <-> exists q0 : Vector3,
            heartSupport s q0 /\ q = multiplyScalar q0 2).
Proof.
  cbn zeta. repeat split.
  - unfold randomInHeart, random. cbn. ring.
  - unfold randomInHeart, random. cbn. ring.
  - unfold randomInHeart, random. cbn. ring.
  - intros (g' & Hg' & <-).
    exists (fst (randomInHeart s g')). split.
    + now exists g'.
    + apply randomInHeart_scale.
  - intros (q0 & (g' & Hg' & <-) & ->).
    exists g'. split; [assumption | apply randomInHeart_scale].
Qed.

End Samplers.

(** ** Losing the hand *)

Section HandAnchor.
Import Vision THREE Controller.

(** C10.  When a detection cycle that runs (refs set, video with positive
    size) finds no hand, [predictWebcam] calls [onGestureChange(DISPERSED)]
    and [onHandMove(0.5, 0.5)]; [handleHandMove x y] stores
    ((0.5 - x) * 50, (0.5 - y) * 30, 0), so whatever the anchor was it is
    now the origin, and the next tick of either group moves its position
    toward the origin (to 0.9 of it). *)
Theorem lost_hand_resets_anchor
        (videoWidth videoHeight : nat) (detected : option (list Hand))
        (st : App.State)
        (Hw : (0 < videoWidth)%nat) (Hh : (0 < videoHeight)%nat)
        (Hnone : detected = None \/ detected = Some []) :
  let calls := [onGestureChange DISPERSED; onHandMove 0.5 0.5] in
  let st' := deliverAll st calls in
  predictWebcam true videoWidth videoHeight detected = Ok calls
  /\ (forall (x y : R) (s : App.State),
        App.handPos (App.handleHandMove x y s)
        = mkVector3 ((0.5 - x) * 50) ((0.5 - y) * 30) 0)
  /\ App.handPos st' = mkVector3 0 0 0
  /\ App.gestureState st' = DISPERSED
  /\ (forall g : Transform,
        position (Gallery.moveOuter (App.gestureState st') (App.handPos st') g)
        = multiplyScalar (position g) 0.9)
  /\ (forall g : Transform,
        position (Particles.moveGroup (App.gestureState st')
                                      (App.handPos st') g)
        = multiplyScalar (position g) 0.9).
Proof.
  cbn zeta.
  assert (Hpos : App.handPos
                   (deliverAll st [onGestureChange DISPERSED;
                                   onHandMove 0.5 0.5])
                 = mkVector3 0 0 0).
  { cbn. f_equal; lra. }
  repeat split.
  - unfold predictWebcam. cbn [negb].
    apply Nat.ltb_lt in Hw, Hh. rewrite Hw, Hh. cbn [andb].
    destruct Hnone as [-> | ->]; reflexivity.
  - intros x y s. cbn. f_equal; lra.
  - exact Hpos.
  - intros g. rewrite Hpos. cbn.
    unfold Vector3_lerp, multiplyScalar. cbn. f_equal; lra.
  - intros g. rewrite Hpos. cbn.
    unfold Vector3_lerp, multiplyScalar. cbn. f_equal; lra.
Qed.

Lemma lost_hand_resets_anchor_witness :
  App.handPos
    (deliverAll trackedState [onGestureChange DISPERSED; onHandMove 0.5 0.5])
  = mkVector3 0 0 0.
Proof.
  apply (lost_hand_resets_anchor 640 480 None trackedState).
  - lia.
  - lia.
  - left. reflexivity.
Defined.

End HandAnchor.

(** ** Group placement and parallax tilt *)

Section Placement.
Import THREE.

Lemma lerp_approach (x y t : R) : lerp x y t = approach x y t.
Proof. unfold lerp, approach. ring. Qed.

Lemma moveOuter_placed (gs : GestureState) (anchor : Vector3) (g : Transform) :
  placed gs anchor g (Gallery.moveOuter gs anchor g).
Proof.
  unfold placed, Gallery.moveOuter. cbn [position rotation ex ey ez].
  rewrite !lerp_approach. repeat split.
  - intros [-> | ->]; reflexivity.
  - intros H1 H2. destruct gs; try reflexivity; contradiction.
Qed.

Lemma moveGroup_placed (gs : GestureState) (anchor : Vector3) (g : Transform) :
  placed gs anchor g (Particles.moveGroup gs anchor g).
Proof.
  unfold placed, Particles.moveGroup. cbn [position rotation ex ey ez].
  rewrite !lerp_approach. repeat split.
  - intros [-> | ->]; reflexivity.
  - intros H1 H2. destruct gs; try reflexivity; contradiction.
Qed.

(** C6.  On every tick of the gallery (outer group ref set) and of the
    particles (refs set) the group's position takes one damped step of
    factor 0.1 toward (0,0,0) when the state is FORMED or ROTATING and
    toward the hand anchor in every other state; its rotation x and y take
    one damped step of factor 0.05 toward [- anchor.y * 0.05] and
    [anchor.x * 0.05]; the resulting rotation is the same in every
    gesture state. *)
Theorem tick_places_group
        (gestureState : GestureState) (anchor : Vector3) (time delta : R) :
  (forall (st : Gallery.State) (g : Transform),
      Gallery.outerGroup st = Some g ->
      exists g' : Transform,
        Gallery.outerGroup
          (Gallery.useFrame gestureState anchor time delta st) = Some g'
        /\ placed gestureState anchor g g')
  /\ (forall (count : nat) (refs : Particles.Refs)
             (sc : Particles.Scene) (s : Particles.Store),
         placed gestureState anchor (Particles.group sc)
                (Particles.group
                   (fst (Particles.useFrame count refs gestureState anchor
                                            time delta true (sc, s)))))
  /\ (forall (other : GestureState) (g : Transform),
         rotation (Gallery.moveOuter gestureState anchor g)
         = rotation (Gallery.moveOuter other anchor g)
         /\ rotation (Particles.moveGroup gestureState anchor g)
            = rotation (Particles.moveGroup other anchor g)).
Proof.
  split; [| split].
  - intros st g Hg. exists (Gallery.moveOuter gestureState anchor g).
    split; [| apply moveOuter_placed].
    unfold Gallery.useFrame. cbn. now rewrite Hg.
  - intros count refs sc s. unfold Particles.useFrame. cbn.
    apply moveGroup_placed.
  - intros other g. split; reflexivity.
Qed.

Lemma tick_places_group_witness :
  exists g' : Transform,
    Gallery.outerGroup
      (Gallery.useFrame DISPERSED (mkVector3 10 5 0) 0 0 galleryAtRest)
    = Some g'
    /\ placed DISPERSED (mkVector3 10 5 0)
              (mkTransform (mkVector3 0 0 0) (mkEuler 0 0 0)) g'.
Proof.
  apply (tick_places_group DISPERSED (mkVector3 10 5 0) 0 0).
  reflexivity.
Defined.

End Placement.

(** ** The focused photo *)

Section FocusedPhoto.
Import THREE.

Ltac matrix_fields :=
  cbn [n11 n12 n13 n14 n21 n22 n23 n24 n31 n32 n33 n34 n41 n42 n43 n44
       vx vy vz] in *.

Lemma applyMatrix4_invert_r (m : Matrix4) (p : Vector3) :
  affine m -> det m <> 0 ->
  applyMatrix4 (applyMatrix4 p (invert m)) m = p.
Proof.
  intros (h1 & h2 & h3 & h4) Hd.
  destruct m as [a11 a12 a13 a14 a21 a22 a23 a24
                 a31 a32 a33 a34 a41 a42 a43 a44].
  destruct p as [x y z]. matrix_fields. subst.
  unfold invert. destruct (Req_dec_T _ 0) as [e | ne]; [contradiction |].
  unfold applyMatrix4, det, t11, t12, t13, t14 in *. matrix_fields.
  f_equal; field; intros E; apply ne; (etransitivity; [| exact E]); ring.
Qed.

Lemma applyMatrix4_invert_l (m : Matrix4) (p : Vector3) :
  affine m -> det m <> 0 ->
  applyMatrix4 (applyMatrix4 p m) (invert m) = p.
Proof.
  intros (h1 & h2 & h3 & h4) Hd.
  destruct m as [a11 a12 a13 a14 a21 a22 a23 a24
                 a31 a32 a33 a34 a41 a42 a43 a44].
  destruct p as [x y z]. matrix_fields. subst.
  unfold invert. destruct (Req_dec_T _ 0) as [e | ne]; [contradiction |].
  unfold applyMatrix4, det, t11, t12, t13, t14 in *. matrix_fields.
  f_equal; field; intros E; apply ne; (etransitivity; [| exact E]); ring.
Qed.

Lemma worldToLocal_unique (parent : Object3D) (world q : Vector3) :
  affine (matrixWorld parent) -> det (matrixWorld parent) <> 0 ->
  localToWorld parent q = world <-> q = worldToLocal parent world.
Proof.
  intros Ha Hd. unfold localToWorld, worldToLocal. split.
  - intros <-. symmetry. now apply applyMatrix4_invert_l.
  - intros ->. now apply applyMatrix4_invert_r.
Qed.

Lemma quaternion_invert_cancels (q : Quaternion) :
  unit_quaternion q ->
  multiplyQuaternions q (Quaternion_invert q) = Quaternion_identity.
Proof.
  unfold unit_quaternion, multiplyQuaternions, Quaternion_invert,
    Quaternion_identity.
  destruct q as [x y z w]. cbn. intros H. f_equal; lra || nra.
Qed.

(** C2.  While a photo is the focused one (the gallery renders it with
    state FOCUSED at index [activeIndex], its parent ref set), every tick
    takes as local position target the inverse of the parent's current
    world matrix applied to the world point (0, 0, 20) -- for an affine
    invertible world matrix, the one local point whose world position is
    (0, 0, 20) --, moves [position.current] one damped step of factor 0.08
    toward it and copies it to the mesh, and sets the mesh quaternion to
    the inverse of the parent's current world quaternion, which cancels a
    unit world rotation; (0, 0, 20) is not the camera anchor (0, 0, 30)
    of focus scoring. *)
Theorem focused_photo_placement
        (gallery : Gallery.State) (visible : bool) (parent : Object3D)
        (p : PhotoFrame.Props) (time : R) (camera : Vector3)
        (st : PhotoFrame.State) (mesh : PhotoFrame.Mesh)
        (Hfocused :
           Gallery.frameProps FOCUSED visible (Some parent) gallery
                              (Gallery.activeIndex gallery) = Some p)
        (Hmesh : PhotoFrame.meshRef st = Some mesh) :
  let dest := fst (fst (PhotoFrame.destination p time st)) in
  let st' := PhotoFrame.useFrame p time camera st in
  PhotoFrame.isFocused p = true
  /\ dest = applyMatrix4 (mkVector3 0 0 20) (invert (matrixWorld parent))
  /\ PhotoFrame.current st' = approach3 (PhotoFrame.current st) dest 0.08
  /\ (exists mesh' : PhotoFrame.Mesh,
        PhotoFrame.meshRef st' = Some mesh'
        /\ PhotoFrame.position mesh' = PhotoFrame.current st'
        /\ PhotoFrame.orientation mesh'
           = PhotoFrame.Quat (Quaternion_invert (worldQuaternion parent)))
  /\ (affine (matrixWorld parent) -> det (matrixWorld parent) <> 0 ->
      forall q : Vector3,
        localToWorld parent q = mkVector3 0 0 20 <-> q = dest)
  /\ (unit_quaternion (worldQuaternion parent) ->
      multiplyQuaternions (worldQuaternion parent)
                          (Quaternion_invert (worldQuaternion parent))
      = Quaternion_identity)
  /\ mkVector3 0 0 20 <> Gallery.cameraPos.
Proof.
  cbn zeta.
  unfold Gallery.frameProps in Hfocused.
  destruct (nth_error _ _) as [t |]; [| discriminate].
  injection Hfocused as <-.
  unfold PhotoFrame.useFrame, PhotoFrame.destination,
    PhotoFrame.applyRotation.
  rewrite Hmesh.
  cbn [PhotoFrame.isFocused PhotoFrame.parentGroup PhotoFrame.targetPos
       PhotoFrame.gestureState].
  cbn [GestureState_eqb andb]. rewrite Nat.eqb_refl. cbn [fst snd].
  split; [reflexivity |].
  split; [reflexivity |].
  split; [reflexivity |].
  split.
  { eexists. split; [reflexivity |]. split; reflexivity. }
  split.
  { intros Ha Hd q. now apply worldToLocal_unique. }
  split.
  { apply quaternion_invert_cancels. }
  unfold Gallery.cameraPos. intros E. injection E as E. lra.
Qed.

Lemma focused_photo_placement_witness :
  localToWorld shiftedParent
               (fst (fst (PhotoFrame.destination focusedProps 0 restingFrame)))
  = mkVector3 0 0 20.
Proof.
  apply (focused_photo_placement
           onePhoto true shiftedParent focusedProps 0 (mkVector3 0 0 30)
           restingFrame (PhotoFrame.initialMesh (mkVector3 4 4 4))
           eq_refl eq_refl).
  - unfold affine. cbn. auto.
  - unfold det, t11, t12, t13, t14. cbn. lra.
  - reflexivity.
Defined.

End FocusedPhoto.

(** ** Focus selection *)

Section FocusSelection.
Import THREE Gallery.

Lemma visit_scanned (world : Matrix4) (counts : gmap nat nat)
      (f : nat -> R) (k : nat) (acc : nat * option R) (v : Vector3) :
  f k = score world counts v k ->
  scanned f k acc ->
  scanned f (S k) (visit world counts acc (k, v)).
Proof.
  intros Hf. unfold scanned, visit. destruct acc as [b [m |]]; cbn [fst snd].
  - intros (-> & Hb & Hmin & Hfirst). rewrite <- Hf.
    destruct (Rltb_spec (f k) (f b)) as [Hlt | Hge]; cbn [fst snd].
    + split; [reflexivity |]. repeat split.
      * lia.
      * intros j Hj. destruct (Nat.eq_dec j k) as [-> | Hne]; [lra |].
        specialize (Hmin j ltac:(lia)). lra.
      * intros j Hj. specialize (Hmin j Hj). lra.
    + split; [reflexivity |]. repeat split.
      * lia.
      * intros j Hj. destruct (Nat.eq_dec j k) as [-> | Hne]; [lra |].
        apply Hmin. lia.
      * exact Hfirst.
  - intros (-> & _). rewrite <- Hf. split; [reflexivity |]. repeat split.
    + lia.
    + intros j Hj. replace j with 0%nat by lia. lra.
    + intros j Hj. lia.
Qed.

Lemma fold_visit_scanned (world : Matrix4) (counts : gmap nat nat)
      (f : nat -> R) (l : list Vector3) :
  forall (k : nat) (acc : nat * option R),
    (forall i v, nth_error l i = Some v ->
                 f (k + i)%nat = score world counts v (k + i)) ->
    scanned f k acc ->
    scanned f (k + List.length l)
            (fold_left (visit world counts)
                       (combine (seq k (List.length l)) l) acc).
Proof.
  induction l as [| v l IH]; intros k acc Hf Hacc.
  - cbn. now rewrite Nat.add_0_r.
  - cbn [List.length seq combine fold_left].
    replace (k + S (List.length l))%nat with (S k + List.length l)%nat by lia.
    apply IH.
    + intros i w Hi. replace (S k + i)%nat with (k + S i)%nat by lia.
      now apply Hf.
    + apply visit_scanned; [| exact Hacc].
      specialize (Hf 0%nat v eq_refl). now rewrite Nat.add_0_r in Hf.
Qed.

Lemma nearest_first_argmin (world : Matrix4) (counts : gmap nat nat)
      (src : list Vector3) (f : nat -> R) :
  src <> [] ->
  (forall i v, nth_error src i = Some v -> f i = score world counts v i) ->
  first_argmin f (List.length src) (nearest world counts src).
Proof.
  intros Hne Hf. unfold nearest.
  pose proof (fold_visit_scanned world counts f src 0 (0%nat, None)) as H.
  cbn [Nat.add] in H. specialize (H Hf (conj eq_refl eq_refl)).
  unfold scanned in H.
  destruct (fold_left _ _ _) as [b [m |]]; cbn [fst snd] in *.
  - apply H.
  - destruct H as [H _]. destruct src; [contradiction | discriminate].
Qed.

Lemma source_positions (prev : GestureState) (ps : list Targets) :
  (if isFormed prev then map formed ps else map dispersed ps)
  = map (preFocusTarget prev) ps.
Proof. destruct prev; reflexivity. Qed.

Lemma focusScore_score (world : Matrix4) (counts : gmap nat nat)
      (prev : GestureState) (ps : list Targets) (i : nat) (v : Vector3) :
  nth_error (map (preFocusTarget prev) ps) i = Some v ->
  focusScore world counts prev ps i = score world counts v i.
Proof.
  rewrite nth_error_map. unfold focusScore, score, viewCount, cameraPos.
  destruct (nth_error ps i) as [t |]; cbn; [| discriminate].
  intros [= <-]. ring.
Qed.

Lemma useEffect_edge (images : Images) (world : Matrix4) (st : State) :
  previousState st <> FOCUSED ->
  (0 < List.length (urls images))%nat ->
  is_Some (innerGroup st) ->
  let best := nearest world (viewCounts st)
                      (map (preFocusTarget (previousState st))
                           (positionsOf st)) in
  useEffect FOCUSED images world st
  = mkState (positions st) best (incrementView best (viewCounts st))
            FOCUSED (outerGroup st) (innerGroup st).
Proof.
  intros Hprev Hlen Hinner. cbn zeta. unfold useEffect.
  replace (GestureState_eqb (previousState st) FOCUSED) with false
    by (destruct (previousState st); try reflexivity; contradiction).
  cbn [GestureState_eqb negb andb].
  apply Nat.ltb_lt in Hlen. rewrite Hlen.
  rewrite (bool_decide_eq_true_2 _ Hinner). cbn [andb].
  now rewrite source_positions.
Qed.

Lemma useEffect_level (images : Images) (world : Matrix4) (st : State) :
  previousState st = FOCUSED -> useEffect FOCUSED images world st = st.
Proof.
  intros Hprev. unfold useEffect. rewrite Hprev. cbn.
  destruct st; cbn in *. now subst.
Qed.

Lemma useEffect_previousState (gs : GestureState) (images : Images)
      (world : Matrix4) (st : State) :
  previousState (useEffect gs images world st) = gs.
Proof. reflexivity. Qed.

Lemma incrementView_lookup (best : nat) (counts : gmap nat nat) :
  viewCount (incrementView best counts) best = S (viewCount counts best)
  /\ (forall j : nat, j <> best ->
                      incrementView best counts !! j = counts !! j).
Proof.
  unfold viewCount, incrementView. split.
  - rewrite lookup_insert_eq. cbn. lia.
  - intros j Hj. now rewrite lookup_insert_ne.
Qed.

Lemma useEffect_first_argmin (images : Images) (world : Matrix4)
      (st : State) :
  previousState st <> FOCUSED ->
  (0 < List.length (urls images))%nat ->
  List.length (positionsOf st) = List.length (urls images) ->
  is_Some (innerGroup st) ->
  first_argmin (focusScore world (viewCounts st) (previousState st)
                           (positionsOf st))
               (List.length (urls images))
               (activeIndex (useEffect FOCUSED images world st)).
Proof.
  intros Hedge Hphotos Hrendered Hinner.
  rewrite (useEffect_edge images world st Hedge Hphotos Hinner).
  cbn [activeIndex]. rewrite <- Hrendered.
  rewrite <- (length_map (preFocusTarget (previousState st))
                         (positionsOf st)).
  apply nearest_first_argmin.
  - intros E. apply (f_equal (@List.length _)) in E.
    rewrite length_map in E. cbn in E. lia.
  - intros i v Hv. now apply focusScore_score.
Qed.

(** C3.  On a transition into FOCUSED (previous state not FOCUSED) with at
    least one photo, rendered, and the inner group ref set, the selected
    index minimises, over all photo indices, the world distance of the
    photo's pre-focus target (formed if the previous state was FORMED or
    ROTATING, dispersed otherwise; taken through the inner group's world
    matrix) to (0, 0, 30) plus 500 times its view count; it is the lowest
    index among the minima; its view count grows by exactly one and every
    other view count is unchanged. *)
Theorem focus_selects_argmin
        (images : Images) (world : Matrix4) (st : State)
        (Hedge : previousState st <> FOCUSED)
        (Hphotos : (0 < List.length (urls images))%nat)
        (Hrendered :
           List.length (positionsOf st) = List.length (urls images))
        (Hinner : is_Some (innerGroup st)) :
  let st' := useEffect FOCUSED images world st in
  let best := activeIndex st' in
  first_argmin (focusScore world (viewCounts st) (previousState st)
                           (positionsOf st))
               (List.length (urls images)) best
  /\ viewCount (viewCounts st') best = S (viewCount (viewCounts st) best)
  /\ (forall j : nat, j <> best -> viewCounts st' !! j = viewCounts st !! j).
Proof.
  cbn zeta. split; [now apply useEffect_first_argmin |].
  rewrite (useEffect_edge images world st Hedge Hphotos Hinner).
  cbn [activeIndex viewCounts]. apply incrementView_lookup.
Qed.

Lemma distance_on_axis (z : R) :
  z <= 30 ->
  distanceTo (applyMatrix4 (mkVector3 0 0 z) identity) (mkVector3 0 0 30)
  = 30 - z.
Proof.
  intros Hz. unfold distanceTo, distanceToSquared, applyMatrix4. cbn.
  replace (1 / (0 * 0 + 0 * 0 + 0 * z + 1)) with 1 by field.
  replace ((1 * 0 + 0 * 0 + 0 * z + 0) * 1 - 0) with 0 by ring.
  replace ((0 * 0 + 1 * 0 + 0 * z + 0) * 1 - 0) with 0 by ring.
  replace (0 * 0 + 0 * 0
           + ((0 * 0 + 0 * 0 + 1 * z + 0) * 1 - 30)
             * ((0 * 0 + 0 * 0 + 1 * z + 0) * 1 - 30))
    with ((30 - z) * (30 - z)) by ring.
  apply sqrt_square. lra.
Qed.

Lemma threePhotos_scores (counts : gmap nat nat) :
  let f := focusScore identity counts DISPERSED
                      (positionsOf (threePhotos counts)) in
  f 0%nat = 10 + 500 * INR (viewCount counts 0)
  /\ f 1%nat = 5 + 500 * INR (viewCount counts 1)
  /\ f 2%nat = 20 + 500 * INR (viewCount counts 2).
Proof.
  cbn zeta. unfold focusScore.
  cbn [nth_error positionsOf positions threePhotos value preFocusTarget
       dispersed].
  rewrite !distance_on_axis by lra. repeat split; ring.
Qed.

(** The selection among the three sample photos, from their scores. *)
Lemma threePhotos_choice (counts : gmap nat nat) (best : nat) :
  first_argmin (focusScore identity counts DISPERSED
                           (positionsOf (threePhotos counts)))
               3 best ->
  (viewCount counts 0 = 0%nat -> viewCount counts 1 = 1%nat ->
   viewCount counts 2 = 0%nat -> best = 0%nat)
  /\ (viewCount counts 0 = 1%nat -> viewCount counts 1 = 0%nat ->
      viewCount counts 2 = 0%nat -> best = 1%nat).
Proof.
  intros (Hb & Hmin & Hfirst).
  destruct (threePhotos_scores counts) as (H0 & H1 & H2). cbn zeta in *.
  pose proof (Hmin 0%nat ltac:(lia)) as M0.
  pose proof (Hmin 1%nat ltac:(lia)) as M1.
  pose proof (Hmin 2%nat ltac:(lia)) as M2.
  split; intros C0 C1 C2; rewrite C0, C1, C2 in *; cbn [INR] in *;
    destruct best as [| [| [| n]]]; try reflexivity; try lia;
    rewrite ?H0, ?H1, ?H2 in *; lra.
Qed.

Lemma focus_selects_argmin_witness :
  activeIndex (useEffect FOCUSED threeImages identity
                         (threePhotos {[1%nat := 1%nat]}))
  = 0%nat.
Proof.
  destruct (focus_selects_argmin
              threeImages identity (threePhotos {[1%nat := 1%nat]}))
    as [Hmin _].
  - discriminate.
  - cbn. lia.
  - reflexivity.
  - cbn. eauto.
  - exact (proj1 (threePhotos_choice _ _ Hmin) eq_refl eq_refl eq_refl).
Defined.

(** The second sample of the specification: view counts [1, 0, 0]. *)
Example focus_prefers_unseen :
  activeIndex (useEffect FOCUSED threeImages identity
                         (threePhotos {[0%nat := 1%nat]}))
  = 1%nat.
Proof.
  apply (threePhotos_choice {[0%nat := 1%nat]}).
  - apply useEffect_first_argmin; cbn; eauto; discriminate.
  - reflexivity.
  - reflexivity.
  - reflexivity.
Qed.

End FocusSelection.

(** ** Edge-triggered selection *)

Section EdgeTrigger.
Import THREE Gallery.

Lemma totalViews_incrementView (best : nat) (counts : gmap nat nat) :
  totalViews (incrementView best counts) = S (totalViews counts).
Proof.
  unfold totalViews, incrementView.
  assert (Hcomm : forall (m : gmap nat nat) (j1 j2 z1 z2 y : nat),
             j1 <> j2 -> m !! j1 = Some z1 -> m !! j2 = Some z2 ->
             (z1 + (z2 + y) = z2 + (z1 + y))%nat) by (intros; lia).
  destruct (counts !! best) as [v |] eqn:Hv; cbn [default].
  - rewrite <- (insert_delete_eq counts).
    rewrite (map_fold_insert_L _ _ _ _ (delete best counts))
      by (apply Hcomm || apply lookup_delete_eq).
    rewrite (map_fold_delete_L _ _ best v counts) by (apply Hcomm || exact Hv).
    cbv [Datatypes.id]. lia.
  - rewrite (map_fold_insert_L _ _ _ _ counts)
      by (apply Hcomm || exact Hv).
    lia.
Qed.

Lemma useEffect_innerGroup (gs : GestureState) (images : Images)
      (world : Matrix4) (st : State) :
  innerGroup (useEffect gs images world st) = innerGroup st.
Proof.
  unfold useEffect.
  repeat match goal with
         | |- context [if ?c then _ else _] => destruct c
         end; reflexivity.
Qed.

Lemma useEffect_no_edge (gs : GestureState) (images : Images)
      (world : Matrix4) (st : State) :
  gs <> FOCUSED \/ previousState st = FOCUSED \/ urls images = [] ->
  activeIndex (useEffect gs images world st) = activeIndex st
  /\ viewCounts (useEffect gs images world st) = viewCounts st
  /\ positions (useEffect gs images world st) = positions st.
Proof.
  intros H. unfold useEffect.
  destruct H as [H | [H | H]].
  - replace (GestureState_eqb gs FOCUSED) with false
      by (destruct gs; try reflexivity; contradiction).
    cbn. auto.
  - rewrite H. cbn. rewrite andb_false_r. cbn. auto.
  - rewrite H. cbn [List.length Nat.ltb Nat.leb andb].
    destruct (_ && _)%bool; cbn; auto.
Qed.

Lemma runEffects_views (inputs : list EffectInput) :
  forall st : State,
    is_Some (innerGroup st) ->
    totalViews (viewCounts (runEffects st inputs))
    = (totalViews (viewCounts st)
       + risingEdges (previousState st) inputs)%nat.
Proof.
  induction inputs as [| i rest IH]; intros st Hinner.
  - cbn. lia.
  - cbn [runEffects fold_left risingEdges].
    fold (runEffects (runEffect st i) rest).
    rewrite IH by (unfold runEffect; now rewrite useEffect_innerGroup).
    unfold runEffect at 2. rewrite useEffect_previousState.
    enough (totalViews (viewCounts (runEffect st i))
            = (totalViews (viewCounts st)
               + (if GestureState_eqb (inGesture i) FOCUSED
                     && negb (GestureState_eqb (previousState st) FOCUSED)
                     && (0 <? List.length (urls (inImages i)))%nat
                  then 1 else 0))%nat) by lia.
    unfold runEffect.
    destruct (GestureState_eqb (inGesture i) FOCUSED) eqn:Hg.
    + apply GestureState_eqb_eq in Hg. rewrite Hg.
      destruct (GestureState_eqb (previousState st) FOCUSED) eqn:Hp.
      * apply GestureState_eqb_eq in Hp.
        rewrite useEffect_level by assumption. cbn. lia.
      * destruct (0 <? List.length (urls (inImages i)))%nat eqn:Hl.
        -- rewrite useEffect_edge.
           ++ cbn [viewCounts andb negb].
              rewrite totalViews_incrementView. lia.
           ++ intros E. rewrite E in Hp. discriminate.
           ++ now apply Nat.ltb_lt.
           ++ assumption.
        -- cbn [andb negb].
           destruct (useEffect_no_edge FOCUSED (inImages i) (inWorld i) st)
             as (_ & -> & _); [| lia].
           right. right. destruct (urls (inImages i)); [reflexivity |].
           cbn in Hl. discriminate.
    + cbn [andb].
      destruct (useEffect_no_edge (inGesture i) (inImages i) (inWorld i) st)
        as (_ & -> & _); [| lia].
      left. intros E. rewrite E in Hg. discriminate.
Qed.

(** C4.  Focus selection is edge-triggered (inner group ref set).  A run
    of the effect that sees FOCUSED after a non-FOCUSED state, with
    photos, selects the nearest photo and adds one view; a further run in
    FOCUSED changes nothing; a run in another state, in FOCUSED after
    FOCUSED, or with an empty gallery leaves the selection and the view
    counts as they were; so along any sequence of runs the views recorded
    grow by exactly the number of transitions into FOCUSED that found a
    photo. *)
Theorem focus_selection_edge_triggered
        (images : Images) (world : Matrix4) (st : State)
        (Hinner : is_Some (innerGroup st)) :
  (previousState st <> FOCUSED ->
   (0 < List.length (urls images))%nat ->
   let st' := useEffect FOCUSED images world st in
   activeIndex st'
   = nearest world (viewCounts st)
             (map (preFocusTarget (previousState st)) (positionsOf st))
   /\ viewCounts st' = incrementView (activeIndex st') (viewCounts st)
   /\ totalViews (viewCounts st') = S (totalViews (viewCounts st)))
  /\ (forall (images' : Images) (world' : Matrix4),
         useEffect FOCUSED images' world'
                   (useEffect FOCUSED images world st)
         = useEffect FOCUSED images world st)
  /\ (forall gs : GestureState,
         gs <> FOCUSED \/ previousState st = FOCUSED \/ urls images = [] ->
         activeIndex (useEffect gs images world st) = activeIndex st
         /\ viewCounts (useEffect gs images world st) = viewCounts st)
  /\ (forall inputs : list EffectInput,
         totalViews (viewCounts (runEffects st inputs))
         = (totalViews (viewCounts st)
            + risingEdges (previousState st) inputs)%nat).
Proof.
  split; [| split; [| split]].
  - intros Hprev Hlen. cbn zeta.
    rewrite (useEffect_edge images world st Hprev Hlen Hinner).
    cbn [activeIndex viewCounts].
    split; [reflexivity |]. split; [reflexivity |].
    apply totalViews_incrementView.
  - intros images' world'. now apply useEffect_level.
  - intros gs H.
    destruct (useEffect_no_edge gs images world st H) as (Ha & Hv & _).
    now split.
  - intros inputs. now apply runEffects_views.
Qed.

Lemma focus_selection_edge_triggered_witness :
  totalViews (viewCounts (runEffects (threePhotos ∅) pinchTwice)) = 2%nat.
Proof.
  destruct (focus_selection_edge_triggered
              threeImages identity (threePhotos ∅))
    as (_ & _ & _ & Htrace).
  - cbn. eauto.
  - rewrite Htrace. reflexivity.
Defined.

End EdgeTrigger.

(** ** The scale guard *)

Section ScaleGuard.
Import THREE JSNum.

Lemma guard_rejects (a : num) :
  isNaN a = true \/ nonpositive a ->
  (negb (isNaN a) && gtb a (Fin 0.001))%bool = false.
Proof.
  intros [H | H]; destruct a; cbn in *; try discriminate; try tauto.
  unfold Rgtb. rewrite Rltb_false by lra. reflexivity.
Qed.

Lemma guard_accepts (a : num) :
  (negb (isNaN a) && gtb a (Fin 0.001))%bool = true ->
  a = PInf \/ exists r : R, a = Fin r /\ 0.001 < r.
Proof.
  destruct a; cbn; try discriminate; auto.
  intros H. right. exists r. split; [reflexivity |].
  unfold Rgtb in H. destruct (Rltb_spec 0.001 r); [assumption | discriminate].
Qed.

Lemma applyScale_skips (aspect : num) (targetScale : R)
      (scale : num * num * num) :
  let next := lerp (snd (fst scale)) (Fin targetScale)
                   (Fin PhotoFrame.damping) in
  isNaN next = true \/ nonpositive next ->
  PhotoFrame.applyScale aspect targetScale scale = scale.
Proof.
  cbn zeta. intros H. unfold PhotoFrame.applyScale.
  now rewrite (guard_rejects _ H).
Qed.

Lemma targetScale_range (p : PhotoFrame.Props) (time : R)
      (st : PhotoFrame.State) :
  0.5 <= snd (fst (PhotoFrame.destination p time st)) <= 8.
Proof.
  unfold PhotoFrame.destination.
  destruct (PhotoFrame.isFocused p), (PhotoFrame.parentGroup p);
    repeat match goal with
           | |- context [if ?c then _ else _] => destruct c
           end; cbn; lra.
Qed.

Lemma lerp_finite (r t : R) :
  lerp (Fin r) (Fin t) (Fin PhotoFrame.damping)
  = Fin ((1 + - PhotoFrame.damping) * r + PhotoFrame.damping * t).
Proof. reflexivity. Qed.

Lemma applyScale_range (aspect : num) (t : R) (scale : num * num * num)
      (r : R) :
  0.5 <= t <= 8 -> snd (fst scale) = Fin r -> 0.5 <= r <= 8 ->
  exists r' : R,
    snd (fst (PhotoFrame.applyScale aspect t scale)) = Fin r'
    /\ 0.5 <= r' <= 8.
Proof.
  intros Ht Hy Hr. unfold PhotoFrame.applyScale. rewrite Hy, lerp_finite.
  cbn [isNaN negb andb gtb].
  destruct (_ >? _).
  - eexists. split; [reflexivity |]. unfold PhotoFrame.damping. lra.
  - exists r. split; [assumption | lra].
Qed.

Lemma reachable_scale (st : PhotoFrame.State) :
  reachable st ->
  exists (mesh : PhotoFrame.Mesh) (r : R),
    PhotoFrame.meshRef st = Some mesh
    /\ scaleY mesh = Fin r /\ 0.5 <= r <= 8.
Proof.
  induction 1 as [start | p time camera st Hst IH | a st Hst IH].
  - exists (PhotoFrame.initialMesh start), 1.
    repeat split; cbn; lra.
  - destruct IH as (mesh & r & Hm & Hy & Hr).
    unfold PhotoFrame.useFrame. rewrite Hm.
    pose proof (targetScale_range p time st) as Ht.
    destruct (PhotoFrame.destination p time st) as [[dest t] rot].
    cbn [fst snd] in Ht.
    destruct (applyScale_range (PhotoFrame.aspect st) t
                               (PhotoFrame.scale mesh) r Ht Hy Hr)
      as (r' & Hy' & Hr').
    eexists. exists r'. split; [reflexivity |]. split; [exact Hy' | exact Hr'].
  - destruct IH as (mesh & r & Hm & Hy & Hr).
    exists mesh, r. repeat split; assumption || lra.
Qed.

(** C7, as amended.  On a tick of a mounted photo, if the interpolated
    [nextScale] is NaN or non-positive the mesh scale is left as it was;
    a scale that does change is [(nextScale * aspect, nextScale, 1)] for
    a [nextScale] that is neither; and in every state a photo frame can
    reach, the y scale in force, the interpolated [nextScale] and the y
    scale after the tick are finite positive numbers, and so is the x
    scale after the tick when the image's aspect ratio is one.  The
    aspect ratio itself is not guarded. *)
Theorem scale_update_guarded
        (p : PhotoFrame.Props) (time : R) (camera : Vector3)
        (st : PhotoFrame.State) (mesh : PhotoFrame.Mesh)
        (Hmesh : PhotoFrame.meshRef st = Some mesh) :
  let next := nextScale p time st mesh in
  exists mesh' : PhotoFrame.Mesh,
    PhotoFrame.meshRef (PhotoFrame.useFrame p time camera st) = Some mesh'
    /\ (isNaN next = true \/ nonpositive next ->
        PhotoFrame.scale mesh' = PhotoFrame.scale mesh)
    /\ (PhotoFrame.scale mesh' = PhotoFrame.scale mesh
        \/ PhotoFrame.scale mesh'
           = (mul next (PhotoFrame.aspect st), next, Fin 1)
           /\ isNaN next = false /\ ~ nonpositive next)
    /\ (reachable st ->
        finite_positive (scaleY mesh) /\ finite_positive next
        /\ finite_positive (scaleY mesh')
        /\ (finite_positive (PhotoFrame.aspect st) ->
            finite_positive (scaleX mesh'))).
Proof.
  cbn zeta. unfold nextScale, PhotoFrame.useFrame. rewrite Hmesh.
  pose proof (targetScale_range p time st) as Ht.
  destruct (PhotoFrame.destination p time st) as [[dest t] rot].
  cbn [fst snd] in *.
  eexists. split; [reflexivity |].
  unfold scaleY, scaleX. cbn [PhotoFrame.scale].
  set (next := lerp (snd (fst (PhotoFrame.scale mesh))) (Fin t)
                    (Fin PhotoFrame.damping)).
  split; [| split].
  - intros H. now apply applyScale_skips.
  - unfold PhotoFrame.applyScale. fold next.
    destruct (negb (isNaN next) && gtb next (Fin 0.001))%bool eqn:Hguard;
      [right | left; reflexivity].
    split; [reflexivity |].
    destruct (guard_accepts next Hguard) as [-> | (r & -> & Hr)];
      cbn; split; auto; lra.
  - intros Hreach.
    destruct (reachable_scale st Hreach) as (mesh0 & r & Hm & Hy & Hr).
    rewrite Hmesh in Hm. injection Hm as <-. unfold scaleY in Hy.
    assert (Hnext : next = Fin ((1 + - PhotoFrame.damping) * r
                                + PhotoFrame.damping * t)).
    { unfold next. rewrite Hy. apply lerp_finite. }
    assert (Hpos : 0.001 < (1 + - PhotoFrame.damping) * r
                           + PhotoFrame.damping * t).
    { unfold PhotoFrame.damping. lra. }
    split; [exists r; split; [assumption | lra] |].
    split; [eexists; split; [exact Hnext | lra] |].
    unfold PhotoFrame.applyScale. fold next. rewrite Hnext.
    cbn [isNaN negb andb gtb]. unfold Rgtb. rewrite (Rltb_true _ _ Hpos).
    cbn [fst snd]. split.
    + eexists. split; [reflexivity | lra].
    + intros (a & -> & Ha). cbn [mul]. eexists. split; [reflexivity |].
      apply Rmult_lt_0_compat; lra.
Qed.

Lemma scale_update_guarded_witness :
  finite_positive
    (nextScale focusedProps 0 restingFrame
               (PhotoFrame.initialMesh (mkVector3 4 4 4))).
Proof.
  destruct (scale_update_guarded
              focusedProps 0 (mkVector3 0 0 30) restingFrame
              (PhotoFrame.initialMesh (mkVector3 4 4 4)) eq_refl)
    as (mesh' & _ & _ & _ & Hreach).
  apply Hreach. apply reachable_initial.
Defined.

Lemma div_zero_zero : div (Fin 0) (Fin 0) = NaN.
Proof.
  unfold div. destruct (Req_dec_T 0 0) as [_ | H]; [| now contradiction H].
  destruct (Rlt_dec 0 0) as [H | _]; [lra | reflexivity].
Qed.

(** C7 as stated fails: the guard tests [nextScale] only.  For a photo
    whose image loads with width 0 and height 0 the aspect ratio is
    [0 / 0], and the next tick passes the guard and sets the x scale of
    the mesh to NaN. *)
Lemma zero_size_image_scale :
  reachable zeroSizeImage
  /\ exists mesh' : PhotoFrame.Mesh,
      PhotoFrame.meshRef
        (PhotoFrame.useFrame focusedProps 0 (mkVector3 0 0 30) zeroSizeImage)
      = Some mesh'
      /\ scaleX mesh' = NaN
      /\ ~ finite_positive (scaleX mesh').
Proof.
  assert (Hreach : reachable zeroSizeImage)
    by apply reachable_aspect, reachable_initial.
  split; [exact Hreach |].
  destruct (reachable_scale zeroSizeImage Hreach)
    as (mesh & r & Hm & Hy & Hr).
  unfold PhotoFrame.useFrame. rewrite Hm.
  pose proof (targetScale_range focusedProps 0 zeroSizeImage) as Ht.
  destruct (PhotoFrame.destination focusedProps 0 zeroSizeImage)
    as [[dest t] rot].
  cbn [fst snd] in Ht. eexists. split; [reflexivity |].
  assert (Hpos : 0.001 < (1 + - PhotoFrame.damping) * r
                         + PhotoFrame.damping * t)
    by (unfold PhotoFrame.damping; lra).
  match goal with
  | |- ?x = NaN /\ _ => assert (Hx : x = NaN)
  end.
  { unfold scaleX. cbn [PhotoFrame.scale]. unfold PhotoFrame.applyScale.
    unfold scaleY in Hy. rewrite Hy, lerp_finite.
    cbn [isNaN negb andb gtb]. unfold Rgtb. rewrite (Rltb_true _ _ Hpos).
    cbn [fst]. unfold zeroSizeImage, loadImage.
    cbn [PhotoFrame.aspect PhotoFrame.setAspect INR].
    rewrite div_zero_zero. reflexivity. }
  split; [exact Hx |].
  rewrite Hx. intros (a & Ha & _). discriminate Ha.
Qed.

End ScaleGuard.

(** ** Target positions *)

Section Targets.
Import THREE Sampler.

Lemma write_contents_ne (s : Particles.Store) (ref ref' i : nat) (v : R) :
  ref' <> ref ->
  Particles.contents (Particles.write s ref i v) ref'
  = Particles.contents s ref'.
Proof.
  intros H. unfold Particles.contents, Particles.write. cbn.
  now rewrite lookup_alter_ne.
Qed.

Lemma write_fresh (s : Particles.Store) (ref i : nat) (v : R) :
  Particles.fresh (Particles.write s ref i v) = Particles.fresh s.
Proof. reflexivity. Qed.

Lemma lerpParticle_contents_ne (target cur ref' : nat) (scale time : R)
      (s : Particles.Store) (i : nat) :
  ref' <> cur ->
  Particles.contents (Particles.lerpParticle target cur scale time s i) ref'
  = Particles.contents s ref'.
Proof.
  intros H. unfold Particles.lerpParticle.
  now rewrite !write_contents_ne.
Qed.

Lemma lerp_loop_contents_ne (target cur ref' : nat) (scale time : R)
      (l : list nat) :
  ref' <> cur ->
  forall s : Particles.Store,
    Particles.contents
      (fold_left (Particles.lerpParticle target cur scale time) l s) ref'
    = Particles.contents s ref'.
Proof.
  intros H. induction l as [| i l IH]; intros s; cbn; [reflexivity |].
  rewrite IH. now apply lerpParticle_contents_ne.
Qed.

Lemma useFrame_contents_ne (count : nat) (refs : Particles.Refs)
      (gs : GestureState) (anchor : Vector3) (time delta : R) (ready : bool)
      (st : Particles.Scene * Particles.Store) (ref' : nat) :
  ref' <> Particles.currentPositions refs ->
  Particles.contents
    (snd (Particles.useFrame count refs gs anchor time delta ready st)) ref'
  = Particles.contents (snd st) ref'.
Proof.
  intros H. unfold Particles.useFrame.
  destruct ready; cbn [negb]; [| reflexivity].
  destruct st as [sc s]. cbn [snd].
  now apply lerp_loop_contents_ne.
Qed.

Lemma runTicks_contents_ne (count : nat) (refs : Particles.Refs)
      (inputs : list TickInput) (ref' : nat) :
  ref' <> Particles.currentPositions refs ->
  forall st : Particles.Scene * Particles.Store,
    Particles.contents (snd (runTicks count refs st inputs)) ref'
    = Particles.contents (snd st) ref'.
Proof.
  intros H. induction inputs as [| i inputs IH]; intros st; cbn;
    [reflexivity |].
  fold (runTicks count refs (runTick count refs st i) inputs).
  rewrite IH. unfold runTick. now apply useFrame_contents_ne.
Qed.

Lemma fillOne_fresh (hPos dPos cols phases i : nat)
      (sg : Particles.Store * RNG) :
  Particles.fresh (fst (Particles.fillOne hPos dPos cols phases i sg))
  = Particles.fresh (fst sg).
Proof.
  unfold Particles.fillOne. destruct sg as [s g].
  destruct (randomInHeart 0.6 g) as [h g1].
  destruct (randomInSphere 40 g1) as [d g2].
  destruct (random g2) as [r g3].
  destruct (random g3) as [ph g4].
  reflexivity.
Qed.

Lemma fill_loop_fresh (hPos dPos cols phases : nat) (l : list nat) :
  forall sg : Particles.Store * RNG,
    Particles.fresh
      (fst (fold_left
              (fun sg i => Particles.fillOne hPos dPos cols phases i sg)
              l sg))
    = Particles.fresh (fst sg).
Proof.
  induction l as [| i l IH]; intros sg; cbn; [reflexivity |].
  rewrite IH. apply fillOne_fresh.
Qed.

Lemma mount_refs (count : nat) (s : Particles.Store) (g : RNG) :
  let refs := fst (fst (Particles.mount count s g)) in
  Particles.heartPositions refs = Particles.fresh s
  /\ Particles.dispersedPositions refs = S (Particles.fresh s)
  /\ Particles.currentPositions refs = S (S (S (S (Particles.fresh s)))).
Proof.
  cbn zeta. unfold Particles.mount, Particles.alloc. cbn [Particles.fresh].
  match goal with
  | |- context [fold_left ?f ?l ?a] =>
      pose proof (fill_loop_fresh (Particles.fresh s)
                                  (S (Particles.fresh s))
                                  (S (S (Particles.fresh s)))
                                  (S (S (S (Particles.fresh s))))
                                  l a) as Hf;
      destruct (fold_left f l a) as [s' g']
  end.
  cbn in Hf. cbn. rewrite Hf. auto.
Qed.

Lemma render_same_images (images : Images) (g : RNG) (st : Gallery.State)
      (m : Gallery.Memo) :
  Gallery.positions st = Some m -> Gallery.deps m = ref images ->
  Gallery.render images g st = (st, g).
Proof.
  intros Hm Hd. unfold Gallery.render, Gallery.useMemo.
  rewrite Hm, Hd, Nat.eqb_refl. destruct st; cbn in *. now subst.
Qed.

Lemma render_new_images (images : Images) (g : RNG) (st : Gallery.State)
      (m : Gallery.Memo) :
  Gallery.positions st = Some m -> Gallery.deps m <> ref images ->
  Gallery.positionsOf (fst (Gallery.render images g st))
  = fst (Gallery.generate (urls images) g).
Proof.
  intros Hm Hd. unfold Gallery.render, Gallery.useMemo.
  rewrite Hm. apply Nat.eqb_neq in Hd. rewrite Hd.
  destruct (Gallery.generate (urls images) g) as [ps g']. reflexivity.
Qed.

Lemma gallery_useFrame_positions (gs : GestureState) (anchor : Vector3)
      (time delta : R) (st : Gallery.State) :
  Gallery.positions (Gallery.useFrame gs anchor time delta st)
  = Gallery.positions st.
Proof. reflexivity. Qed.

Lemma gallery_useEffect_positions (gs : GestureState) (images : Images)
      (world : Matrix4) (st : Gallery.State) :
  Gallery.positions (Gallery.useEffect gs images world st)
  = Gallery.positions st.
Proof.
  unfold Gallery.useEffect.
  repeat match goal with
         | |- context [if ?c then _ else _] => destruct c
         end; reflexivity.
Qed.

(** C5 (amended).  The particle target buffers written at mount are
    never written by a tick; the photo targets are kept by a render that
    sees the same images array, and no tick of the gallery and no run of
    the focus effect changes them; a render that sees another images
    array (a photo was added) draws the targets of every photo anew. *)
Theorem targets_fixed_between_uploads :
  (forall (count : nat) (s : Particles.Store) (g : RNG)
          (sc : Particles.Scene) (inputs : list TickInput),
      let refs := fst (fst (Particles.mount count s g)) in
      let s1 := snd (fst (Particles.mount count s g)) in
      let s' := snd (runTicks count refs (sc, s1) inputs) in
      Particles.contents s' (Particles.heartPositions refs)
      = Particles.contents s1 (Particles.heartPositions refs)
      /\ Particles.contents s' (Particles.dispersedPositions refs)
         = Particles.contents s1 (Particles.dispersedPositions refs))
  /\ (forall (images : Images) (g : RNG) (st : Gallery.State)
             (m : Gallery.Memo),
         Gallery.positions st = Some m -> Gallery.deps m = ref images ->
         Gallery.render images g st = (st, g))
  /\ (forall (gs : GestureState) (anchor : Vector3) (time delta : R)
             (images : Images) (world : Matrix4) (st : Gallery.State),
         Gallery.positions (Gallery.useFrame gs anchor time delta st)
         = Gallery.positions st
         /\ Gallery.positions (Gallery.useEffect gs images world st)
            = Gallery.positions st)
  /\ (forall (images : Images) (g : RNG) (st : Gallery.State)
             (m : Gallery.Memo),
         Gallery.positions st = Some m -> Gallery.deps m <> ref images ->
         Gallery.positionsOf (fst (Gallery.render images g st))
         = fst (Gallery.generate (urls images) g)).
Proof.
  split; [| split; [| split]].
  - intros count s g sc inputs. cbn zeta.
    destruct (mount_refs count s g) as (Hh & Hd & Hc).
    split; apply (runTicks_contents_ne count _ inputs); lia.
  - apply render_same_images.
  - intros gs anchor time delta images world st. split.
    + apply gallery_useFrame_positions.
    + apply gallery_useEffect_positions.
  - apply render_new_images.
Qed.

Lemma uploadDraws_uniform : uniform01 uploadDraws.
Proof.
  intros n. cbn.
  do 17 (destruct n as [| n]; [lra |]). lra.
Qed.

Lemma contents_write_eq (s : Particles.Store) (ref i : nat) (v : R) :
  Particles.contents (Particles.write s ref i v) ref
  = <[i := v]> (Particles.contents s ref).
Proof.
  unfold Particles.contents, Particles.write. cbn.
  rewrite lookup_alter_eq. now destruct (Particles.cells s !! ref).
Qed.

Lemma contents_alloc_eq (c : gmap nat (list R)) (k f : nat) (a : list R) :
  Particles.contents (Particles.mkStore (<[k := a]> c) f) k = a.
Proof. unfold Particles.contents. cbn. now rewrite lookup_insert_eq. Qed.

Lemma contents_alloc_ne (c : gmap nat (list R)) (k k' f : nat)
      (a : list R) :
  k' <> k ->
  Particles.contents (Particles.mkStore (<[k := a]> c) f) k'
  = Particles.contents (Particles.mkStore c f) k'.
Proof.
  intros H. unfold Particles.contents. cbn. now rewrite lookup_insert_ne.
Qed.

Lemma contents_cells (s : Particles.Store) (f k : nat) :
  Particles.contents (Particles.mkStore (Particles.cells s) f) k
  = Particles.contents s k.
Proof. reflexivity. Qed.

(** At mount the targets of a particle are written to the two target
    buffers, and [currentPositions] starts as a copy of the dispersed
    one, in a buffer of its own. *)
Lemma mount_one_particle (s : Particles.Store) (g : RNG) :
  let h := fst (randomInHeart 0.6 g) in
  let d := fst (randomInSphere 40 (snd (randomInHeart 0.6 g))) in
  let refs := fst (fst (Particles.mount 1 s g)) in
  let s1 := snd (fst (Particles.mount 1 s g)) in
  Particles.contents s1 (Particles.heartPositions refs) = [vx h; vy h; vz h]
  /\ Particles.contents s1 (Particles.dispersedPositions refs)
     = [vx d; vy d; vz d]
  /\ Particles.contents s1 (Particles.currentPositions refs)
     = [vx d; vy d; vz d]
  /\ Particles.currentPositions refs <> Particles.dispersedPositions refs.
Proof.
  cbn zeta. unfold Particles.mount, Particles.alloc. cbn [seq fold_left].
  unfold Particles.fillOne.
  destruct (randomInHeart 0.6 g) as [h g1]. cbn [fst snd].
  destruct (randomInSphere 40 g1) as [d g2]. cbn [fst snd].
  destruct (random g2) as [r g3]. destruct (random g3) as [ph g4].
  rewrite !write_fresh.
  cbn [Particles.fresh Particles.cells fst snd Particles.heartPositions
       Particles.dispersedPositions Particles.currentPositions
       Nat.mul Nat.add repeat].
  generalize (Particles.fresh s) as n. intros n.
  repeat split.
  - rewrite contents_alloc_ne by lia. rewrite contents_cells.
    rewrite !write_contents_ne by lia.
    rewrite !contents_write_eq.
    rewrite !contents_alloc_ne by lia. rewrite contents_alloc_eq.
    reflexivity.
  - rewrite contents_alloc_ne by lia. rewrite contents_cells.
    rewrite !write_contents_ne by lia.
    rewrite !contents_write_eq.
    rewrite !write_contents_ne by lia.
    rewrite !contents_alloc_ne by lia. rewrite contents_alloc_eq.
    reflexivity.
  - rewrite contents_alloc_eq.
    rewrite !write_contents_ne by lia.
    rewrite !contents_write_eq.
    rewrite !write_contents_ne by lia.
    rewrite !contents_alloc_ne by lia. rewrite contents_alloc_eq.
    reflexivity.
  - lia.
Qed.

Lemma randomInSphere_equator (radius : R) (g : RNG) :
  draws g (cursor g) = 0 -> draws g (S (cursor g)) = 1 / 2 ->
  fst (randomInSphere radius g)
  = mkVector3 (cbrt (draws g (S (S (cursor g)))) * radius) 0 0.
Proof.
  intros Hu Hv. unfold randomInSphere, random. cbn. rewrite Hu, Hv.
  replace (2 * (1 / 2) - 1) with 0 by field.
  replace (2 * PI * 0) with 0 by ring.
  rewrite acos_0, sin_PI2, cos_PI2, cos_0, sin_0. f_equal; ring.
Qed.

Lemma generate_head (u : string) (rest : list string) (g : RNG) :
  nth_error (fst (Gallery.generate (u :: rest) g)) 0
  = Some (Gallery.mkTargets
            (fst (randomInSphere 30 g))
            (fst (randomInHeart 0.6 (snd (randomInSphere 30 g))))).
Proof.
  cbn [Gallery.generate].
  destruct (randomInSphere 30 g) as [d g1]. cbn [fst snd].
  destruct (randomInHeart 0.6 g1) as [f g2].
  destruct (Gallery.generate rest g2) as [ps g3]. reflexivity.
Qed.

Lemma generate_one_rng (u : string) (g : RNG) :
  snd (Gallery.generate [u] g) = mkRNG (draws g) (6 + cursor g).
Proof. reflexivity. Qed.

Lemma firstRender_eq (images : Images) (g : RNG) :
  Gallery.positionsOf (fst (firstRender images g))
  = fst (Gallery.generate (urls images) g)
  /\ snd (firstRender images g) = snd (Gallery.generate (urls images) g).
Proof.
  unfold firstRender, Gallery.render, Gallery.useMemo. cbn.
  destruct (Gallery.generate (urls images) g) as [ps g']. now split.
Qed.

Lemma renderAfterUpload_eq (files : list string) (images : Images)
      (g : RNG) :
  Gallery.positionsOf (fst (renderAfterUpload files images g))
  = fst (Gallery.generate (urls images ++ files)
                          (snd (Gallery.generate (urls images) g))).
Proof.
  unfold renderAfterUpload, firstRender, Gallery.render, Gallery.useMemo.
  cbn [Gallery.positions Gallery.initial].
  destruct (Gallery.generate (urls images) g) as [ps g']. cbn [snd].
  cbn [Gallery.positions Gallery.deps ref App.appendImages urls].
  replace (ref images =? S (ref images))%nat with false
    by (symmetry; apply Nat.eqb_neq; lia).
  destruct (Gallery.generate (urls images ++ files) g') as [ps' g''].
  reflexivity.
Qed.

Lemma upload_targets_values :
  exists t1 t2 : Gallery.Targets,
    photoTargets (fst (firstRender oneImage uploadDraws)) 0 = Some t1
    /\ photoTargets
         (fst (renderAfterUpload ["b"%string] oneImage uploadDraws)) 0
       = Some t2
    /\ Gallery.dispersed t1 = mkVector3 0 0 0
    /\ vx (Gallery.dispersed t2) <> 0.
Proof.
  unfold photoTargets.
  rewrite (proj1 (firstRender_eq oneImage uploadDraws)).
  rewrite renderAfterUpload_eq.
  cbn [urls oneImage app]. rewrite generate_one_rng, !generate_head.
  do 2 eexists. split; [reflexivity |]. split; [reflexivity |].
  cbn [Gallery.dispersed].
  rewrite !randomInSphere_equator by reflexivity.
  cbn [draws cursor uploadDraws Nat.add vx]. split.
  - rewrite cbrt_0. f_equal; ring.
  - pose proof (cbrt_pos (1 / 8)). lra.
Qed.

(** C5 as stated fails: with draws that all lie in [0, 1), uploading
    photo b changes the targets of the photo already in the gallery (its
    dispersed target moves from the origin to a point with a positive
    x). *)
Lemma upload_redraws_targets :
  uniform01 uploadDraws
  /\ photoTargets
       (fst (renderAfterUpload ["b"%string] oneImage uploadDraws)) 0
     <> photoTargets (fst (firstRender oneImage uploadDraws)) 0.
Proof.
  split; [exact uploadDraws_uniform |].
  destruct upload_targets_values as (t1 & t2 & H1 & H2 & Hd1 & Hd2).
  rewrite H1, H2. intros [= ->]. rewrite Hd1 in Hd2. now apply Hd2.
Qed.

End Targets.

(** ** The classifier up to a motion of the image plane *)

Section PoseInvariance.
Import Vision Controller THREE.

Lemma at_index_map (f : HandLandmark -> HandLandmark) (hand : Hand)
      (i : nat) :
  at_index (map f hand) i = option_map f (at_index hand i).
Proof. unfold at_index. apply nth_error_map. Qed.

Lemma dist_isometry (f : HandLandmark -> HandLandmark)
      (p1 p2 : option HandLandmark) :
  planar_isometry f ->
  dist (option_map f p1) (option_map f p2) = dist p1 p2.
Proof.
  intros Hf. destruct p1 as [a |], p2 as [b |]; cbn [option_map dist];
    try reflexivity.
  now rewrite Hf.
Qed.

(** X1. The classifier sees a hand only through distances in the image plane:
    moving every landmark of the first hand by a map that keeps planar
    distances (a shift, a rotation, the mirror image, any change of depth)
    leaves the result of detectGesture unchanged, errors included, and the
    other hands of the list play no part. *)
Theorem detectGesture_isometry
        (f : HandLandmark -> HandLandmark) (hand : Hand)
        (rest rest' : list Hand) (Hf : planar_isometry f) :
  detectGesture (Some (map f hand :: rest'))
  = detectGesture (Some (hand :: rest)).
Proof.
  unfold detectGesture. rewrite !at_index_map.
  now rewrite !(dist_isometry f) by assumption.
Qed.

Lemma mirrorShift_isometry (dx dy : R) : planar_isometry (mirrorShift dx dy).
Proof. intros a b. cbn. ring. Qed.

Lemma detectGesture_isometry_witness :
  detectGesture (Some [map (mirrorShift 0.1 (-0.2)) pinchPose])
  = detectGesture (Some [pinchPose]).
Proof.
  apply (detectGesture_isometry (mirrorShift 0.1 (-0.2)) pinchPose [] []).
  apply mirrorShift_isometry.
Defined.

Lemma focused_excludes_rotating (hand : Hand) :
  focusedCond hand -> ~ rotatingCond hand.
Proof. unfold focusedCond, rotatingCond. lra. Qed.

(** X2. For a hand of 21 landmarks: the FOCUSED condition (pinch distance
    below 0.06, and the middle or the ring tip farther than 0.2 from the
    wrist) and the ROTATING condition (index and middle tips farther than
    0.35, ring and pinky tips nearer than 0.25, pinch distance above 0.1)
    exclude each other through the pinch distance, so the order of the
    first two tests never decides; detectGesture returns FOCUSED exactly
    when the first holds and ROTATING exactly when the second holds; it
    returns FORMED only when the average of the four tip-to-wrist
    distances is below 0.25, and DISPERSED only when it is not. *)
Theorem detectGesture_characterised (hand : Hand) (rest : list Hand)
        (Hpose : List.length hand = 21%nat) :
  (focusedCond hand -> ~ rotatingCond hand)
  /\ (detectGesture (Some (hand :: rest)) = Ok FOCUSED <-> focusedCond hand)
  /\ (detectGesture (Some (hand :: rest)) = Ok ROTATING
      <-> rotatingCond hand)
  /\ (detectGesture (Some (hand :: rest)) = Ok FORMED ->
      formedCond hand)
  /\ (detectGesture (Some (hand :: rest)) = Ok DISPERSED ->
      ~ formedCond hand).
Proof.
  destruct (detectGesture_present hand rest Hpose) as (g & Hg & Hc).
  pose proof (focused_excludes_rotating hand) as Hex.
  rewrite Hg.
  split; [exact Hex |].
  split; [| split; [| split]].
  - split.
    + intros [= ->]. now inversion Hc.
    + intros Hf. f_equal.
      exact (classifies_functional hand g FOCUSED Hc
                                   (classifies_focused hand Hf)).
  - split.
    + intros [= ->]. now inversion Hc.
    + intros Hr. f_equal.
      apply (classifies_functional hand g ROTATING Hc).
      apply classifies_rotating; [| exact Hr].
      intros Hf. exact (Hex Hf Hr).
  - intros [= ->]. now inversion Hc.
  - intros [= ->]. now inversion Hc.
Qed.

Lemma detectGesture_characterised_witness :
  detectGesture (Some [poseOnAxis 0.55 0.4 0.4 0.1 0.1]) = Ok ROTATING.
Proof.
  apply (detectGesture_characterised (poseOnAxis 0.55 0.4 0.4 0.1 0.1) []
                                     eq_refl).
  destruct (poseOnAxis_measures 0.55 0.4 0.4 0.1 0.1)
    as (Hp & Hi & Hm & Hr & Hk); try lra.
  unfold rotatingCond. cbn zeta in *. rewrite Hp, Hi, Hm, Hr, Hk. lra.
Defined.

End PoseInvariance.

(** ** The detection cycle and the heart-formation cycles *)

Section Tracking.
Import Vision Controller THREE.

(** X3. Whenever a detection cycle completes, it made no callback exactly when a
    ref was missing or the video had no size yet; otherwise it made exactly
    one onGestureChange followed by one onHandMove, never with LOADING; and
    delivering its callbacks never changes the images. *)
Theorem predictWebcam_callback_pairs
        (refsReady : bool) (w h : nat) (detected : option (list Hand))
        (cs : list Callback)
        (Hrun : predictWebcam refsReady w h detected = Ok cs) :
  (cs = [] <-> refsReady = false \/ w = 0%nat \/ h = 0%nat)
  /\ (cs <> [] ->
      exists (g : GestureState) (x y : R),
        cs = [onGestureChange g; onHandMove x y] /\ g <> LOADING)
  /\ (forall st : App.State,
         App.images (deliverAll st cs) = App.images st).
Proof.
  unfold predictWebcam in Hrun.
  destruct refsReady; cbn [negb] in Hrun;
    [| injection Hrun as <-; repeat split; auto; contradiction].
  destruct (Nat.ltb_spec 0 w) as [Hw | Hw];
    [| injection Hrun as <-; repeat split; auto; try contradiction;
       intros _; right; left; lia].
  destruct (Nat.ltb_spec 0 h) as [Hh | Hh];
    [| injection Hrun as <-; repeat split; auto; try contradiction;
       intros _; right; right; lia].
  cbn [andb] in Hrun.
  assert (Hpair : exists (g : GestureState) (x y : R),
             cs = [onGestureChange g; onHandMove x y] /\ g <> LOADING).
  { destruct detected as [[| hand rest] |].
    - injection Hrun as <-. exists DISPERSED, 0.5, 0.5.
      split; [reflexivity | discriminate].
    - pose proof (detectGesture_not_loading (Some (hand :: rest))) as Hn.
      destruct (detectGesture (Some (hand :: rest))) as [g |];
        cbn [bind] in Hrun; [| discriminate].
      destruct (at_index hand 0) as [wrist |]; [| discriminate].
      injection Hrun as <-. exists g, (lx wrist), (ly wrist).
      split; [reflexivity | congruence].
    - injection Hrun as <-. exists DISPERSED, 0.5, 0.5.
      split; [reflexivity | discriminate]. }
  destruct Hpair as (g & x & y & -> & Hg).
  split; [| split].
  - split; [discriminate | intros [H | [H | H]]; [discriminate | lia | lia]].
  - intros _. exists g, x, y. split; [reflexivity | exact Hg].
  - intros st. reflexivity.
Qed.

Lemma predictWebcam_callback_pairs_witness :
  exists (g : GestureState) (x y : R),
    [onGestureChange DISPERSED; onHandMove 0.5 0.5]
    = [onGestureChange g; onHandMove x y] /\ g <> LOADING.
Proof.
  refine (proj1 (proj2 (predictWebcam_callback_pairs
                          true 640 480 None
                          [onGestureChange DISPERSED; onHandMove 0.5 0.5]
                          _)) _).
  - reflexivity.
  - discriminate.
Defined.

(** X4. With the refs set, a video of positive size and a first hand of 21
    landmarks, one detection cycle calls onGestureChange with the class of
    that hand, then onHandMove with the wrist (landmark 0) x and y; the
    application then holds that gesture state and the anchor
    ((0.5 - x) * 50, (0.5 - y) * 30, 0), which lies within 25 and 15 of the
    origin for a wrist inside the image, and its images are untouched. *)
Theorem predictWebcam_tracks_wrist
        (w h : nat) (hand : Hand) (rest : list Hand) (st : App.State)
        (Hw : (0 < w)%nat) (Hh : (0 < h)%nat)
        (Hpose : List.length hand = 21%nat) :
  let wrist := landmark hand 0 in
  exists g : GestureState,
    predictWebcam true w h (Some (hand :: rest))
    = Ok [onGestureChange g; onHandMove (lx wrist) (ly wrist)]
    /\ classifies hand g
    /\ App.gestureState
         (deliverAll st [onGestureChange g;
                         onHandMove (lx wrist) (ly wrist)]) = g
    /\ App.handPos
         (deliverAll st [onGestureChange g;
                         onHandMove (lx wrist) (ly wrist)])
       = mkVector3 ((0.5 - lx wrist) * 50) ((0.5 - ly wrist) * 30) 0
    /\ (0 <= lx wrist <= 1 -> 0 <= ly wrist <= 1 ->
        -25 <= (0.5 - lx wrist) * 50 <= 25
        /\ -15 <= (0.5 - ly wrist) * 30 <= 15)
    /\ App.images
         (deliverAll st [onGestureChange g;
                         onHandMove (lx wrist) (ly wrist)])
       = App.images st.
Proof.
  cbn zeta.
  destruct (detectGesture_present hand rest Hpose) as (g & Hg & Hc).
  exists g. split; [| split; [exact Hc | split; [reflexivity |]]].
  - unfold predictWebcam. cbn [negb].
    apply Nat.ltb_lt in Hw, Hh. rewrite Hw, Hh. cbn [andb].
    rewrite Hg. cbn [bind].
    rewrite at_index_landmark by (rewrite Hpose; lia). reflexivity.
  - split; [| split].
    + cbn. f_equal; lra.
    + intros Hx Hy. lra.
    + reflexivity.
Qed.

Lemma predictWebcam_tracks_wrist_witness :
  exists g : GestureState,
    predictWebcam true 640 480 (Some [pinchPose])
    = Ok [onGestureChange g;
          onHandMove (lx (landmark pinchPose 0)) (ly (landmark pinchPose 0))].
Proof.
  destruct (predictWebcam_tracks_wrist 640 480 pinchPose [] trackedState)
    as (g & Hg & _).
  - lia.
  - lia.
  - reflexivity.
  - exists g. exact Hg.
Defined.

Lemma useEffect_cycle_step (g : GestureState) (st : Cycle.State) :
  Cycle.cycleCount (Cycle.useEffect g st)
  = (Cycle.cycleCount st
     + (if Cycle.active g && negb (Cycle.active (Cycle.prevGesture st))
        then 1 else 0))%nat.
Proof.
  unfold Cycle.useEffect. cbn [Cycle.cycleCount].
  destruct (_ && _)%bool; lia.
Qed.

Lemma runCycle_count (gestures : list GestureState) :
  forall st : Cycle.State,
    Cycle.cycleCount (runCycle st gestures)
    = (Cycle.cycleCount st
       + activations (Cycle.prevGesture st) gestures)%nat.
Proof.
  induction gestures as [| g rest IH]; intros st.
  - cbn. lia.
  - cbn [runCycle fold_left activations].
    fold (runCycle (Cycle.useEffect g st) rest).
    rewrite IH, useEffect_cycle_step. cbn [Cycle.useEffect Cycle.prevGesture].
    lia.
Qed.

Lemma activations_while_active (gestures : list GestureState) :
  forall prev : GestureState,
    Forall (fun g => Cycle.active g = true) gestures ->
    (activations prev gestures
     <= if Cycle.active prev then 0 else 1)%nat.
Proof.
  induction gestures as [| g rest IH]; intros prev Hall.
  - cbn. destruct (Cycle.active prev); lia.
  - inversion Hall as [| ? ? Hg Hrest]; subst.
    cbn [activations]. specialize (IH g Hrest). rewrite Hg in *.
    cbn [andb]. destruct (Cycle.active prev); cbn [negb]; lia.
Qed.

(** X5. The cycle counter of the application counts the entries into FORMED or
    ROTATING from a state that is neither: it never decreases, so the
    gallery stays shown once it is (cycleCount >= 2); staying within FORMED
    and ROTATING adds at most one cycle, and none when already active, so
    holding a fist from the start never shows the photos. *)
Theorem cycleCount_counts_activations
        (st : Cycle.State) (gestures : list GestureState) :
  let st' := runCycle st gestures in
  Cycle.cycleCount st'
  = (Cycle.cycleCount st + activations (Cycle.prevGesture st) gestures)%nat
  /\ (Cycle.showPhotos st = true -> Cycle.showPhotos st' = true)
  /\ (Forall (fun g => Cycle.active g = true) gestures ->
      (Cycle.cycleCount st' <= Cycle.cycleCount st + 1)%nat
      /\ (Cycle.active (Cycle.prevGesture st) = true ->
          Cycle.cycleCount st' = Cycle.cycleCount st))
  /\ (forall n : nat,
         Cycle.showPhotos (runCycle Cycle.initial (repeat FORMED n)) = false).
Proof.
  cbn zeta. pose proof (runCycle_count gestures st) as Hc.
  split; [exact Hc |]. split; [| split].
  - unfold Cycle.showPhotos. rewrite Hc.
    intros H. apply Nat.leb_le in H. apply Nat.leb_le. lia.
  - intros Hall.
    pose proof (activations_while_active gestures (Cycle.prevGesture st)
                                         Hall) as Hb.
    rewrite Hc. split.
    + destruct (Cycle.active (Cycle.prevGesture st)); lia.
    + intros Ha. rewrite Ha in Hb. lia.
  - intros n. unfold Cycle.showPhotos. rewrite runCycle_count.
    pose proof (activations_while_active (repeat FORMED n) DISPERSED) as Hb.
    cbn [Cycle.initial Cycle.cycleCount Cycle.prevGesture].
    apply Nat.leb_gt.
    assert (Hall : Forall (fun g => Cycle.active g = true)
                          (repeat FORMED n)).
    { apply List.Forall_forall. intros g Hg.
      apply repeat_spec in Hg. now subst. }
    specialize (Hb Hall). cbn in Hb. lia.
Qed.

End Tracking.

(** ** The geometry of the samplers *)

Section SamplerGeometry.
Import THREE Sampler.

Lemma heart_curve_y (t : R) :
  -17 <= 13 * cos t - 5 * cos (2 * t) - 2 * cos (3 * t) - cos (4 * t) <= 13.
Proof.
  pose proof (COS_bound t) as [Hl Hu].
  pose proof (sin2_cos2 t) as Hs. unfold Rsqr in Hs.
  assert (H2 : cos (2 * t) = 2 * cos t * cos t - 1) by apply cos_2a_cos.
  assert (S2 : sin (2 * t) = 2 * sin t * cos t) by apply sin_2a.
  assert (H3 : cos (3 * t) = 4 * cos t * cos t * cos t - 3 * cos t).
  { replace (3 * t) with (2 * t + t) by ring.
    rewrite cos_plus, H2, S2. nra. }
  assert (H4 : cos (4 * t)
               = 8 * cos t * cos t * cos t * cos t
                 - 8 * cos t * cos t + 1).
  { replace (4 * t) with (2 * (2 * t)) by ring.
    rewrite cos_2a_cos, H2. ring. }
  rewrite H2, H3, H4.
  set (c := cos t) in *.
  pose proof (Rle_0_sqr (c * c + c / 2 - 0.6)) as Q1.
  pose proof (Rle_0_sqr (c - 0.74)) as Q2.
  unfold Rsqr in Q1, Q2.
  assert (Hc2 : c * c <= 1) by nra.
  assert (Hc3 : -1 <= c * c * c <= 1) by nra.
  split.
  - enough (0 <= (c + 1) * (-8 * (c * c * c) - 2 * c + 21)) by nra.
    apply Rmult_le_pos; nra.
  - nra.
Qed.

Lemma scaled_into (a lo hi k : R) :
  lo <= a <= hi -> lo <= 0 -> 0 <= hi -> 0 <= k <= 1 ->
  lo <= a * k <= hi.
Proof. intros [H1 H2] Hlo Hhi [Hk0 Hk1]. split; nra. Qed.

Lemma randomInHeart_in_box (scale : R) (g : RNG) :
  0 <= scale -> uniform01 g ->
  inHeartBox scale (fst (randomInHeart scale g)).
Proof.
  intros Hs Hg. unfold inHeartBox, randomInHeart, random. cbn.
  set (t := draws g (cursor g) * PI * 2).
  set (d2 := draws g (S (cursor g))).
  set (w := draws g (S (S (cursor g)))).
  assert (Hw : 0 <= cbrt w <= 1).
  { split; [apply cbrt_nonneg | left; apply cbrt_lt_1]; apply Hg. }
  assert (Hd2 : 0 <= d2 < 1) by apply Hg.
  pose proof (SIN_bound t) as [Sl Su].
  pose proof (heart_curve_y t) as Hy.
  assert (Hx : -16 <= 16 * (sin t * (sin t * (sin t * 1))) <= 16).
  { assert (sin t * sin t <= 1) by nra.
    assert (-1 <= sin t * sin t * sin t <= 1) by nra. lra. }
  assert (Hz : -4 <= (d2 - 0.5) * 8 <= 4) by lra.
  pose proof (scaled_into _ _ _ (cbrt w) Hx ltac:(lra) ltac:(lra) Hw) as Hx'.
  pose proof (scaled_into _ _ _ (cbrt w) Hy ltac:(lra) ltac:(lra) Hw) as Hy'.
  pose proof (scaled_into _ _ _ (cbrt w) Hz ltac:(lra) ltac:(lra) Hw) as Hz'.
  repeat split; try apply Rabs_le; try split; nra.
Qed.

Lemma randomInSphere_length (radius : R) (g : RNG) :
  0 <= radius -> uniform01 g ->
  Vector3_length (fst (randomInSphere radius g))
  = radius * cbrt (draws g (S (S (cursor g)))).
Proof.
  intros Hr Hg.
  set (w := draws g (S (S (cursor g)))).
  assert (Hw : 0 <= cbrt w) by (apply cbrt_nonneg; apply Hg).
  unfold randomInSphere, random, Vector3_length. cbn. fold w.
  set (phi := acos _). set (theta := 2 * PI * _).
  pose proof (unit_direction phi theta) as Hu.
  replace (cbrt w * radius * sin phi * cos theta
           * (cbrt w * radius * sin phi * cos theta)
           + cbrt w * radius * sin phi * sin theta
             * (cbrt w * radius * sin phi * sin theta)
           + cbrt w * radius * cos phi * (cbrt w * radius * cos phi))
    with ((radius * cbrt w) * (radius * cbrt w)
          * (sin phi * cos theta * (sin phi * cos theta)
             + sin phi * sin theta * (sin phi * sin theta)
             + cos phi * cos phi)) by ring.
  rewrite Hu, Rmult_1_r. apply sqrt_square. apply Rmult_le_pos; lra.
Qed.

(** X6. For a non-negative radius and draws in [0, 1): the cube of the distance
    of randomInSphere from the centre is radius^3 times the third draw
    (uniform in volume), its height is the distance times (2v - 1) for the
    second draw v (uniform on the axis), its horizontal part has the square
    length distance^2 * 4v(1 - v), and the call consumes exactly three
    draws. *)
Theorem randomInSphere_uniform_volume (radius : R) (g : RNG)
        (Hradius : 0 <= radius) (Hdraws : uniform01 g) :
  let p := fst (randomInSphere radius g) in
  let v := draws g (S (cursor g)) in
  let w := draws g (S (S (cursor g))) in
  Vector3_length p ^ 3 = radius ^ 3 * w
  /\ vz p = Vector3_length p * (2 * v - 1)
  /\ vx p * vx p + vy p * vy p
     = Vector3_length p ^ 2 * (4 * v * (1 - v))
  /\ snd (randomInSphere radius g) = mkRNG (draws g) (cursor g + 3).
Proof.
  cbn zeta. rewrite (randomInSphere_length radius g Hradius Hdraws).
  set (v := draws g (S (cursor g))).
  set (w := draws g (S (S (cursor g)))).
  assert (Hv : -1 <= 2 * v - 1 <= 1).
  { pose proof (Hdraws (S (cursor g))) as H. fold v in H. lra. }
  pose proof (cbrt_cube w) as Hc.
  split; [| split; [| split]].
  - replace ((radius * cbrt w) ^ 3)
      with (radius ^ 3 * (cbrt w * cbrt w * cbrt w)) by ring.
    now rewrite Hc.
  - unfold randomInSphere, random. cbn. fold v w.
    rewrite (cos_acos _ Hv). ring.
  - unfold randomInSphere, random. cbn. fold v w.
    set (phi := acos (2 * v - 1)). set (theta := 2 * PI * _).
    pose proof (sin2_cos2 theta) as Ht. unfold Rsqr in Ht.
    pose proof (sin2_cos2 phi) as Hp. unfold Rsqr in Hp.
    assert (Hcos : cos phi = 2 * v - 1) by (apply cos_acos; exact Hv).
    assert (Hsin : sin phi * sin phi = 4 * v * (1 - v)).
    { rewrite Hcos in Hp. nra. }
    replace (cbrt w * radius * sin phi * cos theta
             * (cbrt w * radius * sin phi * cos theta)
             + cbrt w * radius * sin phi * sin theta
               * (cbrt w * radius * sin phi * sin theta))
      with ((radius * cbrt w) ^ 2 * (sin phi * sin phi)
            * (sin theta * sin theta + cos theta * cos theta)) by ring.
    rewrite Ht, Hsin. ring.
  - unfold randomInSphere, random. cbn. f_equal. lia.
Qed.

Lemma randomInSphere_uniform_volume_witness :
  Vector3_length (fst (randomInSphere 30 (constantRNG (1 / 8)))) ^ 3
  = 30 ^ 3 * (1 / 8).
Proof.
  apply (randomInSphere_uniform_volume 30 (constantRNG (1 / 8))).
  - lra.
  - intros n. cbn. lra.
Defined.

(** X7. For a non-negative scale and draws in [0, 1) the point of randomInHeart
    lies in the box |x| <= 16 scale, -17 scale <= y <= 13 scale,
    |z| <= 4 scale; the call consumes exactly three draws; and when the
    third draw is 0 the point is the origin. *)
Theorem randomInHeart_bounding_box (scale : R) (g : RNG)
        (Hscale : 0 <= scale) (Hdraws : uniform01 g) :
  inHeartBox scale (fst (randomInHeart scale g))
  /\ snd (randomInHeart scale g) = mkRNG (draws g) (cursor g + 3)
  /\ (draws g (S (S (cursor g))) = 0 ->
      fst (randomInHeart scale g) = mkVector3 0 0 0).
Proof.
  split; [now apply randomInHeart_in_box |]. split.
  - unfold randomInHeart, random. cbn. f_equal. lia.
  - intros H0. unfold randomInHeart, random, multiplyScalar. cbn.
    rewrite H0, cbrt_0. f_equal; ring.
Qed.

Lemma randomInHeart_bounding_box_witness :
  inHeartBox 0.6 (fst (randomInHeart 0.6 (constantRNG (1 / 8)))).
Proof.
  apply (randomInHeart_bounding_box 0.6 (constantRNG (1 / 8))).
  - lra.
  - intros n. cbn. lra.
Defined.

End SamplerGeometry.

(** ** The targets of the photos *)

Section PhotoTargets.
Import THREE Sampler.

Lemma skip_uniform (k : nat) (g : RNG) : uniform01 g -> uniform01 (skip k g).
Proof. intros H n. apply H. Qed.

Lemma skip_0 (g : RNG) : skip 0 g = g.
Proof. unfold skip. destruct g. cbn. f_equal. lia. Qed.

Lemma skip_skip (a b : nat) (g : RNG) : skip a (skip b g) = skip (b + a) g.
Proof. unfold skip. cbn [draws cursor]. f_equal. lia. Qed.

Lemma randomInSphere_inside (radius : R) (g : RNG) :
  0 <= radius -> uniform01 g ->
  Vector3_length (fst (randomInSphere radius g)) <= radius.
Proof.
  intros Hr Hg. rewrite randomInSphere_length by assumption.
  pose proof (cbrt_lt_1 _ (Hg (S (S (cursor g))))).
  pose proof (cbrt_nonneg _ (proj1 (Hg (S (S (cursor g)))))). nra.
Qed.

Lemma generate_spec (urls : list string) :
  forall g : RNG,
    List.length (fst (Gallery.generate urls g)) = List.length urls
    /\ snd (Gallery.generate urls g) = skip (6 * List.length urls) g
    /\ (forall (i : nat) (t : Gallery.Targets),
           nth_error (fst (Gallery.generate urls g)) i = Some t ->
           t = Gallery.mkTargets
                 (fst (randomInSphere 30 (skip (6 * i) g)))
                 (fst (randomInHeart 0.6 (skip (6 * i + 3) g)))).
Proof.
  induction urls as [| u rest IH]; intros g.
  - cbn. split; [reflexivity |]. split.
    + unfold skip. destruct g. cbn. f_equal. lia.
    + intros [| i] t H; discriminate.
  - cbn [Gallery.generate].
    destruct (randomInSphere 30 g) as [d g1] eqn:Ed.
    destruct (randomInHeart 0.6 g1) as [f g2] eqn:Ef.
    assert (Hg1 : g1 = skip 3 g).
    { change g1 with (snd (d, g1)). rewrite <- Ed.
      unfold randomInSphere, random, skip. cbn. f_equal. lia. }
    assert (Hg2 : g2 = skip 6 g).
    { change g2 with (snd (f, g2)). rewrite <- Ef, Hg1.
      unfold randomInHeart, random, skip. cbn. f_equal. lia. }
    specialize (IH g2). destruct (Gallery.generate rest g2) as [ps g3].
    destruct IH as (Hlen & Hrng & Hnth). cbn [fst snd] in *.
    split; [cbn; now rewrite Hlen |]. split.
    + rewrite Hrng, Hg2. unfold skip. cbn [draws cursor List.length].
      f_equal. lia.
    + intros [| i] t H.
      * cbn in H. injection H as <-.
        change (6 * 0)%nat with 0%nat. change (0 + 3)%nat with 3%nat.
        now rewrite skip_0, <- Hg1, Ed, Ef.
      * cbn in H. rewrite (Hnth i t H), Hg2, !skip_skip.
        replace (6 * S i)%nat with (6 + 6 * i)%nat by lia.
        replace (6 + 6 * i + 3)%nat with (6 + (6 * i + 3))%nat by lia.
        reflexivity.
Qed.

(** X8. The positions memo holds one pair of targets per image, in order: the
    pair of image i is randomInSphere(30) on draws 6i .. 6i+2 and
    randomInHeart(0.6) on draws 6i+3 .. 6i+5, so six draws are consumed
    per image; every dispersed target lies within 30 of the origin and
    every formed target in the heart box of scale 0.6. *)
Theorem generate_one_pair_per_image (urls : list string) (g : RNG)
        (Hdraws : uniform01 g) :
  let ps := fst (Gallery.generate urls g) in
  List.length ps = List.length urls
  /\ snd (Gallery.generate urls g) = skip (6 * List.length urls) g
  /\ (forall (i : nat) (t : Gallery.Targets),
         nth_error ps i = Some t ->
         t = Gallery.mkTargets
               (fst (randomInSphere 30 (skip (6 * i) g)))
               (fst (randomInHeart 0.6 (skip (6 * i + 3) g)))
         /\ Vector3_length (Gallery.dispersed t) <= 30
         /\ inHeartBox 0.6 (Gallery.formed t)).
Proof.
  cbn zeta. destruct (generate_spec urls g) as (Hlen & Hrng & Hnth).
  split; [exact Hlen |]. split; [exact Hrng |].
  intros i t Hi. specialize (Hnth i t Hi). split; [exact Hnth |].
  rewrite Hnth. cbn [Gallery.dispersed Gallery.formed]. split.
  - apply randomInSphere_inside; [lra | now apply skip_uniform].
  - apply randomInHeart_in_box; [lra | now apply skip_uniform].
Qed.

Lemma generate_one_pair_per_image_witness :
  List.length
    (fst (Gallery.generate ["a"; "b"; "c"]%string (constantRNG (1 / 8))))
  = 3%nat.
Proof.
  apply (generate_one_pair_per_image ["a"; "b"; "c"]%string
                                     (constantRNG (1 / 8))).
  intros n. cbn. lra.
Defined.

End PhotoTargets.

(** ** The groups over several frames *)

Section Dynamics.
Import THREE.

Lemma Rabs_le_between (a b : R) : Rabs a <= b <-> - b <= a <= b.
Proof. unfold Rabs. destruct (Rcase_abs a); lra. Qed.

Lemma settle_0 (k start target : R) : settle k 0 start target = start.
Proof. unfold settle. cbn. ring. Qed.

Lemma settle_S (k : R) (n : nat) (start target : R) :
  settle k (S n) start target
  = approach (settle k n start target) target k.
Proof. unfold settle, approach. cbn [pow]. ring. Qed.

Lemma settle_step_first (k : R) (n : nat) (start target : R) :
  settle k (S n) start target
  = settle k n (approach start target k) target.
Proof. unfold settle, approach. cbn [pow]. ring. Qed.

(** Damped steps of a factor in (0, 1) come as close to the target as
    wanted. *)
Lemma settle_converges (k start target eps : R) :
  0 < k < 1 -> 0 < eps ->
  exists N : nat, forall n : nat,
      (N <= n)%nat -> Rabs (settle k n start target - target) < eps.
Proof.
  intros Hk Heps.
  destruct (Req_dec (start - target) 0) as [E0 | Hne].
  - exists 0%nat. intros n _. unfold settle. rewrite E0, Rmult_0_r.
    replace (target + 0 - target) with 0 by ring. rewrite Rabs_R0. lra.
  - assert (Hd : 0 < Rabs (start - target)) by now apply Rabs_pos_lt.
    assert (Hy : 0 < eps / Rabs (start - target))
      by now apply Rdiv_lt_0_compat.
    destruct (pow_lt_1_zero (1 - k)) with (y := eps / Rabs (start - target))
      as [N HN].
    + rewrite Rabs_pos_eq; lra.
    + exact Hy.
    + exists N. intros n Hn. unfold settle.
      replace (target + (1 - k) ^ n * (start - target) - target)
        with ((1 - k) ^ n * (start - target)) by ring.
      rewrite Rabs_mult.
      specialize (HN n ltac:(lia)).
      apply (Rmult_lt_compat_r _ _ _ Hd) in HN.
      replace (eps / Rabs (start - target) * Rabs (start - target))
        with eps in HN by (field; lra).
      exact HN.
Qed.

Lemma settle_no_overshoot (k : R) (n : nat) (start target : R) :
  0 < k < 1 ->
  Rabs (settle k n start target - target) <= Rabs (start - target).
Proof.
  intros Hk. unfold settle.
  replace (target + (1 - k) ^ n * (start - target) - target)
    with ((1 - k) ^ n * (start - target)) by ring.
  rewrite Rabs_mult.
  assert (H1 : 0 <= (1 - k) ^ n <= 1).
  { split; [apply pow_le; lra |].
    apply Rle_trans with (1 ^ n); [apply pow_incr; lra |].
    rewrite pow1. lra. }
  rewrite (Rabs_pos_eq _ (proj1 H1)).
  rewrite <- (Rmult_1_l (Rabs (start - target))) at 2.
  apply Rmult_le_compat_r; [apply Rabs_pos | apply H1].
Qed.

Lemma groupTarget_moveOuter (gs : GestureState) (anchor : Vector3)
      (g : Transform) :
  position (Gallery.moveOuter gs anchor g)
  = approach3 (position g) (groupTarget gs anchor) 0.1.
Proof. destruct gs; reflexivity. Qed.

Lemma groupTarget_moveGroup (gs : GestureState) (anchor : Vector3)
      (g : Transform) :
  position (Particles.moveGroup gs anchor g)
  = approach3 (position g) (groupTarget gs anchor) 0.1.
Proof. destruct gs; reflexivity. Qed.

Lemma placedAfter_0 (gs : GestureState) (anchor : Vector3) (g : Transform) :
  placedAfter gs anchor 0 g g.
Proof.
  unfold placedAfter, settle3. rewrite !settle_0.
  destruct g as [[x y z] r]. repeat split.
Qed.

Lemma placedAfter_S (gs : GestureState) (anchor : Vector3) (n : nat)
      (g g1 g' : Transform) :
  position g1 = approach3 (position g) (groupTarget gs anchor) 0.1 ->
  ex (rotation g1) = approach (ex (rotation g)) (- vy anchor * 0.05) 0.05 ->
  ey (rotation g1) = approach (ey (rotation g)) (vx anchor * 0.05) 0.05 ->
  ez (rotation g1) = ez (rotation g) ->
  placedAfter gs anchor n g1 g' ->
  placedAfter gs anchor (S n) g g'.
Proof.
  intros Hp Hx Hy Hz (Pp & Px & Py & Pz). unfold placedAfter, settle3.
  rewrite !settle_step_first.
  rewrite Pp, Px, Py, Pz, Hp, Hx, Hy, Hz. repeat split.
Qed.

Lemma galleryTicks_outer (gs : GestureState) (anchor : Vector3)
      (frames : list Frame) :
  forall (st : Gallery.State) (g : Transform),
    Gallery.outerGroup st = Some g ->
    exists g' : Transform,
      Gallery.outerGroup (galleryTicks gs anchor frames st) = Some g'
      /\ placedAfter gs anchor (List.length frames) g g'.
Proof.
  induction frames as [| f frames IH]; intros st g Hg.
  - exists g. split; [exact Hg | apply placedAfter_0].
  - cbn [galleryTicks fold_left List.length].
    fold (galleryTicks gs anchor frames
                       (Gallery.useFrame gs anchor (fst f) (snd f) st)).
    destruct (IH (Gallery.useFrame gs anchor (fst f) (snd f) st)
                 (Gallery.moveOuter gs anchor g)) as (g' & Hg' & Hp).
    { unfold Gallery.useFrame. cbn. now rewrite Hg. }
    exists g'. split; [exact Hg' |].
    apply (placedAfter_S gs anchor _ g (Gallery.moveOuter gs anchor g) g');
      try exact Hp.
    + apply groupTarget_moveOuter.
    + unfold Gallery.moveOuter. cbn. apply lerp_approach.
    + unfold Gallery.moveOuter. cbn. apply lerp_approach.
    + reflexivity.
Qed.

Lemma particleTicks_group (count : nat) (refs : Particles.Refs)
      (gs : GestureState) (anchor : Vector3) (frames : list Frame) :
  forall st : Particles.Scene * Particles.Store,
    placedAfter gs anchor (List.length frames)
                (Particles.group (fst st))
                (Particles.group
                   (fst (particleTicks count refs gs anchor frames st))).
Proof.
  induction frames as [| f frames IH]; intros st.
  - apply placedAfter_0.
  - cbn [particleTicks fold_left List.length].
    fold (particleTicks count refs gs anchor frames
            (Particles.useFrame count refs gs anchor (fst f) (snd f)
                                true st)).
    apply (placedAfter_S gs anchor _ _
             (Particles.group
                (fst (Particles.useFrame count refs gs anchor
                                         (fst f) (snd f) true st))));
      try apply IH; destruct st as [sc s];
      unfold Particles.useFrame; cbn.
    + apply groupTarget_moveGroup.
    + apply lerp_approach.
    + apply lerp_approach.
    + reflexivity.
Qed.

(** X9. While the gesture state and the hand anchor stay the same, n frames take
    the position of the gallery outer group, and of the particle group, to
    target + 0.9^n (start - target), the target being the origin in FORMED
    and ROTATING and the anchor otherwise, and their x and y rotations to
    goal + 0.95^n (start - goal); the z rotation is kept.  Such a motion
    never overshoots and gets as close to the target as wanted. *)
Theorem group_placement_settles
        (gs : GestureState) (anchor : Vector3) (frames : list Frame)
        (st : Gallery.State) (g : Transform)
        (Houter : Gallery.outerGroup st = Some g) :
  (exists g' : Transform,
      Gallery.outerGroup (galleryTicks gs anchor frames st) = Some g'
      /\ placedAfter gs anchor (List.length frames) g g')
  /\ (forall (count : nat) (refs : Particles.Refs)
             (ps : Particles.Scene * Particles.Store),
         placedAfter gs anchor (List.length frames)
                     (Particles.group (fst ps))
                     (Particles.group
                        (fst (particleTicks count refs gs anchor frames
                                            ps))))
  /\ (forall (n : nat) (start target : R),
         Rabs (settle 0.1 n start target - target) <= Rabs (start - target)
         /\ Rabs (settle 0.05 n start target - target)
            <= Rabs (start - target))
  /\ (forall start target eps : R,
         0 < eps ->
         exists N : nat, forall n : nat,
             (N <= n)%nat ->
             Rabs (settle 0.1 n start target - target) < eps
             /\ Rabs (settle 0.05 n start target - target) < eps).
Proof.
  split; [now apply galleryTicks_outer |].
  split; [intros; apply particleTicks_group |].
  split.
  - intros n start target. split; apply settle_no_overshoot; lra.
  - intros start target eps Heps.
    destruct (settle_converges 0.1 start target eps) as [N1 H1];
      [lra | exact Heps |].
    destruct (settle_converges 0.05 start target eps) as [N2 H2];
      [lra | exact Heps |].
    exists (Nat.max N1 N2). intros n Hn. split; [apply H1 | apply H2]; lia.
Qed.

Lemma group_placement_settles_witness :
  exists g' : Transform,
    Gallery.outerGroup
      (galleryTicks FORMED (mkVector3 10 5 0) [(0, 0.016); (0.016, 0.016)]
                    galleryAtRest)
    = Some g'
    /\ placedAfter FORMED (mkVector3 10 5 0) 2
                   (mkTransform (mkVector3 0 0 0) (mkEuler 0 0 0)) g'.
Proof.
  apply (group_placement_settles
           FORMED (mkVector3 10 5 0) [(0, 0.016); (0.016, 0.016)]
           galleryAtRest
           (mkTransform (mkVector3 0 0 0) (mkEuler 0 0 0))).
  reflexivity.
Defined.

End Dynamics.

(** ** The spin of the inner group and of the particle mesh *)

Section Spin.
Import THREE.

Lemma spinInner_free (gs : GestureState) (time delta : R) (g : Transform) :
  gs <> FORMED ->
  ey (rotation (Gallery.spinInner gs time delta g))
  = ey (rotation g) + spinRate gs * delta.
Proof.
  intros H. unfold Gallery.spinInner. cbn [rotation ey].
  destruct gs; cbn; try lra. contradiction.
Qed.

Lemma spinInner_frame (gs : GestureState) (time delta : R) (g : Transform) :
  position (Gallery.spinInner gs time delta g) = position g
  /\ ex (rotation (Gallery.spinInner gs time delta g)) = ex (rotation g)
  /\ ez (rotation (Gallery.spinInner gs time delta g)) = ez (rotation g).
Proof. repeat split. Qed.

Lemma sway_bounded (y time : R) :
  Rabs y <= 0.2 -> Rabs (lerp y (sin (time * 0.5) * 0.2) 0.05) <= 0.2.
Proof.
  intros Hy. pose proof (SIN_bound (time * 0.5)) as [Sl Su].
  apply Rabs_le_between in Hy. apply Rabs_le_between. unfold lerp. lra.
Qed.

Lemma galleryTicks_inner (gs : GestureState) (anchor : Vector3)
      (frames : list Frame) :
  forall (st : Gallery.State) (g : Transform),
    Gallery.innerGroup st = Some g ->
    exists g' : Transform,
      Gallery.innerGroup (galleryTicks gs anchor frames st) = Some g'
      /\ position g' = position g
      /\ ex (rotation g') = ex (rotation g)
      /\ ez (rotation g') = ez (rotation g)
      /\ (gs <> FORMED ->
          ey (rotation g') = ey (rotation g) + spinRate gs * elapsed frames)
      /\ (gs = FORMED -> Rabs (ey (rotation g)) <= 0.2 ->
          Rabs (ey (rotation g')) <= 0.2).
Proof.
  induction frames as [| f frames IH]; intros st g Hg.
  - exists g. split; [exact Hg |]. repeat split; auto.
    intros _. cbn. ring.
  - cbn [galleryTicks fold_left].
    fold (galleryTicks gs anchor frames
                       (Gallery.useFrame gs anchor (fst f) (snd f) st)).
    destruct (IH (Gallery.useFrame gs anchor (fst f) (snd f) st)
                 (Gallery.spinInner gs (fst f) (snd f) g))
      as (g' & Hg' & Hp & Hx & Hz & Hfree & Hsway).
    { unfold Gallery.useFrame. cbn. now rewrite Hg. }
    exists g'. split; [exact Hg' |].
    split; [rewrite Hp; reflexivity |].
    split; [rewrite Hx; reflexivity |].
    split; [rewrite Hz; reflexivity |]. split.
    + intros Hgs. rewrite (Hfree Hgs), spinInner_free by exact Hgs.
      cbn [elapsed fold_right]. fold (elapsed frames). ring.
    + intros Hgs Hy. apply (Hsway Hgs). subst gs.
      unfold Gallery.spinInner. cbn. now apply sway_bounded.
Qed.

Lemma particleTicks_rotation (count : nat) (refs : Particles.Refs)
      (gs : GestureState) (anchor : Vector3) (frames : list Frame) :
  forall st : Particles.Scene * Particles.Store,
    let y := Particles.meshRotationY (fst st) in
    let y' := Particles.meshRotationY
                (fst (particleTicks count refs gs anchor frames st)) in
    (gs <> FORMED -> y' = y + spinRate gs * elapsed frames)
    /\ (gs = FORMED -> Rabs y <= 0.2 -> Rabs y' <= 0.2).
Proof.
  induction frames as [| f frames IH]; intros st; cbn zeta.
  - cbn. split; [intros _; ring | auto].
  - cbn [particleTicks fold_left].
    fold (particleTicks count refs gs anchor frames
            (Particles.useFrame count refs gs anchor (fst f) (snd f)
                                true st)).
    destruct (IH (Particles.useFrame count refs gs anchor (fst f) (snd f)
                                     true st)) as (Hfree & Hsway).
    cbn zeta in *. split.
    + intros Hgs. rewrite (Hfree Hgs). destruct st as [sc s].
      unfold Particles.useFrame. cbn [negb fst Particles.meshRotationY].
      cbn [elapsed fold_right]. fold (elapsed frames).
      destruct gs; cbn; try lra. contradiction.
    + intros Hgs Hy. apply (Hsway Hgs). subst gs. destruct st as [sc s].
      unfold Particles.useFrame. cbn. now apply sway_bounded.
Qed.

(** X10. Over any sequence of frames in one gesture state the gallery inner group
    keeps its position and its x and z rotation; outside FORMED its y
    rotation grows by the summed delta times 2 in ROTATING and times 0.1
    otherwise, whatever the frame rate; in FORMED a sway that starts within
    0.2 stays within 0.2.  The particle mesh turns by the same law. *)
Theorem spin_follows_elapsed_time
        (gs : GestureState) (anchor : Vector3) (frames : list Frame)
        (st : Gallery.State) (g : Transform)
        (Hinner : Gallery.innerGroup st = Some g) :
  (exists g' : Transform,
      Gallery.innerGroup (galleryTicks gs anchor frames st) = Some g'
      /\ position g' = position g
      /\ ex (rotation g') = ex (rotation g)
      /\ ez (rotation g') = ez (rotation g)
      /\ (gs <> FORMED ->
          ey (rotation g') = ey (rotation g) + spinRate gs * elapsed frames)
      /\ (gs = FORMED -> Rabs (ey (rotation g)) <= 0.2 ->
          Rabs (ey (rotation g')) <= 0.2))
  /\ (forall (count : nat) (refs : Particles.Refs)
             (ps : Particles.Scene * Particles.Store),
         let y := Particles.meshRotationY (fst ps) in
         let y' := Particles.meshRotationY
                     (fst (particleTicks count refs gs anchor frames ps)) in
         (gs <> FORMED -> y' = y + spinRate gs * elapsed frames)
         /\ (gs = FORMED -> Rabs y <= 0.2 -> Rabs y' <= 0.2)).
Proof.
  split; [now apply galleryTicks_inner |].
  intros count refs ps. apply particleTicks_rotation.
Qed.

Lemma spin_follows_elapsed_time_witness :
  exists g' : Transform,
    Gallery.innerGroup
      (galleryTicks ROTATING (mkVector3 0 0 0) [(0, 0.25); (0.25, 0.75)]
                    galleryAtRest)
    = Some g'
    /\ ey (rotation g') = 2.
Proof.
  destruct (spin_follows_elapsed_time
              ROTATING (mkVector3 0 0 0) [(0, 0.25); (0.25, 0.75)]
              galleryAtRest
              (mkTransform (mkVector3 0 0 0) (mkEuler 0 0 0)) eq_refl)
    as [(g' & Hg' & _ & _ & _ & Hfree & _) _].
  exists g'. split; [exact Hg' |].
  rewrite Hfree by discriminate. cbn. lra.
Defined.

End Spin.

(** ** A photo over several frames *)

Section PhotoDynamics.
Import THREE JSNum.

Lemma useFrame_mesh (p : PhotoFrame.Props) (time : R) (camera : Vector3)
      (st : PhotoFrame.State) (mesh : PhotoFrame.Mesh) :
  PhotoFrame.meshRef st = Some mesh ->
  let dest := fst (fst (PhotoFrame.destination p time st)) in
  exists mesh' : PhotoFrame.Mesh,
    PhotoFrame.meshRef (PhotoFrame.useFrame p time camera st) = Some mesh'
    /\ PhotoFrame.current (PhotoFrame.useFrame p time camera st)
       = approach3 (PhotoFrame.current st) dest 0.08
    /\ PhotoFrame.position mesh'
       = PhotoFrame.current (PhotoFrame.useFrame p time camera st)
    /\ PhotoFrame.opacity mesh'
       = approach (PhotoFrame.opacity mesh) (opacityGoal p) 0.08.
Proof.
  intros Hm. cbn zeta. unfold PhotoFrame.useFrame. rewrite Hm.
  destruct (PhotoFrame.destination p time st) as [[dest ts] rot].
  cbn [fst snd]. eexists. split; [reflexivity |].
  cbn [PhotoFrame.current PhotoFrame.position PhotoFrame.opacity].
  split; [reflexivity |]. split; [reflexivity |].
  rewrite lerp_approach. f_equal. unfold opacityGoal.
  destruct (PhotoFrame.visible p); cbn [negb]; [| reflexivity].
  destruct (PhotoFrame.gestureState p), (PhotoFrame.isFocused p);
    reflexivity.
Qed.

Lemma destination_resting (p : PhotoFrame.Props) (time : R)
      (st : PhotoFrame.State) (dest : Vector3) :
  restingPlace p = Some dest ->
  fst (fst (PhotoFrame.destination p time st)) = dest.
Proof.
  unfold restingPlace, PhotoFrame.destination.
  destruct (PhotoFrame.isFocused p), (PhotoFrame.parentGroup p);
    destruct (PhotoFrame.gestureState p); cbn;
    intros [= <-]; try reflexivity;
    destruct (PhotoFrame.targetPos p); reflexivity.
Qed.

Lemma destination_bobbing (p : PhotoFrame.Props) (time : R)
      (st : PhotoFrame.State) :
  restingPlace p = None ->
  let dest := fst (fst (PhotoFrame.destination p time st)) in
  let target := PhotoFrame.targetPos p in
  vx dest = vx target /\ vz dest = vz target
  /\ Rabs (vy dest - vy target) <= 2.
Proof.
  unfold restingPlace, PhotoFrame.destination.
  pose proof (SIN_bound (time + vx (PhotoFrame.current st))) as [Sl Su].
  destruct (PhotoFrame.isFocused p), (PhotoFrame.parentGroup p);
    destruct (PhotoFrame.gestureState p); cbn;
    intros H; try discriminate;
    (split; [reflexivity |]); (split; [reflexivity |]);
    apply Rabs_le_between; lra.
Qed.

Lemma photoTicks_resting (dest : Vector3) (goal : R)
      (frames : list PhotoTick) :
  Forall (fun f => PhotoFrame.isFocused (photoProps f) = false
                   /\ restingPlace (photoProps f) = Some dest
                   /\ opacityGoal (photoProps f) = goal) frames ->
  forall (st : PhotoFrame.State) (mesh : PhotoFrame.Mesh),
    PhotoFrame.meshRef st = Some mesh ->
    exists mesh' : PhotoFrame.Mesh,
      PhotoFrame.meshRef (photoTicks frames st) = Some mesh'
      /\ PhotoFrame.current (photoTicks frames st)
         = settle3 0.08 (List.length frames) (PhotoFrame.current st) dest
      /\ PhotoFrame.opacity mesh'
         = settle 0.08 (List.length frames) (PhotoFrame.opacity mesh) goal.
Proof.
  induction 1 as [| f frames (_ & Hrest & Hgoal) _ IH]; intros st mesh Hm.
  - exists mesh. split; [exact Hm |]. cbn [photoTicks fold_left List.length].
    unfold settle3. rewrite !settle_0.
    destruct (PhotoFrame.current st). split; reflexivity.
  - cbn [photoTicks fold_left List.length].
    fold (photoTicks frames
            (PhotoFrame.useFrame (photoProps f) (photoTime f)
                                 (photoCamera f) st)).
    destruct (useFrame_mesh (photoProps f) (photoTime f) (photoCamera f)
                            st mesh Hm)
      as (mesh1 & Hm1 & Hc1 & _ & Ho1).
    cbn zeta in Hc1.
    rewrite (destination_resting _ (photoTime f) st dest Hrest) in Hc1.
    rewrite Hgoal in Ho1.
    destruct (IH _ mesh1 Hm1) as (mesh' & Hm' & Hc' & Ho').
    exists mesh'. split; [exact Hm' |]. split.
    + rewrite Hc', Hc1. unfold settle3, approach3. cbn [vx vy vz].
      now rewrite !settle_step_first.
    + rewrite Ho', Ho1. now rewrite settle_step_first.
Qed.

(** X11. A mounted photo that is not the focused one, over any n frames in
    which its destination is one point dest (during a focus: its target
    moved back by 40; in the formed and rotating heart: its target) and
    its opacity goal is one value, whatever the parent group, the elapsed
    time and the camera are in each frame: after the n frames it is at
    dest + 0.92^n (start - dest), with opacity
    goal + 0.92^n (start - goal); such a motion never overshoots and gets
    as close to its target as wanted. *)
Theorem photo_settles_at_resting_place
        (frames : list PhotoTick) (dest : Vector3) (goal : R)
        (st : PhotoFrame.State) (mesh : PhotoFrame.Mesh)
        (Hframes :
           Forall (fun f => PhotoFrame.isFocused (photoProps f) = false
                            /\ restingPlace (photoProps f) = Some dest
                            /\ opacityGoal (photoProps f) = goal) frames)
        (Hmesh : PhotoFrame.meshRef st = Some mesh) :
  let n := List.length frames in
  (exists mesh' : PhotoFrame.Mesh,
      PhotoFrame.meshRef (photoTicks frames st) = Some mesh'
      /\ PhotoFrame.current (photoTicks frames st)
         = settle3 0.08 n (PhotoFrame.current st) dest
      /\ PhotoFrame.opacity mesh'
         = settle 0.08 n (PhotoFrame.opacity mesh) goal)
  /\ (forall start target : R,
         Rabs (settle 0.08 n start target - target)
         <= Rabs (start - target))
  /\ (forall start target eps : R,
         0 < eps ->
         exists N : nat, forall m : nat,
             (N <= m)%nat -> Rabs (settle 0.08 m start target - target) < eps).
Proof.
  cbn zeta. split; [now apply photoTicks_resting |]. split.
  - intros start target. apply settle_no_overshoot. lra.
  - intros start target eps Heps. apply settle_converges; lra.
Qed.

Lemma photo_settles_at_resting_place_witness :
  PhotoFrame.current (photoTicks heartFrames restingFrame)
  = settle3 0.08 3 (mkVector3 4 4 4) (mkVector3 1 2 3).
Proof.
  destruct (photo_settles_at_resting_place
              heartFrames (mkVector3 1 2 3) 0.9 restingFrame
              (PhotoFrame.initialMesh (mkVector3 4 4 4)))
    as [(mesh' & _ & Hc & _) _].
  - unfold heartFrames. repeat constructor.
  - reflexivity.
  - exact Hc.
Defined.

End PhotoDynamics.

(** ** What every frame keeps *)

Section PhotoInvariants.
Import THREE JSNum.

Lemma opacityGoal_range (p : PhotoFrame.Props) : 0 <= opacityGoal p <= 0.9.
Proof.
  unfold opacityGoal.
  destruct (PhotoFrame.visible p); [| lra].
  destruct (PhotoFrame.gestureState p), (PhotoFrame.isFocused p); lra.
Qed.

Lemma reachable_opacity (st : PhotoFrame.State) :
  reachable st ->
  exists mesh : PhotoFrame.Mesh,
    PhotoFrame.meshRef st = Some mesh
    /\ 0 <= PhotoFrame.opacity mesh <= 0.9.
Proof.
  induction 1 as [start | p time camera st Hst IH | a st Hst IH].
  - eexists. split; [reflexivity |]. cbn. lra.
  - destruct IH as (mesh & Hm & Ho).
    destruct (useFrame_mesh p time camera st mesh Hm)
      as (mesh' & Hm' & _ & _ & Ho').
    exists mesh'. split; [exact Hm' |]. rewrite Ho'.
    pose proof (opacityGoal_range p). unfold approach. lra.
  - destruct IH as (mesh & Hm & Ho). exists mesh. now split.
Qed.

(** X12. Every state a photo frame can reach has a mesh with a finite y scale in
    [0.5, 8] and an opacity in [0, 0.9]; the next frame sets the scale to
    (s aspect, s, 1) for the damped s, copies the damped position to the
    mesh, moves the opacity by 0.08 toward its goal, and, when the photo
    floats or drifts, aims at its target in x and z and within 2 of it
    in y. *)
Theorem photo_frame_invariants (st : PhotoFrame.State)
        (Hreach : reachable st) :
  exists (mesh : PhotoFrame.Mesh) (r : R),
    PhotoFrame.meshRef st = Some mesh
    /\ scaleY mesh = Fin r /\ 0.5 <= r <= 8
    /\ 0 <= PhotoFrame.opacity mesh <= 0.9
    /\ forall (p : PhotoFrame.Props) (time : R) (camera : Vector3),
        let targetScale := snd (fst (PhotoFrame.destination p time st)) in
        let dest := fst (fst (PhotoFrame.destination p time st)) in
        let r' := approach r targetScale 0.08 in
        exists mesh' : PhotoFrame.Mesh,
          PhotoFrame.meshRef (PhotoFrame.useFrame p time camera st)
          = Some mesh'
          /\ PhotoFrame.scale mesh'
             = (mul (Fin r') (PhotoFrame.aspect st), Fin r', Fin 1)
          /\ PhotoFrame.position mesh'
             = PhotoFrame.current (PhotoFrame.useFrame p time camera st)
          /\ PhotoFrame.opacity mesh'
             = approach (PhotoFrame.opacity mesh) (opacityGoal p) 0.08
          /\ (restingPlace p = None ->
              vx dest = vx (PhotoFrame.targetPos p)
              /\ vz dest = vz (PhotoFrame.targetPos p)
              /\ Rabs (vy dest - vy (PhotoFrame.targetPos p)) <= 2).
Proof.
  destruct (reachable_scale st Hreach) as (mesh & r & Hm & Hy & Hr).
  destruct (reachable_opacity st Hreach) as (mesh0 & Hm0 & Ho).
  rewrite Hm in Hm0. injection Hm0 as <-.
  exists mesh, r. split; [exact Hm |]. split; [exact Hy |].
  split; [exact Hr |]. split; [exact Ho |].
  intros p time camera. cbn zeta.
  destruct (useFrame_mesh p time camera st mesh Hm)
    as (mesh' & Hm' & _ & Hpos & Hop).
  exists mesh'. split; [exact Hm' |].
  split; [| split; [exact Hpos | split; [exact Hop |]]].
  - pose proof (targetScale_range p time st) as Ht.
    unfold PhotoFrame.useFrame in Hm'. rewrite Hm in Hm'.
    destruct (PhotoFrame.destination p time st) as [[dest t] rot].
    cbn [fst snd] in *. injection Hm' as <-. cbn [PhotoFrame.scale].
    unfold PhotoFrame.applyScale. unfold scaleY in Hy.
    rewrite Hy, lerp_finite. cbn [isNaN negb andb gtb].
    assert (Hpos' : 0.001 < (1 + - PhotoFrame.damping) * r
                            + PhotoFrame.damping * t)
      by (unfold PhotoFrame.damping; lra).
    unfold Rgtb. rewrite (Rltb_true _ _ Hpos').
    replace ((1 + - PhotoFrame.damping) * r + PhotoFrame.damping * t)
      with (approach r t 0.08)
      by (unfold approach, PhotoFrame.damping; ring).
    reflexivity.
  - apply destination_bobbing.
Qed.

Lemma photo_frame_invariants_witness :
  exists mesh : PhotoFrame.Mesh,
    PhotoFrame.meshRef (photoTicks heartFrames restingFrame) = Some mesh
    /\ 0 <= PhotoFrame.opacity mesh <= 0.9.
Proof.
  destruct (photo_frame_invariants (photoTicks heartFrames restingFrame))
    as (mesh & r & Hm & _ & _ & Ho & _).
  - unfold heartFrames. cbn [photoTicks fold_left].
    do 3 apply reachable_tick. apply reachable_initial.
  - exists mesh. split; [exact Hm | exact Ho].
Defined.

Lemma useFrame_opacity (count : nat) (refs : Particles.Refs)
      (gs : GestureState) (anchor : Vector3) (time delta : R)
      (sc : Particles.Scene) (s : Particles.Store) :
  Particles.opacity
    (fst (Particles.useFrame count refs gs anchor time delta true (sc, s)))
  = approach (Particles.opacity sc)
             (match gs with FOCUSED => 0.2 | _ => 1 end) 0.1.
Proof.
  unfold Particles.useFrame. cbn [negb fst Particles.opacity].
  destruct gs; cbn [GestureState_eqb]; apply lerp_approach.
Qed.

Lemma animated_opacity (sc : Particles.Scene) :
  animated sc -> 0.2 <= Particles.opacity sc <= 1.
Proof.
  induction 1 as [| count refs gs anchor time delta ready sc s Hsc IH].
  - cbn. lra.
  - destruct ready; [| exact IH].
    rewrite useFrame_opacity. unfold approach. destruct gs; lra.
Qed.

Lemma particleTicks_opacity (count : nat) (refs : Particles.Refs)
      (gs : GestureState) (anchor : Vector3) (frames : list Frame) :
  forall st : Particles.Scene * Particles.Store,
    Particles.opacity (fst (particleTicks count refs gs anchor frames st))
    = settle 0.1 (List.length frames) (Particles.opacity (fst st))
             (match gs with FOCUSED => 0.2 | _ => 1 end).
Proof.
  induction frames as [| f frames IH]; intros st.
  - cbn [particleTicks fold_left List.length]. now rewrite settle_0.
  - cbn [particleTicks fold_left List.length].
    fold (particleTicks count refs gs anchor frames
            (Particles.useFrame count refs gs anchor (fst f) (snd f)
                                true st)).
    rewrite IH, settle_step_first. destruct st as [sc s].
    now rewrite useFrame_opacity.
Qed.

(** X13. The opacity of the particle material starts at 1 and stays in [0.2, 1]
    in every animation; over n frames in one gesture state it is
    goal + 0.9^n (start - goal) with goal 0.2 in FOCUSED and 1 otherwise,
    so it only falls while a photo is focused and only rises otherwise. *)
Theorem particle_opacity_governed (sc : Particles.Scene)
        (Hanimated : animated sc) :
  0.2 <= Particles.opacity sc <= 1
  /\ forall (count : nat) (refs : Particles.Refs) (gs : GestureState)
            (anchor : Vector3) (frames : list Frame) (s : Particles.Store),
      let sc' := fst (particleTicks count refs gs anchor frames (sc, s)) in
      Particles.opacity sc'
      = settle 0.1 (List.length frames) (Particles.opacity sc)
               (match gs with FOCUSED => 0.2 | _ => 1 end)
      /\ (gs = FOCUSED -> Particles.opacity sc' <= Particles.opacity sc)
      /\ (gs <> FOCUSED -> Particles.opacity sc <= Particles.opacity sc').
Proof.
  pose proof (animated_opacity sc Hanimated) as Ho.
  split; [exact Ho |].
  intros count refs gs anchor frames s. cbn zeta.
  rewrite particleTicks_opacity. cbn [fst].
  split; [reflexivity |].
  assert (Hp : 0 <= (1 - 0.1) ^ List.length frames <= 1).
  { split; [apply pow_le; lra |].
    apply Rle_trans with (1 ^ List.length frames);
      [apply pow_incr; lra | rewrite pow1; lra]. }
  unfold settle. split.
  - intros ->. nra.
  - intros Hgs. destruct gs; try contradiction; nra.
Qed.

Lemma particle_opacity_governed_witness :
  0.2 <= Particles.opacity sceneAtMount <= 1.
Proof.
  apply (particle_opacity_governed sceneAtMount animated_mount).
Defined.

End PhotoInvariants.

(** ** One tick of the particle loop *)

Section ParticleLoop.
Import THREE Sampler.

Lemma read_write_eq (s : Particles.Store) (ref i : nat) (v : R) :
  (i < List.length (Particles.contents s ref))%nat ->
  Particles.read (Particles.write s ref i v) ref i = v.
Proof.
  intros Hi. unfold Particles.read. rewrite contents_write_eq.
  rewrite nth_lookup, list_lookup_insert_eq by exact Hi. reflexivity.
Qed.

Lemma read_write_ne (s : Particles.Store) (ref i j : nat) (v : R) :
  i <> j ->
  Particles.read (Particles.write s ref i v) ref j = Particles.read s ref j.
Proof.
  intros Hij. unfold Particles.read. rewrite contents_write_eq.
  rewrite !nth_lookup, list_lookup_insert_ne by exact Hij. reflexivity.
Qed.

Lemma read_write_other (s : Particles.Store) (ref ref' i j : nat) (v : R) :
  ref' <> ref ->
  Particles.read (Particles.write s ref i v) ref' j
  = Particles.read s ref' j.
Proof.
  intros H. unfold Particles.read. now rewrite write_contents_ne.
Qed.

Lemma length_write (s : Particles.Store) (ref ref' i : nat) (v : R) :
  List.length (Particles.contents (Particles.write s ref i v) ref')
  = List.length (Particles.contents s ref').
Proof.
  destruct (Nat.eq_dec ref' ref) as [-> | Hne].
  - rewrite contents_write_eq. apply length_insert.
  - now rewrite write_contents_ne.
Qed.

(** What one pass of the loop body does to the store. *)
Lemma lerpParticle_spec (tb cur : nat) (scale time : R)
      (s : Particles.Store) (i : nat) :
  tb <> cur ->
  (i * 3 + 2 < List.length (Particles.contents s cur))%nat ->
  let s' := Particles.lerpParticle tb cur scale time s i in
  Particles.read s' cur (i * 3)
  = approach (Particles.read s cur (i * 3))
             (Particles.read s tb (i * 3) * scale) Particles.DAMPING
  /\ Particles.read s' cur (i * 3 + 1)
     = approach (Particles.read s cur (i * 3 + 1))
                (Particles.read s tb (i * 3 + 1) * scale
                 + sin (time * 2 + INR i) * 0.1) Particles.DAMPING
  /\ Particles.read s' cur (i * 3 + 2)
     = approach (Particles.read s cur (i * 3 + 2))
                (Particles.read s tb (i * 3 + 2) * scale) Particles.DAMPING
  /\ (forall j : nat,
         (j < i * 3 \/ i * 3 + 2 < j)%nat ->
         Particles.read s' cur j = Particles.read s cur j)
  /\ (forall ref' : nat,
         List.length (Particles.contents s' ref')
         = List.length (Particles.contents s ref')).
Proof.
  intros Hne Hlen. cbn zeta. unfold Particles.lerpParticle, approach.
  split; [| split; [| split; [| split]]].
  - rewrite !read_write_ne by lia. apply read_write_eq. lia.
  - rewrite read_write_ne by lia.
    rewrite read_write_eq by (rewrite length_write; lia).
    rewrite read_write_ne by lia. reflexivity.
  - rewrite read_write_eq by (rewrite !length_write; lia).
    rewrite !read_write_ne by lia. reflexivity.
  - intros j Hj. rewrite !read_write_ne by lia. reflexivity.
  - intros ref'. now rewrite !length_write.
Qed.

Lemma lerpParticle_other (tb cur ref' : nat) (scale time : R)
      (s : Particles.Store) (i j : nat) :
  ref' <> cur ->
  Particles.read (Particles.lerpParticle tb cur scale time s i) ref' j
  = Particles.read s ref' j.
Proof.
  intros H. unfold Particles.read.
  now rewrite lerpParticle_contents_ne.
Qed.

(** The loop over the first [k] particles. *)
Lemma lerp_loop_spec (tb cur : nat) (scale time : R) (s : Particles.Store)
      (k : nat) :
  tb <> cur ->
  (k * 3 <= List.length (Particles.contents s cur))%nat ->
  let s' := fold_left (Particles.lerpParticle tb cur scale time)
                      (seq 0 k) s in
  (forall i : nat,
      (i < k)%nat ->
      Particles.read s' cur (i * 3)
      = approach (Particles.read s cur (i * 3))
                 (Particles.read s tb (i * 3) * scale) Particles.DAMPING
      /\ Particles.read s' cur (i * 3 + 1)
         = approach (Particles.read s cur (i * 3 + 1))
                    (Particles.read s tb (i * 3 + 1) * scale
                     + sin (time * 2 + INR i) * 0.1) Particles.DAMPING
      /\ Particles.read s' cur (i * 3 + 2)
         = approach (Particles.read s cur (i * 3 + 2))
                    (Particles.read s tb (i * 3 + 2) * scale)
                    Particles.DAMPING)
  /\ (forall j : nat,
         (k * 3 <= j)%nat ->
         Particles.read s' cur j = Particles.read s cur j)
  /\ (forall ref' : nat,
         List.length (Particles.contents s' ref')
         = List.length (Particles.contents s ref')).
Proof.
  intros Hne. induction k as [| k IH]; intros Hlen; cbn zeta.
  - cbn [seq fold_left]. split; [intros i Hi; lia |]. split; reflexivity.
  - rewrite seq_S, fold_left_app. cbn [Nat.add fold_left].
    destruct (IH ltac:(lia)) as (Hdone & Hrest & Hlens). cbn zeta in *.
    set (sk := fold_left (Particles.lerpParticle tb cur scale time)
                         (seq 0 k) s) in *.
    assert (Hk : (k * 3 + 2 < List.length (Particles.contents sk cur))%nat)
      by (rewrite Hlens; lia).
    destruct (lerpParticle_spec tb cur scale time sk k Hne Hk)
      as (Hx & Hy & Hz & Hfar & Hlen').
    cbn zeta in *.
    assert (Htb : forall j : nat,
               Particles.read sk tb j = Particles.read s tb j).
    { intros j. unfold sk, Particles.read.
      now rewrite lerp_loop_contents_ne. }
    split; [| split].
    + intros i Hi. destruct (Nat.eq_dec i k) as [-> | Hik].
      * rewrite Hx, Hy, Hz, !Htb, !Hrest by lia. repeat split.
      * rewrite !Hfar by lia. apply Hdone. lia.
    + intros j Hj. rewrite Hfar by lia. apply Hrest. lia.
    + intros ref'. now rewrite Hlen', Hlens.
Qed.

(** X14. One frame of the particle loop, with the current buffer distinct from
    both target buffers and long enough: every particle i < count moves by
    0.05 of the way to its target in the heart buffer (FORMED, ROTATING,
    FOCUSED) or the dispersed buffer, with sin(2 time + i) * 0.1 added to
    the y target; entries past the last particle, the length of every
    buffer and the contents of every other buffer are unchanged. *)
Theorem particle_tick_moves_each_particle
        (count : nat) (refs : Particles.Refs) (gs : GestureState)
        (anchor : Vector3) (time delta : R)
        (sc : Particles.Scene) (s : Particles.Store)
        (Hheart : Particles.heartPositions refs
                  <> Particles.currentPositions refs)
        (Hdispersed : Particles.dispersedPositions refs
                      <> Particles.currentPositions refs)
        (Hlength : (count * 3
                    <= List.length
                         (Particles.contents
                            s (Particles.currentPositions refs)))%nat) :
  let cur := Particles.currentPositions refs in
  let tb := targetBufferOf refs gs in
  let s' := snd (Particles.useFrame count refs gs anchor time delta true
                                    (sc, s)) in
  (forall i : nat,
      (i < count)%nat ->
      Particles.read s' cur (i * 3)
      = approach (Particles.read s cur (i * 3))
                 (Particles.read s tb (i * 3)) 0.05
      /\ Particles.read s' cur (i * 3 + 1)
         = approach (Particles.read s cur (i * 3 + 1))
                    (Particles.read s tb (i * 3 + 1)
                     + sin (time * 2 + INR i) * 0.1) 0.05
      /\ Particles.read s' cur (i * 3 + 2)
         = approach (Particles.read s cur (i * 3 + 2))
                    (Particles.read s tb (i * 3 + 2)) 0.05)
  /\ (forall j : nat,
         (count * 3 <= j)%nat ->
         Particles.read s' cur j = Particles.read s cur j)
  /\ (forall ref' : nat,
         List.length (Particles.contents s' ref')
         = List.length (Particles.contents s ref'))
  /\ (forall ref' : nat,
         ref' <> cur ->
         Particles.contents s' ref' = Particles.contents s ref').
Proof.
  cbn zeta.
  assert (Htb : targetBufferOf refs gs <> Particles.currentPositions refs)
    by (destruct gs; assumption).
  assert (Hsel : (if Particles.isFormed gs || GestureState_eqb gs FOCUSED
                  then Particles.heartPositions refs
                  else Particles.dispersedPositions refs)
                 = targetBufferOf refs gs) by (destruct gs; reflexivity).
  unfold Particles.useFrame. cbn [negb snd]. rewrite Hsel.
  destruct (lerp_loop_spec (targetBufferOf refs gs)
                           (Particles.currentPositions refs) 1 time s count
                           Htb Hlength) as (Hdone & Hrest & Hlens).
  cbn zeta in *. split; [| split; [| split]].
  - intros i Hi. destruct (Hdone i Hi) as (Hx & Hy & Hz).
    rewrite Hx, Hy, Hz, !Rmult_1_r. repeat split.
  - exact Hrest.
  - exact Hlens.
  - intros ref' Href. now apply lerp_loop_contents_ne.
Qed.

Lemma particle_tick_moves_each_particle_witness :
  Particles.read
    (snd (Particles.useFrame 1 oneParticleRefs FORMED (mkVector3 0 0 0)
                             0 0 true (sceneAtOrigin, oneParticleStore)))
    4 0
  = 0.15.
Proof.
  assert (Hcur : Particles.contents oneParticleStore 4 = [0; 0; 0])
    by apply contents_alloc_eq.
  assert (Hheart : Particles.contents oneParticleStore 0 = [3; 6; 9]).
  { unfold oneParticleStore.
    rewrite !contents_alloc_ne by discriminate. apply contents_alloc_eq. }
  destruct (particle_tick_moves_each_particle
              1 oneParticleRefs FORMED (mkVector3 0 0 0) 0 0
              sceneAtOrigin oneParticleStore) as [Hmove _].
  - discriminate.
  - discriminate.
  - cbn [oneParticleRefs Particles.currentPositions]. rewrite Hcur.
    cbn. lia.
  - destruct (Hmove 0%nat ltac:(lia)) as [Hx _].
    cbn [oneParticleRefs Particles.currentPositions targetBufferOf
         Particles.heartPositions Nat.mul] in Hx.
    rewrite Hx. unfold Particles.read, approach. rewrite Hcur, Hheart.
    cbn [nth]. lra.
Defined.

End ParticleLoop.

(** ** The particle buffers at mount *)

Section Mount.
Import THREE Sampler.

Lemma triple_write_other (s : Particles.Store) (ref ref' i j : nat) (v : R) :
  ref' <> ref ->
  triple (Particles.write s ref j v) ref' i = triple s ref' i.
Proof. intros H. unfold triple. now rewrite !read_write_other. Qed.

Lemma triple_write_far (s : Particles.Store) (ref i j : nat) (v : R) :
  (j < i * 3 \/ i * 3 + 2 < j)%nat ->
  triple (Particles.write s ref j v) ref i = triple s ref i.
Proof. intros H. unfold triple. now rewrite !read_write_ne by lia. Qed.

Lemma triple_written (s : Particles.Store) (ref i : nat) (v : Vector3) :
  (i * 3 + 2 < List.length (Particles.contents s ref))%nat ->
  triple (Particles.write
            (Particles.write (Particles.write s ref (i * 3) (vx v))
                             ref (i * 3 + 1) (vy v))
            ref (i * 3 + 2) (vz v))
         ref i
  = v.
Proof.
  intros H. unfold triple. destruct v as [x y z]. cbn [vx vy vz]. f_equal.
  - rewrite !read_write_ne by lia. apply read_write_eq. lia.
  - rewrite read_write_ne by lia. apply read_write_eq.
    rewrite length_write. lia.
  - apply read_write_eq. rewrite !length_write. lia.
Qed.

(** One pass of the loop that fills the buffers. *)
Lemma fillOne_spec (hPos dPos cols phases i : nat) (s : Particles.Store)
      (g : RNG) :
  hPos <> dPos -> hPos <> cols -> hPos <> phases ->
  dPos <> cols -> dPos <> phases ->
  (i * 3 + 2 < List.length (Particles.contents s hPos))%nat ->
  (i * 3 + 2 < List.length (Particles.contents s dPos))%nat ->
  let s' := fst (Particles.fillOne hPos dPos cols phases i (s, g)) in
  triple s' hPos i = fst (randomInHeart 0.6 g)
  /\ triple s' dPos i = fst (randomInSphere 40 (skip 3 g))
  /\ (forall j : nat, j <> i ->
                      triple s' hPos j = triple s hPos j
                      /\ triple s' dPos j = triple s dPos j)
  /\ (forall ref' : nat,
         List.length (Particles.contents s' ref')
         = List.length (Particles.contents s ref'))
  /\ (forall ref' : nat,
         ref' <> hPos -> ref' <> dPos -> ref' <> cols -> ref' <> phases ->
         Particles.contents s' ref' = Particles.contents s ref')
  /\ snd (Particles.fillOne hPos dPos cols phases i (s, g)) = skip 8 g.
Proof.
  intros H1 H2 H3 H4 H5 Lh Ld. cbn zeta. unfold Particles.fillOne.
  destruct (randomInHeart 0.6 g) as [h g1] eqn:Eh.
  assert (Hg1 : g1 = skip 3 g).
  { change g1 with (snd (h, g1)). rewrite <- Eh.
    unfold randomInHeart, random, skip. cbn. f_equal. lia. }
  destruct (randomInSphere 40 g1) as [d g2] eqn:Ed.
  assert (Hg2 : g2 = skip 6 g).
  { change g2 with (snd (d, g2)). rewrite <- Ed, Hg1.
    unfold randomInSphere, random, skip. cbn. f_equal. lia. }
  destruct (random g2) as [r g3] eqn:Er.
  destruct (random g3) as [ph g4] eqn:Eph.
  assert (Hg4 : g4 = skip 8 g).
  { change g4 with (snd (ph, g4)). rewrite <- Eph.
    change g3 with (snd (r, g3)). rewrite <- Er, Hg2.
    unfold random, skip. cbn. f_equal. lia. }
  cbn [fst snd].
  split; [| split; [| split; [| split; [| split]]]].
  - rewrite !(triple_write_other _ phases), !(triple_write_other _ cols),
      !(triple_write_other _ dPos) by auto.
    now apply triple_written.
  - rewrite !(triple_write_other _ phases), !(triple_write_other _ cols)
      by auto.
    rewrite <- Hg1. change d with (fst (d, g2)). rewrite <- Ed.
    apply triple_written. rewrite !length_write. exact Ld.
  - intros j Hj. split.
    + rewrite !(triple_write_other _ phases), !(triple_write_other _ cols),
        !(triple_write_other _ dPos) by auto.
      rewrite !triple_write_far by lia. reflexivity.
    + rewrite !(triple_write_other _ phases), !(triple_write_other _ cols)
        by auto.
      rewrite !triple_write_far by lia.
      rewrite !(triple_write_other _ hPos) by auto. reflexivity.
  - intros ref'. now rewrite !length_write.
  - intros ref' N1 N2 N3 N4. now rewrite !write_contents_ne by auto.
  - exact Hg4.
Qed.

(** The loop over the first [k] particles. *)
Lemma fill_loop_spec (hPos dPos cols phases : nat) (k : nat) :
  hPos <> dPos -> hPos <> cols -> hPos <> phases ->
  dPos <> cols -> dPos <> phases ->
  forall (s : Particles.Store) (g : RNG),
    (k * 3 <= List.length (Particles.contents s hPos))%nat ->
    (k * 3 <= List.length (Particles.contents s dPos))%nat ->
    let sg' := fold_left
                 (fun sg i => Particles.fillOne hPos dPos cols phases i sg)
                 (seq 0 k) (s, g) in
    (forall i : nat,
        (i < k)%nat ->
        triple (fst sg') hPos i = fst (randomInHeart 0.6 (skip (8 * i) g))
        /\ triple (fst sg') dPos i
           = fst (randomInSphere 40 (skip (8 * i + 3) g)))
    /\ (forall ref' : nat,
           List.length (Particles.contents (fst sg') ref')
           = List.length (Particles.contents s ref'))
    /\ (forall ref' : nat,
           ref' <> hPos -> ref' <> dPos -> ref' <> cols ->
           ref' <> phases ->
           Particles.contents (fst sg') ref' = Particles.contents s ref')
    /\ snd sg' = skip (8 * k) g.
Proof.
  intros H1 H2 H3 H4 H5. induction k as [| k IH]; intros s g Lh Ld;
    cbn zeta.
  - cbn [seq fold_left fst snd]. split; [intros i Hi; lia |].
    split; [reflexivity |]. split; [reflexivity |].
    now rewrite skip_0.
  - rewrite seq_S, fold_left_app. cbn [Nat.add fold_left].
    destruct (IH s g ltac:(lia) ltac:(lia)) as (Hdone & Hlens & Hother & Hg).
    cbn zeta in *.
    destruct (fold_left _ (seq 0 k) (s, g)) as [sk gk]. cbn [fst snd] in *.
    destruct (fillOne_spec hPos dPos cols phases k sk gk H1 H2 H3 H4 H5)
      as (Fh & Fd & Fkeep & Flen & Foth & Fg).
    { rewrite Hlens. lia. }
    { rewrite Hlens. lia. }
    cbn zeta in *. split; [| split; [| split]].
    + intros i Hi. destruct (Nat.eq_dec i k) as [-> | Hik].
      * rewrite Fh, Fd, Hg, skip_skip. split; reflexivity.
      * destruct (Fkeep i Hik) as [-> ->]. apply Hdone. lia.
    + intros ref'. now rewrite Flen, Hlens.
    + intros ref' N1 N2 N3 N4. rewrite Foth by assumption. now apply Hother.
    + rewrite Fg, Hg, skip_skip. f_equal. lia.
Qed.

Lemma triple_same_contents (s s' : Particles.Store) (ref ref' i : nat) :
  Particles.contents s ref = Particles.contents s' ref' ->
  triple s ref i = triple s' ref' i.
Proof. intros H. unfold triple, Particles.read. now rewrite H. Qed.

(** X15. Mounting the particles on draws in [0, 1): particle i gets its heart
    target from randomInHeart(0.6) on draws 8i .. 8i+2 and its dispersed
    target from randomInSphere(40) on draws 8i+3 .. 8i+5 (two more draws go
    to its colour and phase); it starts at its dispersed target; the three
    position buffers have 3 count entries and are three different arrays;
    heart targets lie in the heart box, dispersed targets within 40; and
    no array that existed before is changed. *)
Theorem mount_fills_targets (count : nat) (s : Particles.Store) (g : RNG)
        (Hdraws : uniform01 g) :
  let refs := fst (fst (Particles.mount count s g)) in
  let s1 := snd (fst (Particles.mount count s g)) in
  let hp := Particles.heartPositions refs in
  let dp := Particles.dispersedPositions refs in
  let cur := Particles.currentPositions refs in
  (forall i : nat,
      (i < count)%nat ->
      triple s1 hp i = fst (randomInHeart 0.6 (skip (8 * i) g))
      /\ triple s1 dp i = fst (randomInSphere 40 (skip (8 * i + 3) g))
      /\ triple s1 cur i = triple s1 dp i
      /\ inHeartBox 0.6 (triple s1 hp i)
      /\ Vector3_length (triple s1 dp i) <= 40)
  /\ List.length (Particles.contents s1 hp) = (count * 3)%nat
  /\ List.length (Particles.contents s1 dp) = (count * 3)%nat
  /\ List.length (Particles.contents s1 cur) = (count * 3)%nat
  /\ hp <> cur /\ dp <> cur /\ hp <> dp
  /\ snd (Particles.mount count s g) = skip (8 * count) g
  /\ (forall ref' : nat,
         (ref' < Particles.fresh s)%nat ->
         Particles.contents s1 ref' = Particles.contents s ref').
Proof.
  cbn zeta. unfold Particles.mount, Particles.alloc.
  cbn [Particles.fresh Particles.cells].
  set (n := Particles.fresh s).
  set (s0 := Particles.mkStore _ (S (S (S (S n))))).
  assert (L0h : List.length (Particles.contents s0 n) = (count * 3)%nat).
  { unfold s0. rewrite !contents_alloc_ne by lia.
    rewrite contents_alloc_eq. apply repeat_length. }
  assert (L0d : List.length (Particles.contents s0 (S n)) = (count * 3)%nat).
  { unfold s0. rewrite !contents_alloc_ne by lia.
    rewrite contents_alloc_eq. apply repeat_length. }
  pose proof (fill_loop_fresh n (S n) (S (S n)) (S (S (S n)))
                              (seq 0 count) (s0, g)) as Hfresh.
  destruct (fill_loop_spec n (S n) (S (S n)) (S (S (S n))) count
              ltac:(lia) ltac:(lia) ltac:(lia) ltac:(lia) ltac:(lia)
              s0 g ltac:(lia) ltac:(lia))
    as (Hdone & Hlens & Hother & Hg).
  cbn zeta in *.
  destruct (fold_left _ (seq 0 count) (s0, g)) as [sf gf].
  cbn [fst snd] in *.
  cbn [Particles.heartPositions Particles.dispersedPositions
       Particles.currentPositions Particles.fresh].
  rewrite Hfresh. change (Particles.fresh s0) with (S (S (S (S n)))).
  set (s1 := Particles.mkStore _ _).
  assert (Hkeep : forall ref' : nat,
             ref' <> S (S (S (S n))) ->
             Particles.contents s1 ref' = Particles.contents sf ref').
  { intros ref' Hr. unfold s1. rewrite contents_alloc_ne by exact Hr.
    apply contents_cells. }
  assert (Hcur : Particles.contents s1 (S (S (S (S n))))
                 = Particles.contents sf (S n)).
  { unfold s1. apply contents_alloc_eq. }
  split; [| split; [| split; [| split]]].
  - intros i Hi. destruct (Hdone i Hi) as (Hh & Hd).
    assert (Th : triple s1 n i = triple sf n i)
      by (apply triple_same_contents, Hkeep; lia).
    assert (Td : triple s1 (S n) i = triple sf (S n) i)
      by (apply triple_same_contents, Hkeep; lia).
    assert (Tc : triple s1 (S (S (S (S n)))) i = triple sf (S n) i)
      by (apply triple_same_contents, Hcur).
    rewrite Th, Td, Tc, Hh, Hd.
    split; [reflexivity |]. split; [reflexivity |]. split; [reflexivity |].
    split.
    + apply randomInHeart_in_box; [lra | now apply skip_uniform].
    + apply randomInSphere_inside; [lra | now apply skip_uniform].
  - rewrite Hkeep, Hlens by lia. exact L0h.
  - rewrite Hkeep, Hlens by lia. exact L0d.
  - rewrite Hcur, Hlens. exact L0d.
  - split; [lia |]. split; [lia |]. split; [lia |].
    split; [exact Hg |].
    intros ref' Hr. rewrite Hkeep, Hother by lia.
    unfold s0. rewrite !contents_alloc_ne by lia. apply contents_cells.
Qed.

Lemma mount_fills_targets_witness :
  List.length
    (Particles.contents
       (snd (fst (Particles.mount 2 (Particles.mkStore ∅ 0)
                                  (constantRNG (1 / 8)))))
       (Particles.currentPositions
          (fst (fst (Particles.mount 2 (Particles.mkStore ∅ 0)
                                     (constantRNG (1 / 8)))))))
  = 6%nat.
Proof.
  apply (mount_fills_targets 2 (Particles.mkStore ∅ 0)
                             (constantRNG (1 / 8))).
  intros n. cbn. lra.
Defined.

End Mount.

(** ** Least viewed first *)

Section Fairness.
Import THREE Gallery.

Lemma focusScore_split (world : Matrix4) (counts : gmap nat nat)
      (prev : GestureState) (ps : list Targets) (idx : nat) :
  (idx < List.length ps)%nat ->
  focusScore world counts prev ps idx
  = focusDistance world prev ps idx + 500 * INR (viewCount counts idx)
  /\ 0 <= focusDistance world prev ps idx.
Proof.
  intros Hi. unfold focusScore, focusDistance.
  destruct (nth_error ps idx) as [t |] eqn:E.
  - split; [reflexivity |]. unfold distanceTo. apply sqrt_pos.
  - apply nth_error_None in E. lia.
Qed.

Lemma viewCount_incrementView (best idx : nat) (counts : gmap nat nat) :
  viewCount (incrementView best counts) idx
  = if Nat.eq_dec idx best then S (viewCount counts idx)
    else viewCount counts idx.
Proof.
  destruct (incrementView_lookup best counts) as [Hb Ho].
  destruct (Nat.eq_dec idx best) as [-> | Hne]; [exact Hb |].
  unfold viewCount. now rewrite Ho.
Qed.

(** A least score among distances below 500 belongs to a least viewed
    photo. *)
Lemma first_argmin_least_viewed (world : Matrix4) (counts : gmap nat nat)
      (prev : GestureState) (ps : list Targets) (best : nat) :
  first_argmin (focusScore world counts prev ps) (List.length ps) best ->
  (forall j : nat, (j < List.length ps)%nat ->
                   focusDistance world prev ps j < 500) ->
  forall j : nat,
    (j < List.length ps)%nat ->
    (viewCount counts best <= viewCount counts j)%nat
    /\ (viewCount counts j = viewCount counts best ->
        focusDistance world prev ps best <= focusDistance world prev ps j).
Proof.
  intros (Hb & Hmin & _) Hnear j Hj.
  destruct (focusScore_split world counts prev ps best Hb) as [Eb Pb].
  destruct (focusScore_split world counts prev ps j Hj) as [Ej Pj].
  specialize (Hmin j Hj). rewrite Eb, Ej in Hmin.
  pose proof (Hnear j Hj) as Nj.
  split.
  - destruct (le_lt_dec (viewCount counts best) (viewCount counts j))
      as [Hle | Hlt]; [exact Hle | exfalso].
    apply le_INR in Hlt. rewrite S_INR in Hlt. lra.
  - intros E. rewrite E in Hmin. lra.
Qed.

(** X16. When every photo is nearer than 500 to the camera anchor, the penalty of
    500 per view decides first: on a transition into FOCUSED the selected
    photo has the least view count of all, and is a nearest one among
    those of its count; hence view counts that differ by at most one keep
    differing by at most one after the selection. *)
Theorem focus_picks_least_viewed
        (images : Images) (world : Matrix4) (st : State)
        (Hedge : previousState st <> FOCUSED)
        (Hphotos : (0 < List.length (urls images))%nat)
        (Hrendered :
           List.length (positionsOf st) = List.length (urls images))
        (Hinner : is_Some (innerGroup st))
        (Hnear : forall j : nat,
            (j < List.length (positionsOf st))%nat ->
            focusDistance world (previousState st) (positionsOf st) j
            < 500) :
  let n := List.length (urls images) in
  let st' := useEffect FOCUSED images world st in
  let best := activeIndex st' in
  (forall j : nat,
      (j < n)%nat ->
      (viewCount (viewCounts st) best <= viewCount (viewCounts st) j)%nat
      /\ (viewCount (viewCounts st) j = viewCount (viewCounts st) best ->
          focusDistance world (previousState st) (positionsOf st) best
          <= focusDistance world (previousState st) (positionsOf st) j))
  /\ (balanced (viewCounts st) n -> balanced (viewCounts st') n).
Proof.
  cbn zeta.
  pose proof (useEffect_first_argmin images world st Hedge Hphotos
                                     Hrendered Hinner) as Hmin.
  pose proof (useEffect_edge images world st Hedge Hphotos Hinner) as Hrun.
  rewrite <- Hrendered in *.
  pose proof (first_argmin_least_viewed _ _ _ _ _ Hmin Hnear) as Hleast.
  split; [exact Hleast |].
  intros Hbal i j Hi Hj.
  rewrite Hrun in *.
  cbn [activeIndex viewCounts] in *.
  set (best := nearest _ _ _) in *.
  rewrite !viewCount_incrementView.
  pose proof (Hbal i j Hi Hj). pose proof (proj1 (Hleast j Hj)).
  pose proof (proj1 (Hleast i Hi)).
  destruct (Nat.eq_dec i best) as [-> | Hib];
    destruct (Nat.eq_dec j best) as [-> | Hjb]; lia.
Qed.

Lemma focus_picks_least_viewed_witness :
  (viewCount {[1%nat := 1%nat]}
             (activeIndex (useEffect FOCUSED threeImages identity
                                     (threePhotos {[1%nat := 1%nat]})))
   <= viewCount {[1%nat := 1%nat]} 2)%nat.
Proof.
  refine (proj1 (proj1 (focus_picks_least_viewed
                          threeImages identity
                          (threePhotos {[1%nat := 1%nat]}) _ _ _ _ _)
                       2%nat _)).
  - discriminate.
  - cbn. lia.
  - reflexivity.
  - cbn. eauto.
  - intros j Hj. unfold focusDistance.
    cbn [positionsOf positions threePhotos value List.length] in *.
    destruct j as [| [| [| j]]]; [| | | lia];
      cbn [nth_error preFocusTarget previousState threePhotos dispersed];
      rewrite distance_on_axis by lra; lra.
  - cbn. lia.
Defined.

Lemma runEffect_viewCount (st : State) (i : EffectInput) (idx : nat) :
  (viewCount (viewCounts st) idx
   <= viewCount (viewCounts (runEffect st i)) idx
   <= viewCount (viewCounts st) idx
      + risingEdges (previousState st) [i])%nat.
Proof.
  unfold runEffect, useEffect. cbn [risingEdges].
  destruct (GestureState_eqb (inGesture i) FOCUSED
            && negb (GestureState_eqb (previousState st) FOCUSED))%bool;
    [| cbn; lia].
  cbn [andb].
  destruct (0 <? List.length (urls (inImages i)))%nat; [| cbn; lia].
  cbn [andb].
  destruct (bool_decide (is_Some (innerGroup st))); [| cbn; lia].
  cbn [viewCounts]. rewrite viewCount_incrementView.
  destruct (Nat.eq_dec idx _); lia.
Qed.

Lemma risingEdges_cons (prev : GestureState) (i : EffectInput)
      (rest : list EffectInput) :
  risingEdges prev (i :: rest)
  = (risingEdges prev [i] + risingEdges (inGesture i) rest)%nat.
Proof. cbn [risingEdges]. lia. Qed.

(** X17. Along any sequence of runs of the focus effect the view count of a photo
    never decreases, and it grows by at most the number of transitions
    into FOCUSED with a non-empty gallery. *)
Theorem view_counts_never_decrease
        (inputs : list EffectInput) (st : State) (idx : nat) :
  (viewCount (viewCounts st) idx
   <= viewCount (viewCounts (runEffects st inputs)) idx
   <= viewCount (viewCounts st) idx
      + risingEdges (previousState st) inputs)%nat.
Proof.
  revert st. induction inputs as [| i rest IH]; intros st.
  - cbn. lia.
  - rewrite risingEdges_cons.
    cbn [runEffects fold_left]. fold (runEffects (runEffect st i) rest).
    pose proof (IH (runEffect st i)) as H.
    change (previousState (runEffect st i)) with (inGesture i) in H.
    pose proof (runEffect_viewCount st i idx). lia.
Qed.

End Fairness.
